(** * Joy: shapes, transformations and SVG rendering

    A shallow embedding of [joy.py].  Shapes are SVG nodes, transformations
    are attached to shapes with the [|] operator, and [_svg] / [SVG.render]
    turn a shape tree into text.

    The file has three parts: the pieces of the Python runtime the library
    calls ([str], [html.escape], [" ".join], [dict], integer and float
    arithmetic); the library itself, once on shape values and once on an
    object store (module [Heap]), where [clone] and attribute assignment are
    visible; and the properties. *)

From Stdlib Require Import ZArith String Ascii Bool Lia DecimalString Floats.
From stdpp Require Import base tactics option list strings.

#[local] Open Scope Z_scope.
#[local] Set Warnings "-register-all".
#[local] Arguments String.append : simpl nomatch.

(** ** Exceptions and results *)

(** The exceptions the modelled code can raise.  [AttributeError] carries the
    attribute name, as [raise AttributeError(name)] does.  [RecursionError]
    is raised by the traversal of the object store when its depth bound is
    used up, as Python does at its recursion limit.  [BadReference] has no
    Python counterpart: it is what the object store answers when asked for
    an object that does not exist or is of another kind. *)
Inductive exn : Type :=
| AttributeError (name : string)
| TypeError
| ZeroDivisionError
| OverflowError
| RecursionError
| BadReference.

Inductive result (A : Type) : Type :=
| OK (a : A)
| Raise (e : exn).
Arguments OK {A} a.
Arguments Raise {A} e.

Definition bind {A B : Type} (m : result A) (k : A -> result B) : result B :=
  match m with
  | OK a => k a
  | Raise e => Raise e
  end.

Declare Scope result_scope.
Delimit Scope result_scope with result.
Notation "x <- m ;; k" := (bind m (fun x => k))
  (at level 100, m at next level, right associativity, only parsing) : result_scope.
#[local] Open Scope result_scope.
Declare Scope heap_scope.

(** [[f(x) for x in xs]]: left to right, the first exception wins. *)
Fixpoint for_each {A B : Type} (f : A -> result B) (xs : list A) : result (list B) :=
  match xs with
  | [] => OK []
  | x :: xs' => y <- f x ;; ys <- for_each f xs' ;; OK (y :: ys)
  end.

(** ** Strings *)

(** The double quote, written by its code because a literal would need a
    doubled quote. *)
Definition dquote : string := String (ascii_of_nat 34) "".

(** The line feed. *)
Definition newline : string := String (ascii_of_nat 10) "".

(** [sep.join(parts)] *)
Fixpoint str_join (sep : string) (parts : list string) : string :=
  match parts with
  | [] => ""
  | [p] => p
  | p :: rest => p +:+ sep +:+ str_join sep rest
  end.

(** ["".join(parts)] *)
Definition str_concat (parts : list string) : string := str_join "" parts.

Fixpoint str_map (f : ascii -> string) (s : string) : string :=
  match s with
  | EmptyString => ""
  | String c s' => f c +:+ str_map f s'
  end.

(** [s.replace("_", "-")] *)
Definition replace_underscore (s : string) : string :=
  str_map (fun c => if Ascii.eqb c "_" then "-" else String c "") s.

(** [html.escape(s)] with its default [quote=True]: ampersand, less-than,
    greater-than and both quote characters are replaced, every other
    character is kept. *)
Definition escape_char (c : ascii) : string :=
  if Ascii.eqb c "&" then "&amp;"
  else if Ascii.eqb c "<" then "&lt;"
  else if Ascii.eqb c ">" then "&gt;"
  else if Ascii.eqb c (ascii_of_nat 34) then "&quot;"
  else if Ascii.eqb c "'" then "&#x27;"
  else String c "".

Definition html_escape (s : string) : string := str_map escape_char s.

(** [s.startswith(p)] *)
Definition startswith (s p : string) : bool := String.prefix p s.

(** [sub in s] *)
Fixpoint contains (sub s : string) : bool :=
  String.prefix sub s ||
  match s with
  | EmptyString => false
  | String _ s' => contains sub s'
  end.

(** ** Numbers *)

(** Python's [int] and [float].  Floats are the kernel's binary64 numbers, so
    [/] and [*] round as CPython's do. *)
Inductive number : Type :=
| Int (z : Z)
| Float (f : float).

(** What the model takes from the interpreter without defining it: [repr] of
    a float (the shortest digits that read back as the same float) and
    [float.__pow__], which CPython hands to the C library's [pow] and which
    raises [OverflowError] when the result is out of range. *)
Class FloatRuntime : Type := {
  float_repr : float -> string;
  float_pow : float -> float -> result float
}.

(** [float(z)]: rounded to nearest, ties to even; [OverflowError] beyond the
    largest float. *)
Definition float_of_int (z : Z) : result float :=
  match binary_normalize prec emax z 0 false with
  | S754_infinity _ => Raise OverflowError
  | sf => OK (SF2Prim sf)
  end.

(** [a / b] on two ints: the exact quotient rounded once.  The quotient is
    first computed to 56 bits or more with a sticky last bit, then rounded
    to 53. *)
Definition int_truediv (a b : Z) : result float :=
  if b =? 0 then Raise ZeroDivisionError
  else if a =? 0 then OK (if b <? 0 then (-0)%float else 0%float)
  else
    let k := Z.max 0 (56 + Z.log2 (Z.abs b) - Z.log2 (Z.abs a)) in
    let q := (Z.abs a * 2 ^ k) / Z.abs b in
    let sticky := if (Z.abs a * 2 ^ k) mod Z.abs b =? 0 then 0 else 1 in
    let m := 2 * q + sticky in
    let m := if xorb (a <? 0) (b <? 0) then - m else m in
    match binary_normalize prec emax m (- k - 1) false with
    | S754_infinity _ => Raise OverflowError
    | sf => OK (SF2Prim sf)
    end.

(** [a * b] *)
Definition num_mul (a b : number) : result number :=
  match a, b with
  | Int x, Int y => OK (Int (x * y))
  | Int x, Float g => f <- float_of_int x ;; OK (Float (f * g)%float)
  | Float f, Int y => g <- float_of_int y ;; OK (Float (f * g)%float)
  | Float f, Float g => OK (Float (f * g)%float)
  end.

(** [s ** i] for an int [i >= 0], the only exponents [Cycle] uses. *)
Definition num_pow `{FloatRuntime} (s : number) (i : Z) : result number :=
  match s with
  | Int x => OK (Int (x ^ i))
  | Float f => e <- float_of_int i ;; r <- float_pow f e ;; OK (Float r)
  end.

(** [z == f] for an int and a float compares the two exact values. *)
Definition int_eq_float (z : Z) (f : float) : bool :=
  match Prim2SF f with
  | S754_zero _ => z =? 0
  | S754_finite s m e =>
      let v := if s then Z.neg m else Z.pos m in
      if 0 <=? e then z =? v * 2 ^ e else z * 2 ^ (- e) =? v
  | _ => false
  end.

(** [a == b] *)
Definition num_eq (a b : number) : bool :=
  match a, b with
  | Int x, Int y => x =? y
  | Int x, Float g => int_eq_float x g
  | Float f, Int y => int_eq_float y f
  | Float f, Float g => PrimFloat.eqb f g
  end.

(** [str(z)] *)
Definition str_int (z : Z) : string := NilZero.string_of_int (Z.to_int z).

(** [str(n)], also what an f-string field [{n}] gives. *)
Definition str_number `{FloatRuntime} (n : number) : string :=
  match n with
  | Int z => str_int z
  | Float f => float_repr f
  end.

(** ** Attribute values and dicts *)

(** The values the model lets an attribute hold: [None], a number or a
    string. *)
Inductive value : Type :=
| VNone
| VNum (n : number)
| VStr (s : string).

(** [str(v)] *)
Definition str_value `{FloatRuntime} (v : value) : string :=
  match v with
  | VNone => "None"
  | VNum n => str_number n
  | VStr s => s
  end.

(** A [dict] with string keys: its items in insertion order. *)
Definition dict : Type := list (string * value).

(** [d.get(k)]; [None] when the key is absent, to tell it from a present
    key bound to [VNone]. *)
Fixpoint dict_get (k : string) (d : dict) : option value :=
  match d with
  | [] => None
  | (k', v) :: d' => if String.eqb k k' then Some v else dict_get k d'
  end.

(** [k in d] *)
Definition dict_mem (k : string) (d : dict) : bool :=
  match dict_get k d with Some _ => true | None => false end.

(** [d[k] = v]: a present key keeps its place, a new one goes last. *)
Fixpoint dict_set (k : string) (v : value) (d : dict) : dict :=
  match d with
  | [] => [(k, v)]
  | (k', v') :: d' =>
      if String.eqb k k' then (k', v) :: d' else (k', v') :: dict_set k v d'
  end.

(** ** Data model *)

Record Point : Type := mkPoint { Point_x : number; Point_y : number }.

(** [Point.__eq__(self, p)] for a [p] that is a [Point]. *)
Definition Point_eq (self p : Point) : bool :=
  num_eq (Point_x p) (Point_x self) && num_eq (Point_y p) (Point_y self).

(** [Point(0, 0)], the default anchor. *)
Definition origin : Point := mkPoint (Int 0) (Int 0).

(** The subclasses of [Transformation], with the fields their [__init__]
    stores. *)
Inductive Transformation : Type :=
| Translate (x y : number)
| Rotate (angle : number) (anchor : Point)
| Scale (sx sy : number)
| TransformationList (transformations : list Transformation)
| Repeat (n : Z) (transformation : Transformation)
| Cycle (n : Z) (angle : number) (anchor : Point) (s : option number).

(** A [Shape] instance: the four fields [Shape.__init__] sets.  [children]
    is [None] or a sequence of shapes. *)
Inductive Shape : Type :=
  mkShape {
    tag : string;
    children : option (list Shape);
    attrs : dict;
    transform : option Transformation
  }.

(** [SVG(nodes, width, height)] *)
Record SVG : Type := mkSVG { nodes : list Shape; width : Z; height : Z }.

(** ** Transformations *)

(** [Rotate(angle, anchor=Point(0, 0))] *)
Definition Rotate_init (angle : number) (anchor : option Point) : Transformation :=
  Rotate angle (default origin anchor).

(** [Scale(sx, sy=None)]: a missing [sy] becomes [sx] in the constructor. *)
Definition Scale_init (sx : number) (sy : option number) : Transformation :=
  Scale sx (default sx sy).

(** [Cycle(n, anchor, s, angle)]: a missing [angle] becomes [360/n], which
    raises [ZeroDivisionError] for [n = 0]. *)
Definition Cycle_init (n : Z) (anchor : Point) (s : option number)
    (angle : option number) : result Transformation :=
  angle' <- match angle with
            | Some a => OK a
            | None => q <- int_truediv 360 n ;; OK (Float q)
            end ;;
  OK (Cycle n angle' anchor s).

(** [self.join(transformation)]: [TransformationList.join] appends, the
    inherited [Transformation.join] pairs. *)
Definition join (self transformation : Transformation) : Transformation :=
  match self with
  | TransformationList transformations =>
      TransformationList (transformations ++ [transformation])
  | _ => TransformationList [self; transformation]
  end.

(** [self | right] for two transformations ([Transformation.__or__]). *)
Definition Transformation_or (self right : Transformation) : Transformation :=
  join self right.

(** [range(n)] *)
Definition range (n : Z) : list Z := map Z.of_nat (seq 0 (Z.to_nat n)).

(** [enumerate(xs)] *)
Definition enumerate {A : Type} (xs : list A) : list (Z * A) :=
  combine (range (Z.of_nat (length xs))) xs.

Section Library.
Context `{FloatRuntime}.

(** [t.as_str()].  [Repeat] and [Cycle] define no [as_str], so the lookup
    raises [AttributeError]. *)
Fixpoint as_str (t : Transformation) : result string :=
  match t with
  | Translate x y =>
      OK ("translate(" +:+ str_number x +:+ " " +:+ str_number y +:+ ")")
  | Rotate angle anchor =>
      if Point_eq anchor origin
      then OK ("rotate(" +:+ str_number angle +:+ ")")
      else OK ("rotate(" +:+ str_number angle +:+ " "
                 +:+ str_number (Point_x anchor) +:+ " "
                 +:+ str_number (Point_y anchor) +:+ ")")
  | Scale sx sy =>
      OK ("scale(" +:+ str_number sx +:+ " " +:+ str_number sy +:+ ")")
  | TransformationList transformations =>
      parts <- for_each as_str transformations ;;
      OK (str_join " " parts)
  | Repeat _ _ | Cycle _ _ _ _ => Raise (AttributeError "as_str")
  end.

(** ** Shapes *)

(** [Shape(tag, children, transform, **attrs)].  The [transform] argument is
    accepted and not stored. *)
Definition Shape_init (tag : string) (children : option (list Shape))
    (transform : option Transformation) (attrs : dict) : Shape :=
  mkShape tag children attrs None.

(** [self.clone()]: a new instance with a copy of every field. *)
Definition clone (self : Shape) : Shape :=
  mkShape (tag self) (children self) (attrs self) (transform self).

(** [shape.transform = t] *)
Definition set_transform (shape : Shape) (t : Transformation) : Shape :=
  mkShape (tag shape) (children shape) (attrs shape) (Some t).

(** [self.apply_transform(transform)] *)
Definition apply_transform (self : Shape) (transform' : Transformation) : Shape :=
  let transform' :=
    match transform self with
    | Some t0 => Transformation_or t0 transform'
    | None => transform'
    end in
  let shape := clone self in
  set_transform shape transform'.

(** [self.get_attrs()]: a copy of [attrs], with the transform text under the
    key [transform] when a transformation is attached (an instance of a
    class without [__bool__] or [__len__] is true). *)
Definition get_attrs (self : Shape) : result dict :=
  let attrs := attrs self in
  match transform self with
  | Some t => text <- as_str t ;; OK (dict_set "transform" (VStr text) attrs)
  | None => OK attrs
  end.

(** [render_tag(tag, close=close, **attrs)] *)
Definition render_items (attrs : dict) : list (string * string) :=
  omap (fun '(k, v) =>
          match v with
          | VNone => None
          | _ => Some (replace_underscore k, html_escape (str_value v))
          end) attrs.

(** The f-string that writes one attribute: the name, an equals sign and the
    value between double quotes. *)
Definition render_attr (k v : string) : string :=
  k +:+ "=" +:+ dquote +:+ v +:+ dquote.

Definition render_attrs_text (attrs : dict) : string :=
  str_join " " (map (fun '(k, v) => render_attr k v) (render_items attrs)).

Definition render_tag (tag : string) (close : bool) (attrs : dict) : string :=
  let end_ := if close then " />" else ">" in
  match attrs with
  | [] => "<" +:+ tag +:+ end_
  | _ => "<" +:+ tag +:+ " " +:+ render_attrs_text attrs +:+ end_
  end.

(** The call [render_tag(self.tag, **attrs, close=...)]: a key [tag] or
    [close] among the attributes collides with the argument of that name and
    raises [TypeError]. *)
Definition call_render_tag (tag : string) (attrs : dict) (close : bool) : result string :=
  if dict_mem "tag" attrs || dict_mem "close" attrs then Raise TypeError
  else OK (render_tag tag close attrs).

(** [if self.children:] *)
Definition has_children (self : Shape) : bool :=
  match children self with
  | Some (_ :: _) => true
  | _ => false
  end.

(** [self._svg(indent)] *)
Fixpoint _svg (indent : string) (self : Shape) : result string :=
  match self with
  | mkShape tag children _ _ =>
      attrs <- get_attrs self ;;
      match children with
      | Some ((_ :: _) as cs) =>
          tag_text <- call_render_tag tag attrs false ;;
          inner <- for_each (_svg (indent +:+ "  ")) cs ;;
          OK (indent +:+ tag_text +:+ newline
                +:+ str_concat inner
                +:+ indent +:+ "</" +:+ tag +:+ ">" +:+ newline)
      | _ =>
          tag_text <- call_render_tag tag attrs true ;;
          OK (indent +:+ tag_text +:+ newline)
      end
  end.

(** [Group(shapes, **kwargs)] *)
Definition Group (shapes : list Shape) (kwargs : dict) : Shape :=
  Shape_init "g" (Some shapes) None kwargs.

(** [combine], on the sequence of its arguments. *)
Definition combine (shapes : list Shape) : Shape := Group shapes [].

(** [self + shape] ([Shape.__add__]) *)
Definition Shape_add (self shape : Shape) : Shape := Group [self; shape] [].

(** The keyword arguments a shape constructor passes on next to its own:
    a repeated keyword raises [TypeError]. *)
Definition merge_kwargs (own kwargs : dict) : result dict :=
  if existsb (fun '(k, _) => dict_mem k own) kwargs then Raise TypeError
  else OK (own ++ kwargs).

(** [Circle(center, radius, **kwargs)], for keywords that are attributes. *)
Definition Circle (center : Point) (radius : number) (kwargs : dict) : result Shape :=
  attrs <- merge_kwargs [("cx", VNum (Point_x center)); ("cy", VNum (Point_y center));
                         ("r", VNum radius)] kwargs ;;
  OK (Shape_init "circle" None None attrs).

(** [Line(start, end, **kwargs)], for keywords that are attributes. *)
Definition Line (start end_ : Point) (kwargs : dict) : result Shape :=
  attrs <- merge_kwargs [("x1", VNum (Point_x start)); ("y1", VNum (Point_y start));
                         ("x2", VNum (Point_x end_)); ("y2", VNum (Point_y end_))] kwargs ;;
  OK (Shape_init "line" None None attrs).

(** [self.__getattr__(name)], the hook Python calls when [name] is neither an
    instance field nor a class attribute. *)
Definition __getattr__ (self : Shape) (name : string) : result value :=
  match negb (startswith name "_"), dict_get name (attrs self) with
  | true, Some v => OK v
  | _, _ => Raise (AttributeError name)
  end.

(** The loop of [Repeat.apply]: [k] rounds of
    [shape = f(shape); shapes.append(shape)]. *)
Definition repeat_loop (f : Shape -> result Shape)
    : nat -> Shape -> list Shape -> result (list Shape) :=
  fix loop k shape shapes :=
    match k with
    | O => OK shapes
    | S k' => shape' <- f shape ;; loop k' shape' (shapes ++ [shape'])
    end.

(** [t.apply(shape)], which is also [shape | t] ([Transformation.__ror__]).
    [Repeat] and [Cycle] override it; every other class attaches itself with
    [apply_transform]. *)
Fixpoint apply (t : Transformation) (shape : Shape) : result Shape :=
  match t with
  | Repeat n transformation =>
      shapes <- repeat_loop (apply transformation) (Z.to_nat (n - 1)) shape [shape] ;;
      OK (Group shapes [])
  | Cycle n angle anchor s =>
      shapes <- for_each (fun i =>
                  a <- num_mul (Int i) angle ;;
                  OK (apply_transform shape (Rotate_init a (Some anchor))))
                (range n) ;;
      shapes <- match s with
                | Some s =>
                    for_each (fun '(i, shape_) =>
                      sx <- num_pow s i ;;
                      OK (apply_transform shape_ (Scale_init sx None)))
                    (enumerate shapes)
                | None => OK shapes
                end ;;
      OK (Group shapes [])
  | _ => OK (apply_transform shape t)
  end.

(** ** Rendering an image *)

(** The [viewBox] f-string of [SVG.render]. *)
Definition viewBox (width height : Z) : string :=
  "-" +:+ str_int (width / 2) +:+ " -" +:+ str_int (height / 2)
      +:+ " " +:+ str_int width +:+ " " +:+ str_int height.

(** [self.render()] ([SVG.render]) *)
Definition SVG_render (self : SVG) : result string :=
  let svg_header :=
    render_tag "svg" false
      [("width", VNum (Int (width self)));
       ("height", VNum (Int (height self)));
       ("viewBox", VStr (viewBox (width self) (height self)));
       ("fill", VStr "none");
       ("stroke", VStr "black");
       ("xmlns", VStr "http://www.w3.org/2000/svg")] +:+ newline in
  let svg_footer := "</svg>" +:+ newline in
  nodes <- for_each (_svg "  ") (nodes self) ;;
  OK (svg_header +:+ str_concat nodes +:+ svg_footer).

(** [self.as_svg(width, height)] *)
Definition as_svg (self : Shape) (width height : Z) : result string :=
  SVG_render (mkSVG [self] width height).
End Library.

(** * The library on an object store *)

(** The same classes with Python's objects made explicit: a shape is a
    reference to an instance, its [attrs] a reference to a dict and its
    [children] a reference to a list, all three living in a store where
    [clone] allocates, [shape.transform = t] writes and [shapes.append]
    writes.  Transformations and points stay values: the library never
    assigns to a field of one after its constructor has run. *)
Module Heap.

Abbreviation ref := nat.

(** The fields of a [Shape] instance; [cls] is its class, which [clone]
    passes to [object.__new__]. *)
Record instance : Type :=
  mkInstance {
    cls : string;
    tag : string;
    children : option ref;
    attrs : ref;
    transform : option Transformation
  }.

Inductive object : Type :=
| Instance (i : instance)
| Dict (items : dict)
| List (items : list ref).

(** The store: the object of reference [r] is at index [r]. *)
Abbreviation heap := (list object).

(** A computation that reads and writes the store and may raise. *)
Definition M (A : Type) : Type := heap -> result (A * heap).

Definition ret {A : Type} (a : A) : M A := fun h => OK (a, h).

Definition sbind {A B : Type} (m : M A) (k : A -> M B) : M B :=
  fun h =>
    match m h with
    | OK (a, h') => k a h'
    | Raise e => Raise e
    end.

#[local] Notation "x <- m ;; k" := (sbind m (fun x => k))
  (at level 100, m at next level, right associativity, only parsing) : heap_scope.
#[local] Open Scope heap_scope.

(** A computation that does not touch the store. *)
Definition lift {A : Type} (m : result A) : M A :=
  fun h =>
    match m with
    | OK a => OK (a, h)
    | Raise e => Raise e
    end.

(** A new object, at the first free reference. *)
Definition new (o : object) : M ref := fun h => OK (length h, h ++ [o]).

Definition instance_at (h : heap) (r : ref) : result instance :=
  match h !! r with
  | Some (Instance i) => OK i
  | _ => Raise BadReference
  end.

Definition dict_at (h : heap) (r : ref) : result dict :=
  match h !! r with
  | Some (Dict items) => OK items
  | _ => Raise BadReference
  end.

Definition list_at (h : heap) (r : ref) : result (list ref) :=
  match h !! r with
  | Some (List items) => OK items
  | _ => Raise BadReference
  end.

(** Reading leaves the store as it is. *)
Definition read {A : Type} (f : heap -> result A) : M A :=
  fun h =>
    match f h with
    | OK a => OK (a, h)
    | Raise e => Raise e
    end.

(** [l.append(x)] *)
Definition list_append (l : ref) (x : ref) : M unit :=
  fun h =>
    match h !! l with
    | Some (List items) => OK (tt, <[l := List (items ++ [x])]> h)
    | _ => Raise BadReference
    end.

(** [for x in xs: body(x)] *)
Fixpoint for_ {A : Type} (xs : list A) (body : A -> M unit) : M unit :=
  match xs with
  | [] => ret tt
  | x :: xs' => _ <- body x ;; for_ xs' body
  end.

(** [Shape(tag, children, transform, **attrs)] for the class [cls]: the
    keyword arguments arrive in a new dict, and no transformation is
    stored. *)
Definition Shape_init (cls tag : string) (children : option ref)
    (transform : option Transformation) (attrs : dict) : M ref :=
  d <- new (Dict attrs) ;;
  new (Instance (mkInstance cls tag children d None)).

(** [self.clone()]: [object.__new__(self.__class__)], then every entry of
    [self.__dict__] copied into the new instance.  The copy is shallow: the
    new instance refers to the same dict and the same list. *)
Definition clone (self : ref) : M ref :=
  i <- read (fun h => instance_at h self) ;;
  new (Instance (mkInstance (cls i) (tag i) (children i) (attrs i) (transform i))).

(** [shape.transform = t] *)
Definition set_transform (shape : ref) (t : Transformation) : M unit :=
  fun h =>
    match h !! shape with
    | Some (Instance i) =>
        OK (tt, <[shape := Instance (mkInstance (cls i) (tag i) (children i)
                                                (attrs i) (Some t))]> h)
    | _ => Raise BadReference
    end.

(** [self.apply_transform(transform)] *)
Definition apply_transform (self : ref) (transform' : Transformation) : M ref :=
  i <- read (fun h => instance_at h self) ;;
  let transform' :=
    match transform i with
    | Some t0 => Transformation_or t0 transform'
    | None => transform'
    end in
  shape <- clone self ;;
  _ <- set_transform shape transform' ;;
  ret shape.

(** [Group(shapes, **kwargs)], [shapes] being the caller's list. *)
Definition Group (shapes : ref) (kwargs : dict) : M ref :=
  Shape_init "Group" "g" (Some shapes) None kwargs.

(** The loop of [Repeat.apply]. *)
Definition repeat_loop (f : ref -> M ref) (shapes : ref) : nat -> ref -> M unit :=
  fix loop k shape :=
    match k with
    | O => ret tt
    | S k' =>
        shape' <- f shape ;;
        _ <- list_append shapes shape' ;;
        loop k' shape'
    end.

Section Library.
Context `{FloatRuntime}.

(** [t.apply(shape)], that is [shape | t].  A list comprehension builds its
    list by appending to a new one. *)
Fixpoint apply (t : Transformation) (shape : ref) : M ref :=
  match t with
  | Repeat n transformation =>
      shapes <- new (List [shape]) ;;
      _ <- repeat_loop (apply transformation) shapes (Z.to_nat (n - 1)) shape ;;
      Group shapes []
  | Cycle n angle anchor s =>
      shapes <- new (List []) ;;
      _ <- for_ (range n) (fun i =>
             a <- lift (num_mul (Int i) angle) ;;
             shape' <- apply_transform shape (Rotate_init a (Some anchor)) ;;
             list_append shapes shape') ;;
      shapes <- match s with
                | Some s =>
                    items <- read (fun h => list_at h shapes) ;;
                    scaled <- new (List []) ;;
                    _ <- for_ (enumerate items) (fun '(i, shape_) =>
                           sx <- lift (num_pow s i) ;;
                           shape' <- apply_transform shape_ (Scale_init sx None) ;;
                           list_append scaled shape') ;;
                    ret scaled
                | None => ret shapes
                end ;;
      Group shapes []
  | _ => apply_transform shape t
  end.

(** [self.get_attrs()]: [dict(self.attrs)] is a copy, so the assignment to
    its [transform] key does not reach the dict in the store. *)
Definition get_attrs (h : heap) (self : ref) : result dict :=
  (i <- instance_at h self ;;
   attrs <- dict_at h (attrs i) ;;
   match transform i with
   | Some t => text <- as_str t ;; OK (dict_set "transform" (VStr text) attrs)
   | None => OK attrs
   end)%result.

(** [self._svg(indent)], to a nesting depth of [depth] instances at most;
    beyond it the traversal raises [RecursionError]. *)
Fixpoint _svg (depth : nat) (h : heap) (indent : string) (self : ref) : result string :=
  match depth with
  | O => Raise RecursionError
  | S depth' =>
      (i <- instance_at h self ;;
       attrs <- get_attrs h self ;;
       children <- match children i with
                   | Some l => list_at h l
                   | None => OK []
                   end ;;
       match children with
       | _ :: _ =>
           tag_text <- call_render_tag (tag i) attrs false ;;
           inner <- for_each (_svg depth' h (indent +:+ "  ")) children ;;
           OK (indent +:+ tag_text +:+ newline
                 +:+ str_concat inner
                 +:+ indent +:+ "</" +:+ tag i +:+ ">" +:+ newline)
       | [] =>
           tag_text <- call_render_tag (tag i) attrs true ;;
           OK (indent +:+ tag_text +:+ newline)
       end)%result
  end.

End Library.

(** The references an object holds. *)
Definition refs_of (o : object) : list ref :=
  match o with
  | Instance i => attrs i :: match children i with Some l => [l] | None => [] end
  | Dict _ => []
  | List items => items
  end.

(** A store with no dangling reference. *)
Definition closed (h : heap) : Prop :=
  forall r o, h !! r = Some o -> Forall (fun r' => (r' < length h)%nat) (refs_of o).

Definition is_instance (h : heap) (r : ref) : Prop :=
  exists i, h !! r = Some (Instance i).

(** The shape value a reference stands for: the instance's fields, with the
    dict and the list read from the store and each child read in turn, to a
    nesting depth of [depth]. *)
Fixpoint shape_at (depth : nat) (h : heap) (r : ref) : result Shape :=
  match depth with
  | O => Raise RecursionError
  | S depth' =>
      (i <- instance_at h r ;;
       attrs <- dict_at h (attrs i) ;;
       children <- match children i with
                   | Some l =>
                       items <- list_at h l ;;
                       shapes <- for_each (shape_at depth' h) items ;;
                       OK (Some shapes)
                   | None => OK None
                   end ;;
       OK (mkShape (tag i) children attrs (transform i)))%result
  end.

Definition represents (h : heap) (r : ref) (shape : Shape) : Prop :=
  exists depth, shape_at depth h r = OK shape.

(** No instance has [l] as its [children]: a list still under
    construction. *)
Definition orphan (h : heap) (l : ref) : Prop :=
  forall r i, h !! r = Some (Instance i) -> children i <> Some l.

(** A call on the store against the same call on shape values: both return,
    the new store extending the old one and the returned reference standing
    for the returned value, or both raise the same exception. *)
Definition simulates (h : heap) (concrete : result (ref * heap))
    (abstract : result Shape) : Prop :=
  match concrete, abstract with
  | OK (r, h'), OK shape =>
      h `prefix_of` h' /\ closed h' /\ represents h' r shape
      /\ (forall l, (l < length h)%nat -> orphan h l -> orphan h' l)
  | Raise e, Raise e' => e = e'
  | _, _ => False
  end.

(** The store while a call that started in [h0] fills its list [shapes],
    against the list of shape values [acc] built by the same call on
    values. *)
Definition filling (h0 : heap) (shapes : ref) (h : heap) (acc : list Shape) : Prop :=
  h0 `prefix_of` h /\ closed h /\ (length h0 <= shapes)%nat
  /\ orphan h shapes
  /\ (forall l, (l < length h0)%nat -> orphan h0 l -> orphan h l)
  /\ exists items, h !! shapes = Some (List items) /\ Forall2 (represents h) items acc.

(** A loop on the store against the same loop on values: both finish, the
    list in the store filled with references that stand for the values
    collected, or both raise the same exception. *)
Definition loop_simulates (h0 : heap) (shapes : ref)
    (concrete : result (unit * heap)) (abstract : result (list Shape))
    (P : heap -> Prop) : Prop :=
  match concrete, abstract with
  | OK (_, h'), OK acc => filling h0 shapes h' acc /\ P h'
  | Raise e, Raise e' => e = e'
  | _, _ => False
  end.

(** An exception of the arithmetic: [OverflowError] from [float(i)], or
    whatever the runtime's power raises. *)
Definition numeric_error `{FloatRuntime} (e : exn) : Prop :=
  e = OverflowError \/ exists x y, float_pow x y = Raise e.

(** The outcome of a call: a result and a store that satisfy [Q], or an
    exception of the arithmetic. *)
Definition returns `{FloatRuntime} {A : Type} (outcome : result (A * heap))
    (Q : A -> heap -> Prop) : Prop :=
  match outcome with
  | OK (a, h') => Q a h'
  | Raise e => numeric_error e
  end.

(** [h'] is [h] with objects added, none dangling, and [r] is one of the
    added objects, an instance. *)
Definition fresh_instance (h : heap) (r : ref) (h' : heap) : Prop :=
  h `prefix_of` h' /\ closed h' /\ (length h <= r)%nat /\ is_instance h' r.

(** The store while a call that started in [h0] fills its list [shapes]. *)
Definition building (h0 : heap) (shapes : ref) (h : heap) : Prop :=
  h0 `prefix_of` h /\ closed h /\ (length h0 <= shapes)%nat
  /\ exists items, h !! shapes = Some (List items) /\ Forall (is_instance h) items.

End Heap.

(** ** Notions the properties are stated with *)

(** A transformation whose [apply] is the inherited [Transformation.apply],
    which attaches it with [apply_transform]: every class but [Repeat] and
    [Cycle]. *)
Definition applies_directly (t : Transformation) : bool :=
  match t with
  | Repeat _ _ | Cycle _ _ _ _ => false
  | _ => true
  end.

(** [TransformationList([])] *)
Definition is_empty_list (t : Transformation) : bool :=
  match t with
  | TransformationList [] => true
  | _ => false
  end.

(** The components [join] appends to. *)
Definition components (t : Transformation) : list Transformation :=
  match t with
  | TransformationList transformations => transformations
  | _ => [t]
  end.

(** The number of constructors of a transformation. *)
Fixpoint size (t : Transformation) : nat :=
  match t with
  | TransformationList transformations =>
      S (foldr (fun t' n => (size t' + n)%nat) 0%nat transformations)
  | Repeat _ transformation => S (size transformation)
  | _ => 1%nat
  end.

(** [t] applied [k] times in a row, starting from [shape]. *)
Fixpoint iterate_apply `{FloatRuntime} (t : Transformation) (k : nat) (shape : Shape)
    : result Shape :=
  match k with
  | O => OK shape
  | S k' => shape' <- apply t shape ;; iterate_apply t k' shape'
  end.

(** The displacement of a transformation made of int translations only: a
    transform list is read left to right and translations add up.  [None]
    for anything else. *)
Fixpoint net_translation (t : Transformation) : option (Z * Z) :=
  match t with
  | Translate (Int x) (Int y) => Some (x, y)
  | TransformationList transformations =>
      foldr (fun t' acc =>
               match net_translation t', acc with
               | Some (x, y), Some (x', y') => Some (x + x', y + y')
               | _, _ => None
               end) (Some (0, 0)) transformations
  | _ => None
  end.

(** The displacement of a shape: that of its transformation, none without
    one. *)
Definition shape_translation (shape : Shape) : option (Z * Z) :=
  match transform shape with
  | Some t => net_translation t
  | None => Some (0, 0)
  end.

(** The view box as the specification words it, with [-width/2] and
    [-height/2] taken exactly: a whole number for an even size, a number
    ending in [.5] for an odd one. *)
Definition str_neg_half (size : Z) : string :=
  if Z.even size then str_int (- (size / 2))
  else (if 0 <? size then "-" else "") +:+ str_int (Z.abs size / 2) +:+ ".5".

Definition viewBox_centered (width height : Z) : string :=
  str_neg_half width +:+ " " +:+ str_neg_half height
    +:+ " " +:+ str_int width +:+ " " +:+ str_int height.

(** ** A runtime to run examples with *)

(** The int a float is equal to, when it is one. *)
Definition integral_value (f : float) : option Z :=
  match Prim2SF f with
  | S754_zero _ => Some 0
  | S754_finite s m e =>
      let v := if s then Z.neg m else Z.pos m in
      if 0 <=? e then Some (v * 2 ^ e)
      else if v mod 2 ^ (- e) =? 0 then Some (v / 2 ^ (- e)) else None
  | _ => None
  end.

(** [repr] as Python prints a float that is a whole number below [1e16]
    ([90.0], [-0.0]); any other float prints as a placeholder.  [pow] always
    overflows.  The closed examples below use this runtime. *)
Definition example_runtime : FloatRuntime :=
  {| float_repr := fun f =>
       match integral_value f with
       | Some v =>
           if Z.abs v <? 10 ^ 16
           then (if (v =? 0) && PrimFloat.ltb (1 / f) 0 then "-" else "")
                  +:+ str_int v +:+ ".0"
           else "<float>"
       | None => "<float>"
       end;
     float_pow := fun _ _ => Raise OverflowError |}.

(** The circle of the doctests, [Shape(tag='circle', cx=100, cy=100, r=50)]. *)
Definition doc_circle : Shape :=
  Shape_init "circle" None None
    [("cx", VNum (Int 100)); ("cy", VNum (Int 100)); ("r", VNum (Int 50))].

(** The store after [Shape(tag='circle', cx=100, cy=100, r=50)]: the dict of
    the attributes, then the instance. *)
Definition doc_store : Heap.heap :=
  [Heap.Dict [("cx", VNum (Int 100)); ("cy", VNum (Int 100)); ("r", VNum (Int 50))];
   Heap.Instance (Heap.mkInstance "Shape" "circle" None 0 None)].

(** ** More of the library *)

(** [a / b] on numbers: true division, [ZeroDivisionError] for a zero
    divisor of either kind. *)
Definition num_truediv (a b : number) : result number :=
  match a, b with
  | Int x, Int y => q <- int_truediv x y ;; OK (Float q)
  | Int x, Float g =>
      if PrimFloat.eqb g 0 then Raise ZeroDivisionError
      else f <- float_of_int x ;; OK (Float (f / g)%float)
  | Float f, Int y =>
      if y =? 0 then Raise ZeroDivisionError
      else g <- float_of_int y ;; OK (Float (f / g)%float)
  | Float f, Float g =>
      if PrimFloat.eqb g 0 then Raise ZeroDivisionError
      else OK (Float (f / g)%float)
  end.

(** [a - b] *)
Definition num_sub (a b : number) : result number :=
  match a, b with
  | Int x, Int y => OK (Int (x - y))
  | Int x, Float g => f <- float_of_int x ;; OK (Float (f - g)%float)
  | Float f, Int y => g <- float_of_int y ;; OK (Float (f - g)%float)
  | Float f, Float g => OK (Float (f - g)%float)
  end.

(** [Ellipse(center, width, height, **kwargs)], for keywords that are
    attributes. *)
Definition Ellipse (center : Point) (width height : number) (kwargs : dict)
    : result Shape :=
  rx <- num_truediv width (Int 2) ;;
  ry <- num_truediv height (Int 2) ;;
  attrs <- merge_kwargs [("cx", VNum (Point_x center)); ("cy", VNum (Point_y center));
                         ("rx", VNum rx); ("ry", VNum ry)] kwargs ;;
  OK (Shape_init "ellipse" None None attrs).

(** [Rectangle(center, width, height, **kwargs)], for keywords that are
    attributes. *)
Definition Rectangle (center : Point) (width height : number) (kwargs : dict)
    : result Shape :=
  half_width <- num_truediv width (Int 2) ;;
  x <- num_sub (Point_x center) half_width ;;
  half_height <- num_truediv height (Int 2) ;;
  y <- num_sub (Point_y center) half_height ;;
  attrs <- merge_kwargs [("x", VNum x); ("y", VNum y);
                         ("width", VNum width); ("height", VNum height)] kwargs ;;
  OK (Shape_init "rect" None None attrs).

(** ** Attribute access *)

(** What the interpreter answers by itself for every instance: the
    attributes of [object] and those a class statement adds ([__class__],
    [__dict__], [__doc__], ...).  The library defines none of them. *)
Class ObjectRuntime : Type := {
  object_attribute : string -> bool
}.

(** The keys of an instance's [__dict__] once [Shape.__init__] has run. *)
Definition Shape_fields : list string := ["tag"; "children"; "attrs"; "transform"].

(** The keys the constructor of the class [cls] adds before it calls
    [Shape.__init__]: [self.center = center] and the like.  [clone] copies
    the whole [__dict__], so a copy has the keys of its original. *)
Definition constructor_fields (cls : string) : list string :=
  if String.eqb cls "Circle" then ["center"; "radius"]
  else if String.eqb cls "Ellipse" then ["center"; "width"; "height"]
  else if String.eqb cls "Rectangle" then ["center"; "width"; "height"]
  else if String.eqb cls "Line" then ["start"; "end"]
  else [].

(** The names the class statement of [Shape] binds; its subclasses bind
    [__init__] only. *)
Definition Shape_methods : list string :=
  ["__init__"; "__repr__"; "__getattr__"; "apply_transform"; "clone"; "get_attrs";
   "_svg"; "as_svg"; "__add__"; "_repr_svg_"].

(** A name the normal lookup finds on an instance of [cls], so that
    [__getattr__] is not called for it. *)
Definition found_by_lookup `{ObjectRuntime} (cls name : string) : bool :=
  existsb (String.eqb name) (Shape_fields ++ constructor_fields cls)
  || existsb (String.eqb name) Shape_methods
  || object_attribute name.

(** What an attribute access answers. *)
Inductive found : Type :=
| Tag_field (tag : string)
| Children_field (children : option (list Shape))
| Attrs_field (attrs : dict)
| Transform_field (transform : option Transformation)
| Constructor_field (name : string)
| Bound_method (name : string)
| Inherited (name : string)
| Attribute (v : value).

(** [self.name] for an instance [self] of the class [cls]: the instance's
    [__dict__], the class and [object] are searched, and [__getattr__] is
    called only when none of them has the name.  No key of an instance's
    [__dict__] is also a name of the class, so the order among the three
    makes no difference.  A field a subclass constructor set answers the
    argument it was given, which the shape value does not hold. *)
Definition getattr `{ObjectRuntime} (cls : string) (self : Shape) (name : string)
    : result found :=
  if String.eqb name "tag" then OK (Tag_field (tag self))
  else if String.eqb name "children" then OK (Children_field (children self))
  else if String.eqb name "attrs" then OK (Attrs_field (attrs self))
  else if String.eqb name "transform" then OK (Transform_field (transform self))
  else if existsb (String.eqb name) (constructor_fields cls)
       then OK (Constructor_field name)
  else if existsb (String.eqb name) Shape_methods then OK (Bound_method name)
  else if object_attribute name then OK (Inherited name)
  else v <- __getattr__ self name ;; OK (Attribute v).

(** The names CPython 3.12 answers for an instance of a class defined with
    a [class] statement and no slots.  The closed examples use it. *)
Definition example_object_runtime : ObjectRuntime :=
  {| object_attribute := fun name =>
       existsb (String.eqb name)
         ["__class__"; "__delattr__"; "__dict__"; "__dir__"; "__doc__"; "__eq__";
          "__format__"; "__ge__"; "__getattribute__"; "__getstate__"; "__gt__";
          "__hash__"; "__init__"; "__init_subclass__"; "__le__"; "__lt__";
          "__module__"; "__ne__"; "__new__"; "__reduce__"; "__reduce_ex__";
          "__repr__"; "__setattr__"; "__sizeof__"; "__str__"; "__subclasshook__";
          "__weakref__"] |}.

Section Display.
Context `{FloatRuntime}.

(** [self._repr_svg_()] of a shape: the image at the default size. *)
Definition Shape_repr_svg (self : Shape) : result string := as_svg self 300 300.

(** The image [show], given its shapes, hands to the display: a border and the two
    axes in light grey, then the shapes. *)
Definition show (shapes : list Shape) : result string :=
  border <- Rectangle origin (Int 300) (Int 300) [("stroke", VStr "#ddd")] ;;
  x_axis <- Line (mkPoint (Int (-150)) (Int 0)) (mkPoint (Int 150) (Int 0))
              [("stroke", VStr "#ddd")] ;;
  y_axis <- Line (mkPoint (Int 0) (Int (-150))) (mkPoint (Int 0) (Int 150))
              [("stroke", VStr "#ddd")] ;;
  let markers := [border; x_axis; y_axis] in
  SVG_render (mkSVG (markers ++ shapes) 300 300).

End Display.

(** ** More notions the properties are stated with *)

(** A transformation with no [Repeat] and no [Cycle] in it. *)
Fixpoint serialisable (t : Transformation) : bool :=
  match t with
  | TransformationList transformations => forallb serialisable transformations
  | Repeat _ _ | Cycle _ _ _ _ => false
  | _ => true
  end.

(** A shape whose rendering meets no obstacle: no attribute named [tag] or
    [close], a transformation that is serialisable when there is one, and
    the same for every child that is rendered. *)
Fixpoint renderable (shape : Shape) : bool :=
  match shape with
  | mkShape _ children attrs transform =>
      match transform with Some t => serialisable t | None => true end
      && negb (dict_mem "tag" attrs || dict_mem "close" attrs)
      && match children with
         | Some cs => forallb renderable cs
         | None => true
         end
  end.

(** No key occurs twice. *)
Fixpoint distinct_keys (d : dict) : bool :=
  match d with
  | [] => true
  | (k, _) :: d' => negb (dict_mem k d') && distinct_keys d'
  end.

(** Keyword arguments that reach a shape's attributes: no name is given
    twice, which a call rejects, and none is named as a parameter of
    [Shape.__init__] ([self], [tag], [children], [transform]) or of the
    constructors [Circle], [Ellipse], [Rectangle] and [Line] ([center],
    [radius], [width], [height], [start], [end]), which would bind it or
    clash with the argument given for it. *)
Definition attribute_keywords (kwargs : dict) : bool :=
  distinct_keys kwargs
  && negb (existsb (fun name => dict_mem name kwargs)
             ["self"; "tag"; "children"; "transform";
              "center"; "radius"; "width"; "height"; "start"; "end"]).

(** The characters [html.escape] replaces, the ampersand apart. *)
Definition reserved (c : ascii) : bool :=
  Ascii.eqb c "<" || Ascii.eqb c ">" || Ascii.eqb c (ascii_of_nat 34) || Ascii.eqb c "'".

(** Every character of [s] passes [p]. *)
Fixpoint str_forall (p : ascii -> bool) (s : string) : bool :=
  match s with
  | EmptyString => true
  | String c s' => p c && str_forall p s'
  end.

(** A coordinate that compares equal to 0: the int 0 or a float zero of
    either sign. *)
Definition is_zero (n : number) : bool :=
  match n with
  | Int z => z =? 0
  | Float f => match Prim2SF f with S754_zero _ => true | _ => false end
  end.

Section Lines.
Context `{FloatRuntime}.

(** The lines of a shape's markup before the caller's indentation: the
    opening tag, the lines of each child two spaces further in, and the
    closing tag; one self-closing tag for a shape without children. *)
Fixpoint svg_lines (self : Shape) : result (list string) :=
  match self with
  | mkShape tag children _ _ =>
      attrs <- get_attrs self ;;
      match children with
      | Some ((_ :: _) as cs) =>
          tag_text <- call_render_tag tag attrs false ;;
          inner <- for_each svg_lines cs ;;
          OK ([tag_text] ++ map (fun line => "  " +:+ line) (concat inner)
                ++ ["</" +:+ tag +:+ ">"])
      | _ =>
          tag_text <- call_render_tag tag attrs true ;;
          OK [tag_text]
      end
  end.

(** [lines] written out, each after [indent] and before a line feed. *)
Definition write_lines (indent : string) (lines : list string) : string :=
  str_concat (map (fun line => indent +:+ line +:+ newline) lines).

End Lines.

(** * Properties *)

(** ** Strings and results *)

Lemma append_assoc (a b c : string) : (a +:+ b) +:+ c = a +:+ (b +:+ c).
Proof. induction a as [|x a IH]; simpl; [reflexivity | now rewrite IH]. Qed.

(** Case analysis on the first computation of a sequence. *)
Ltac case_bind :=
  match goal with
  | |- context [bind ?m _] => destruct m; cbn [bind]
  end.

(** Brings a concatenation to its right-nested form. *)
Ltac normalize_append :=
  repeat (progress (rewrite ?append_assoc; cbn [String.append])).

Lemma str_map_app (f : ascii -> string) (a b : string) :
  str_map f (a +:+ b) = str_map f a +:+ str_map f b.
Proof.
  induction a as [|c a IH]; simpl; [reflexivity |].
  now rewrite IH, append_assoc.
Qed.

Lemma html_escape_app (a b : string) :
  html_escape (a +:+ b) = html_escape a +:+ html_escape b.
Proof. apply str_map_app. Qed.

Lemma html_escape_digits (d : Decimal.uint) :
  html_escape (NilEmpty.string_of_uint d) = NilEmpty.string_of_uint d.
Proof.
  unfold html_escape.
  induction d as [|d IH|d IH|d IH|d IH|d IH|d IH|d IH|d IH|d IH|d IH];
    simpl; [reflexivity | now rewrite IH ..].
Qed.

Lemma html_escape_uint (d : Decimal.uint) :
  html_escape (NilZero.string_of_uint d) = NilZero.string_of_uint d.
Proof. destruct d; try reflexivity; apply html_escape_digits. Qed.

(** The decimal text of an int has nothing for [html.escape] to replace. *)
Lemma html_escape_str_int (z : Z) : html_escape (str_int z) = str_int z.
Proof.
  unfold str_int.
  destruct z as [|p|p]; [reflexivity | apply html_escape_uint |].
  cbn [Z.to_int NilZero.string_of_int].
  change (String "-" ?s) with ("-" +:+ s).
  now rewrite html_escape_app, html_escape_uint.
Qed.

(** The text of a negative int is a minus sign before the text of its
    absolute value. *)
Lemma str_int_opp (z : Z) : 0 < z -> str_int (- z) = "-" +:+ str_int z.
Proof. destruct z; [lia | reflexivity | lia]. Qed.

Lemma str_join_snoc (sep : string) (parts : list string) (p : string) :
  parts <> [] -> str_join sep (parts ++ [p]) = str_join sep parts +:+ sep +:+ p.
Proof.
  induction parts as [|a [|b rest] IH]; intros Hne; [congruence | reflexivity |].
  change (str_join sep ((a :: b :: rest) ++ [p]))
    with (a +:+ sep +:+ str_join sep ((b :: rest) ++ [p])).
  rewrite IH by discriminate.
  change (str_join sep (a :: b :: rest)) with (a +:+ sep +:+ str_join sep (b :: rest)).
  now rewrite !append_assoc.
Qed.

(** Joining with the last two parts already joined gives the same text. *)
Lemma str_join_merge_last (sep : string) (parts : list string) (a b : string) :
  str_join sep (parts ++ [a +:+ sep +:+ b]) = str_join sep (parts ++ [a; b]).
Proof.
  induction parts as [|x [|y rest] IH]; [reflexivity | reflexivity |].
  change (str_join sep ((x :: y :: rest) ++ [a +:+ sep +:+ b]))
    with (x +:+ sep +:+ str_join sep ((y :: rest) ++ [a +:+ sep +:+ b])).
  now rewrite IH.
Qed.

Lemma for_each_app {A B : Type} (f : A -> result B) (xs ys : list A) :
  for_each f (xs ++ ys) =
  (us <- for_each f xs ;; vs <- for_each f ys ;; OK (us ++ vs)).
Proof.
  induction xs as [|x xs IH]; simpl.
  - now destruct (for_each f ys).
  - destruct (f x); simpl; [| reflexivity].
    rewrite IH. destruct (for_each f xs); simpl; [| reflexivity].
    now destruct (for_each f ys).
Qed.

Lemma for_each_length {A B : Type} (f : A -> result B) (xs : list A) (ys : list B) :
  for_each f xs = OK ys -> length ys = length xs.
Proof.
  revert ys; induction xs as [|x xs IH]; simpl; intros ys Hys.
  - now inversion Hys.
  - destruct (f x); simpl in Hys; [| discriminate].
    destruct (for_each f xs) as [zs|]; simpl in Hys; [| discriminate].
    inversion Hys; subst; simpl. now rewrite (IH zs).
Qed.

Lemma for_each_ext {A B : Type} (f g : A -> result B) (xs : list A) :
  (forall x, f x = g x) -> for_each f xs = for_each g xs.
Proof. intros Hfg. induction xs as [|x xs IH]; simpl; [reflexivity | now rewrite Hfg, IH]. Qed.

(** ** Dicts *)

Lemma dict_get_skip (k k' : string) (a1 a2 : dict) :
  k <> k' -> dict_get k (a1 ++ (k', VNone) :: a2) = dict_get k (a1 ++ a2).
Proof.
  intros Hne. induction a1 as [|[k1 v1] a1 IH]; simpl.
  - now destruct (String.eqb_spec k k').
  - now rewrite IH.
Qed.

Lemma dict_mem_skip (k k' : string) (a1 a2 : dict) :
  k <> k' -> dict_mem k (a1 ++ (k', VNone) :: a2) = dict_mem k (a1 ++ a2).
Proof. intros Hne. unfold dict_mem. now rewrite dict_get_skip. Qed.

Section Properties.
Context `{FloatRuntime} `{ObjectRuntime}.

(** ** Construction *)

(** C10. [Shape(tag, children, transform=t, **attrs)] stores no
    transformation, whatever [t] is: the instance is the one built with
    [transform=None], and so are the instances the other constructors build
    through it.  The one operation whose result carries a transformation is
    [apply_transform]. *)
Theorem Shape_init_drops_transform
    (tag : string) (children : option (list Shape))
    (t : option Transformation) (attrs : dict) :
  transform (Shape_init tag children t attrs) = None
  /\ Shape_init tag children t attrs = Shape_init tag children None attrs
  /\ (forall shapes kwargs, transform (Group shapes kwargs) = None)
  /\ (forall shapes, transform (combine shapes) = None)
  /\ (forall self t',
        transform (apply_transform self t') =
        Some (match transform self with
              | Some t0 => join t0 t'
              | None => t'
              end)).
Proof. repeat split. Qed.

(** ** Serialising a rotation *)

(** C8. [Rotate(angle, anchor).as_str()] is the one-argument form
    [rotate(angle)] when [anchor == Point(0, 0)] and the three-argument form
    [rotate(angle x y)] otherwise; [Rotate(45)] gives [rotate(45)] and
    [Rotate(45, anchor=Point(10, 10))] gives [rotate(45 10 10)]. *)
Theorem Rotate_as_str (angle : number) (anchor : Point) :
  (Point_eq anchor origin = true ->
     as_str (Rotate_init angle (Some anchor)) =
     OK ("rotate(" +:+ str_number angle +:+ ")"))
  /\ (Point_eq anchor origin = false ->
        as_str (Rotate_init angle (Some anchor)) =
        OK ("rotate(" +:+ str_number angle +:+ " " +:+ str_number (Point_x anchor)
              +:+ " " +:+ str_number (Point_y anchor) +:+ ")"))
  /\ as_str (Rotate_init angle None) = OK ("rotate(" +:+ str_number angle +:+ ")")
  /\ as_str (Rotate_init (Int 45) None) = OK "rotate(45)"
  /\ as_str (Rotate_init (Int 45) (Some (mkPoint (Int 10) (Int 10)))) = OK "rotate(45 10 10)".
Proof.
  repeat split.
  - intros Heq. simpl. now rewrite Heq.
  - intros Hne. simpl. now rewrite Hne.
Qed.

(** ** Attribute lookup *)

(** C9, as the code has it.  An access [self.name] that the normal lookup
    answers never raises: the fields [tag], [children], [attrs] and
    [transform], the fields a subclass constructor set ([radius] of a
    circle), the methods ([clone], [_svg]) and what [object] provides.  Any
    other name goes to [__getattr__], which raises [AttributeError(name)]
    for a name that is not a key of [attrs], and also for every name that
    starts with an underscore, key or not.  For any other name it returns
    the value stored under the key, so a key bound to [None] answers [None],
    which is not an error.  The access raises in these cases only, and
    [AttributeError(name)] only. *)
Theorem getattr_outcomes (self : Shape) (name : string) :
  (dict_get name (attrs self) = None ->
     __getattr__ self name = Raise (AttributeError name))
  /\ (startswith name "_" = true ->
        __getattr__ self name = Raise (AttributeError name))
  /\ (forall v, startswith name "_" = false ->
        dict_get name (attrs self) = Some v ->
        __getattr__ self name = OK v)
  /\ (startswith name "_" = false ->
        dict_get name (attrs self) = Some VNone ->
        __getattr__ self name = OK VNone
        /\ __getattr__ self name <> Raise (AttributeError name))
  /\ (forall cls,
        (found_by_lookup cls name = true ->
           exists a, getattr cls self name = OK a
                     /\ forall v, a <> Attribute v)
        /\ (found_by_lookup cls name = false ->
              getattr cls self name = (v <- __getattr__ self name ;; OK (Attribute v)))
        /\ (found_by_lookup cls name = false ->
              startswith name "_" = true \/ dict_get name (attrs self) = None ->
              getattr cls self name = Raise (AttributeError name))
        /\ (forall v, found_by_lookup cls name = false ->
              startswith name "_" = false ->
              dict_get name (attrs self) = Some v ->
              getattr cls self name = OK (Attribute v))
        /\ (forall e, getattr cls self name = Raise e ->
              e = AttributeError name
              /\ found_by_lookup cls name = false
              /\ (startswith name "_" = true \/ dict_get name (attrs self) = None)))
  /\ (forall cls,
        getattr cls self "tag" = OK (Tag_field (tag self))
        /\ getattr cls self "attrs" = OK (Attrs_field (attrs self))
        /\ getattr cls self "clone" = OK (Bound_method "clone")
        /\ getattr cls self "_svg" = OK (Bound_method "_svg"))
  /\ getattr "Circle" self "radius" = OK (Constructor_field "radius").
Proof.
  assert (Hhook : (dict_get name (attrs self) = None ->
                     __getattr__ self name = Raise (AttributeError name))
                  /\ (startswith name "_" = true ->
                        __getattr__ self name = Raise (AttributeError name))
                  /\ (forall v, startswith name "_" = false ->
                        dict_get name (attrs self) = Some v ->
                        __getattr__ self name = OK v)).
  { unfold __getattr__. split; [| split].
    - intros ->. now destruct (negb _).
    - now intros ->.
    - now intros v -> ->. }
  destruct Hhook as (Hmissing & Hunderscore & Hkey).
  split; [exact Hmissing |]. split; [exact Hunderscore |]. split; [exact Hkey |].
  split.
  { intros Hname Hnone. rewrite (Hkey VNone Hname Hnone). split; [reflexivity | discriminate]. }
  assert (Hfound : forall cls,
            found_by_lookup cls name = true ->
            exists a, getattr cls self name = OK a /\ forall v, a <> Attribute v).
  { intros cls. unfold found_by_lookup, getattr, Shape_fields.
    cbn [app existsb].
    destruct (String.eqb name "tag"); [intros _; eexists; split; [reflexivity | discriminate] |].
    destruct (String.eqb name "children");
      [intros _; eexists; split; [reflexivity | discriminate] |].
    destruct (String.eqb name "attrs");
      [intros _; eexists; split; [reflexivity | discriminate] |].
    destruct (String.eqb name "transform");
      [intros _; eexists; split; [reflexivity | discriminate] |].
    cbn [orb].
    destruct (existsb (String.eqb name) (constructor_fields cls));
      [intros _; eexists; split; [reflexivity | discriminate] |].
    destruct (existsb (String.eqb name) Shape_methods);
      [intros _; eexists; split; [reflexivity | discriminate] |].
    destruct (object_attribute name);
      [intros _; eexists; split; [reflexivity | discriminate] | discriminate]. }
  assert (Hhooked : forall cls,
            found_by_lookup cls name = false ->
            getattr cls self name = (v <- __getattr__ self name ;; OK (Attribute v))).
  { intros cls. unfold found_by_lookup, getattr, Shape_fields.
    cbn [app existsb].
    destruct (String.eqb name "tag"); [discriminate |].
    destruct (String.eqb name "children"); [discriminate |].
    destruct (String.eqb name "attrs"); [discriminate |].
    destruct (String.eqb name "transform"); [discriminate |].
    cbn [orb].
    destruct (existsb (String.eqb name) (constructor_fields cls)); [discriminate |].
    destruct (existsb (String.eqb name) Shape_methods); [discriminate |].
    now destruct (object_attribute name). }
  split; [| split; [| reflexivity]].
  2: { intros cls. unfold getattr, constructor_fields.
       destruct (String.eqb cls "Circle"); [now repeat split |].
       destruct (String.eqb cls "Ellipse"); [now repeat split |].
       destruct (String.eqb cls "Rectangle"); [now repeat split |].
       now destruct (String.eqb cls "Line"). }
  intros cls. split; [exact (Hfound cls) |]. split; [exact (Hhooked cls) |].
  split; [| split].
  - intros Hnot [Hname | Hnone]; rewrite (Hhooked cls Hnot).
    + now rewrite (Hunderscore Hname).
    + now rewrite (Hmissing Hnone).
  - intros v Hnot Hname Hv. rewrite (Hhooked cls Hnot). now rewrite (Hkey v Hname Hv).
  - intros e Hraise.
    destruct (found_by_lookup cls name) eqn:Hlookup.
    + destruct (Hfound cls Hlookup) as (a & Ha & _). congruence.
    + rewrite (Hhooked cls Hlookup) in Hraise.
      destruct (startswith name "_") eqn:Hname.
      * rewrite (Hunderscore eq_refl) in Hraise. cbn [bind] in Hraise.
        injection Hraise as <-. split; [reflexivity |]. split; [reflexivity | now left].
      * destruct (dict_get name (attrs self)) as [v|] eqn:Hv.
        -- rewrite (Hkey v eq_refl eq_refl) in Hraise. discriminate.
        -- rewrite (Hmissing eq_refl) in Hraise. cbn [bind] in Hraise.
           injection Hraise as <-. split; [reflexivity |]. split; [reflexivity | now right].
Qed.

(** ** Rendering attributes *)

Lemma render_items_app (a1 a2 : dict) :
  render_items (a1 ++ a2) = render_items a1 ++ render_items a2.
Proof. unfold render_items. apply omap_app. Qed.

Lemma render_items_skip (k : string) (a1 a2 : dict) :
  render_items (a1 ++ (k, VNone) :: a2) = render_items (a1 ++ a2).
Proof. now rewrite !render_items_app. Qed.

(** C7, as the code has it.  An attribute bound to [None] adds nothing to
    the attribute text: the tag is written from the other attributes alone,
    so the attribute is never written with an empty value.  When other
    attributes remain, and the name is not [tag] or [close], the shape renders
    exactly as the shape built without the attribute. *)
Theorem None_attribute_not_rendered (k : string) (a1 a2 : dict) :
  render_items (a1 ++ (k, VNone) :: a2) = render_items (a1 ++ a2)
  /\ (forall tag close,
        render_tag tag close (a1 ++ (k, VNone) :: a2) =
        "<" +:+ tag +:+ " " +:+ render_attrs_text (a1 ++ a2)
            +:+ (if close then " />" else ">"))
  /\ (a1 ++ a2 <> [] -> k <> "tag" -> k <> "close" ->
        forall tag children t indent,
          _svg indent (Shape_init tag children t (a1 ++ (k, VNone) :: a2)) =
          _svg indent (Shape_init tag children t (a1 ++ a2))).
Proof.
  split; [apply render_items_skip |].
  assert (Htag : forall tag close,
             render_tag tag close (a1 ++ (k, VNone) :: a2) =
             "<" +:+ tag +:+ " " +:+ render_attrs_text (a1 ++ a2)
                 +:+ (if close then " />" else ">")).
  { intros tag close. unfold render_tag, render_attrs_text.
    rewrite render_items_skip. now destruct a1. }
  split; [exact Htag |].
  intros Hne Htg Hcl tag children t indent.
  assert (Hsame : forall close,
             call_render_tag tag (a1 ++ (k, VNone) :: a2) close =
             call_render_tag tag (a1 ++ a2) close).
  { intros close. unfold call_render_tag.
    rewrite !dict_mem_skip by congruence.
    rewrite Htag. unfold render_tag.
    now destruct (a1 ++ a2). }
  cbn [_svg Shape_init get_attrs transform attrs bind].
  now rewrite !Hsame.
Qed.

(** ** The root element *)

Lemma html_escape_viewBox (w h : Z) : html_escape (viewBox w h) = viewBox w h.
Proof.
  unfold viewBox.
  now rewrite !html_escape_app, !html_escape_str_int.
Qed.

Lemma str_neg_half_even (size : Z) :
  0 < size -> Z.even size = true -> str_neg_half size = "-" +:+ str_int (size / 2).
Proof.
  intros Hpos Heven. unfold str_neg_half. rewrite Heven.
  apply str_int_opp.
  apply Z.even_spec in Heven as [m ->].
  rewrite Z.mul_comm, Z.div_mul by lia. lia.
Qed.

(** C5, as the code has it.  The root element is written with [width],
    [height], a [viewBox] of a minus sign and [width // 2], a minus sign and
    [height // 2], [width] and [height], then [fill] as [none], [stroke] as
    [black] and the SVG namespace, in this order.  For a positive even
    [width] and [height] that view box is the rectangle centred at the
    origin, with [-width/2] and [-height/2] exact. *)
Theorem SVG_render_root (shapes : list Shape) (w h : Z) :
  SVG_render (mkSVG shapes w h) =
  (texts <- for_each (_svg "  ") shapes ;;
   OK ("<svg " +:+ render_attr "width" (str_int w)
         +:+ " " +:+ render_attr "height" (str_int h)
         +:+ " " +:+ render_attr "viewBox" (viewBox w h)
         +:+ " " +:+ render_attr "fill" "none"
         +:+ " " +:+ render_attr "stroke" "black"
         +:+ " " +:+ render_attr "xmlns" "http://www.w3.org/2000/svg"
         +:+ ">" +:+ newline +:+ str_concat texts +:+ "</svg>" +:+ newline))
  /\ viewBox w h =
     "-" +:+ str_int (w / 2) +:+ " -" +:+ str_int (h / 2)
         +:+ " " +:+ str_int w +:+ " " +:+ str_int h
  /\ (0 < w -> 0 < h -> Z.even w = true -> Z.even h = true ->
        viewBox w h = viewBox_centered w h).
Proof.
  split; [| split; [reflexivity |]].
  - unfold SVG_render. cbn [nodes width height].
    destruct (for_each (_svg "  ") shapes) as [texts|e]; [| reflexivity].
    cbn [bind]. f_equal.
    unfold render_tag, render_attrs_text, render_items.
    cbn [omap list_omap str_value str_number map str_join].
    rewrite !html_escape_str_int, html_escape_viewBox.
    cbn [dquote newline]. now normalize_append.
  - intros Hw Hh Hwe Hhe. unfold viewBox, viewBox_centered.
    rewrite !str_neg_half_even by assumption.
    now rewrite !append_assoc.
Qed.

(** ** Composing transformations *)

Lemma join_components (t u : Transformation) :
  join t u = TransformationList (components t ++ [u]).
Proof. now destruct t. Qed.

Lemma as_str_list (ts : list Transformation) :
  as_str (TransformationList ts) =
  (parts <- for_each as_str ts ;; OK (str_join " " parts)).
Proof. reflexivity. Qed.

Lemma for_each_one {A B : Type} (f : A -> result B) (x : A) :
  for_each f [x] = (y <- f x ;; OK [y]).
Proof. simpl. now destruct (f x). Qed.

Lemma as_str_join (t u : Transformation) :
  as_str (join t u) =
  (ps <- for_each as_str (components t) ;;
   x <- as_str u ;;
   OK (str_join " " (ps ++ [x]))).
Proof.
  rewrite join_components, as_str_list, for_each_app, for_each_one.
  destruct (for_each as_str (components t)) as [ps|]; [| reflexivity].
  cbn [bind]. now destruct (as_str u).
Qed.

(** The text of [t | u] is the text of [t], a space and the text of [u],
    unless [t] is a list with no component. *)
Lemma as_str_join_text (t u : Transformation) :
  is_empty_list t = false ->
  as_str (join t u) =
  (a <- as_str t ;; b <- as_str u ;; OK (a +:+ " " +:+ b)).
Proof.
  intros Hne. rewrite as_str_join.
  assert (Hparts : for_each as_str (components t) =
                   OK [] -> False).
  { destruct t as [| | |[|t' ts]| |]; cbn [components]; try discriminate;
      cbn [for_each]; repeat case_bind; discriminate. }
  assert (Hstr : as_str t =
                 (ps <- for_each as_str (components t) ;; OK (str_join " " ps))).
  { destruct t as [| | |ts| |]; cbn [components]; try reflexivity.
    - rewrite for_each_one. simpl. now destruct (Point_eq _ _). }
  rewrite Hstr.
  destruct (for_each as_str (components t)) as [ps|]; [| reflexivity].
  cbn [bind]. destruct (as_str u) as [b|]; [| reflexivity].
  cbn [bind]. f_equal. apply str_join_snoc. now intros ->.
Qed.

(** Appending a composition and appending its two parts in turn give the
    same text. *)
Lemma as_str_join_assoc (t0 t1 t2 : Transformation) :
  is_empty_list t1 = false ->
  as_str (join t0 (join t1 t2)) = as_str (join (join t0 t1) t2).
Proof.
  intros Hne.
  rewrite (as_str_join t0), as_str_join_text by assumption.
  rewrite (as_str_join (join t0 t1)), join_components. cbn [components].
  rewrite for_each_app, for_each_one.
  destruct (for_each as_str (components t0)) as [ps|]; [| reflexivity].
  cbn [bind]. destruct (as_str t1) as [a|]; [| reflexivity].
  cbn [bind]. destruct (as_str t2) as [b|]; [| reflexivity].
  cbn [bind]. f_equal.
  now rewrite str_join_merge_last, <- app_assoc.
Qed.

Lemma apply_directly (t : Transformation) (shape : Shape) :
  applies_directly t = true -> apply t shape = OK (apply_transform shape t).
Proof. now destruct t. Qed.

(** Two shapes that differ in their transformation only render alike when
    the two transformations have the same text. *)
Lemma _svg_same_text (tag : string) (children : option (list Shape)) (attrs : dict)
    (t u : Transformation) (indent : string) :
  as_str t = as_str u ->
  _svg indent (mkShape tag children attrs (Some t)) =
  _svg indent (mkShape tag children attrs (Some u)).
Proof.
  intros Heq. cbn [_svg get_attrs transform].
  now rewrite Heq.
Qed.

(** C1, as the code has it.  For transformations [t1] and [t2] that attach
    themselves with [apply_transform] (every class but [Repeat] and
    [Cycle]), [t1] not being a list with no component, [shape | (t1 | t2)]
    and [(shape | t1) | t2] have the same attributes, the same [transform]
    text among them, and render to the same text; on a shape that carries no
    transformation yet they are the same value.  With [Translate(10, 0)] and
    [Rotate(90)] this holds for every shape. *)
Theorem compose_then_apply (shape : Shape) (t1 t2 : Transformation) :
  applies_directly t1 = true ->
  applies_directly t2 = true ->
  is_empty_list t1 = false ->
  let composed := apply_transform shape (Transformation_or t1 t2) in
  let chained := apply_transform (apply_transform shape t1) t2 in
  apply (Transformation_or t1 t2) shape = OK composed
  /\ (shape1 <- apply t1 shape ;; apply t2 shape1) = OK chained
  /\ get_attrs composed = get_attrs chained
  /\ (forall indent, _svg indent composed = _svg indent chained)
  /\ (forall w h, as_svg composed w h = as_svg chained w h)
  /\ (transform shape = None -> composed = chained).
Proof.
  intros Ht1 Ht2 Hne composed chained.
  assert (Hstr : forall t u, as_str t = as_str u ->
            get_attrs (set_transform (clone shape) t) =
            get_attrs (set_transform (clone shape) u)).
  { intros t u Heq. cbn [get_attrs set_transform transform attrs]. now rewrite Heq. }
  assert (Htext : match transform composed, transform chained with
                  | Some t, Some u => as_str t = as_str u
                  | _, _ => False
                  end).
  { subst composed chained. unfold apply_transform, Transformation_or.
    cbn [transform set_transform clone].
    destruct (transform shape) as [t0|]; [| reflexivity].
    now apply as_str_join_assoc. }
  assert (Hsvg : forall indent, _svg indent composed = _svg indent chained).
  { intros indent. subst composed chained.
    unfold apply_transform in *. cbn [transform set_transform clone tag children attrs] in *.
    destruct (transform shape) as [t0|]; now apply _svg_same_text. }
  split; [| split; [| split; [| split; [| split]]]].
  - apply apply_directly. unfold Transformation_or. now rewrite join_components.
  - rewrite (apply_directly t1) by assumption. cbn [bind].
    now apply apply_directly.
  - subst composed chained. unfold apply_transform in *.
    cbn [transform set_transform clone tag children attrs] in *.
    destruct (transform shape) as [t0|]; now apply Hstr.
  - exact Hsvg.
  - intros w h. unfold as_svg, SVG_render. cbn [nodes for_each].
    now rewrite Hsvg.
  - intros Hnone. subst composed chained. unfold apply_transform.
    cbn [transform set_transform clone]. now rewrite Hnone.
Qed.

(** ** Repeat *)

Lemma for_each_map {A B C : Type} (f : B -> result C) (g : A -> B) (xs : list A) :
  for_each f (map g xs) = for_each (fun x => f (g x)) xs.
Proof. induction xs as [|x xs IH]; simpl; [reflexivity | now rewrite IH]. Qed.

Lemma for_each_lookup {A B : Type} (f : A -> result B) (xs : list A) (ys : list B)
    (k : nat) (y : B) :
  for_each f xs = OK ys -> ys !! k = Some y ->
  exists x, xs !! k = Some x /\ f x = OK y.
Proof.
  revert ys k; induction xs as [|x xs IH]; simpl; intros ys k Hys Hk.
  - inversion Hys; subst. discriminate.
  - destruct (f x) as [y'|] eqn:Hfx; cbn [bind] in Hys; [| discriminate].
    destruct (for_each f xs) as [ys'|]; cbn [bind] in Hys; [| discriminate].
    inversion Hys; subst. destruct k as [|k]; simpl in Hk.
    + inversion Hk; subst. now exists x.
    + destruct (IH ys' k eq_refl Hk) as (x' & Hx' & Hfx'). now exists x'.
Qed.

(** The loop of [Repeat.apply] appends the first, second, ... iterate of its
    function. *)
Lemma repeat_loop_iterates (t : Transformation) (k : nat) (shape : Shape)
    (shapes : list Shape) :
  repeat_loop (apply t) k shape shapes =
  (more <- for_each (fun j => iterate_apply t (S j) shape) (seq 0 k) ;;
   OK (shapes ++ more)).
Proof.
  revert shape shapes; induction k as [|k IH]; intros shape shapes.
  - simpl. now rewrite app_nil_r.
  - cbn [repeat_loop seq for_each iterate_apply].
    destruct (apply t shape) as [shape'|e] eqn:Happ; cbn [bind]; [| reflexivity].
    fold (repeat_loop (apply t)). rewrite IH.
    rewrite <- seq_shift, for_each_map.
    destruct (for_each _ (seq 0 k)) as [more|]; cbn [bind]; [| reflexivity].
    now rewrite <- app_assoc.
Qed.

Lemma iterate_apply_directly (t : Transformation) (k : nat) (shape : Shape) :
  applies_directly t = true -> exists shape', iterate_apply t k shape = OK shape'.
Proof.
  intros Ht. revert shape; induction k as [|k IH]; intros shape; simpl.
  - now exists shape.
  - rewrite apply_directly by assumption. apply IH.
Qed.

Lemma for_each_total {A B : Type} (f : A -> result B) (xs : list A) :
  (forall x, exists y, f x = OK y) -> exists ys, for_each f xs = OK ys.
Proof.
  intros Hf. induction xs as [|x xs [ys IH]]; simpl.
  - now exists [].
  - destruct (Hf x) as [y ->]. rewrite IH. now exists (y :: ys).
Qed.

(** C4.  For [n >= 1], [shape | Repeat(n, t)] is one group, a shape with the
    tag [g], no attribute and no transformation, whose children are [t]
    applied 0, 1, ..., [n - 1] times to [shape], in this order: [n]
    members, the first being [shape] itself, and the call fails only where
    one of these applications fails, which none does for a [t] that
    attaches itself.  [shape | Repeat(3, Translate(10, 0))] has the three
    children [shape], [shape | Translate(10, 0)] and [shape |
    Translate(10, 0) | Translate(10, 0)], displaced by 0, 10 and 20 along x
    from where [shape] is. *)
Theorem Repeat_apply_members (n : Z) (t : Transformation) (shape : Shape) :
  1 <= n ->
  apply (Repeat n t) shape =
  (shapes <- for_each (fun k => iterate_apply t k shape) (seq 0 (Z.to_nat n)) ;;
   OK (mkShape "g" (Some shapes) [] None))
  /\ (forall group,
        apply (Repeat n t) shape = OK group ->
        exists shapes,
          group = mkShape "g" (Some shapes) [] None
          /\ children group = Some shapes
          /\ Z.of_nat (length shapes) = n
          /\ shapes !! 0%nat = Some shape
          /\ forall k member, shapes !! k = Some member ->
               iterate_apply t k shape = OK member)
  /\ (applies_directly t = true ->
        exists group shapes,
          apply (Repeat n t) shape = OK group
          /\ children group = Some shapes
          /\ Z.of_nat (length shapes) = n)
  /\ (let move := Translate (Int 10) (Int 0) in
      let moved t' :=
        mkShape (tag shape) (children shape) (attrs shape)
          (Some (match transform shape with
                 | Some t0 => Transformation_or t0 t'
                 | None => t'
                 end)) in
      let members := [shape; moved move; apply_transform (moved move) move] in
      apply (Repeat 3 move) shape = OK (mkShape "g" (Some members) [] None)
      /\ (forall group, apply (Repeat 3 move) shape = OK group ->
            children group = Some members)
      /\ (transform shape = None ->
            members = [shape; moved move; moved (TransformationList [move; move])])
      /\ forall x y, shape_translation shape = Some (x, y) ->
           map shape_translation members =
           [Some (x, y); Some (x + 10, y); Some (x + 20, y)]).
Proof.
  intros Hn.
  assert (Heq : apply (Repeat n t) shape =
                (shapes <- for_each (fun k => iterate_apply t k shape)
                             (seq 0 (Z.to_nat n)) ;;
                 OK (mkShape "g" (Some shapes) [] None))).
  { cbn [apply]. rewrite repeat_loop_iterates.
    replace (Z.to_nat n) with (S (Z.to_nat (n - 1))) by lia.
    cbn [seq for_each iterate_apply bind].
    rewrite <- seq_shift, for_each_map.
    now destruct (for_each _ (seq 0 (Z.to_nat (n - 1)))). }
  split; [exact Heq |]. split; [| split].
  - intros group Hgroup. rewrite Heq in Hgroup.
    destruct (for_each _ (seq 0 (Z.to_nat n))) as [shapes|] eqn:Hshapes;
      cbn [bind] in Hgroup; [| discriminate].
    inversion Hgroup; subst group. exists shapes.
    pose proof (for_each_length _ _ _ Hshapes) as Hlen. rewrite length_seq in Hlen.
    split; [reflexivity |]. split; [reflexivity |]. split; [lia |].
    assert (Hmember : forall k member, shapes !! k = Some member ->
                        iterate_apply t k shape = OK member).
    { intros k member Hk.
      destruct (for_each_lookup _ _ _ _ _ Hshapes Hk) as (j & Hj & Hit).
      apply lookup_seq in Hj as [-> _]. exact Hit. }
    split; [| exact Hmember].
    destruct shapes as [|first rest]; [simpl in Hlen; lia |].
    specialize (Hmember 0%nat first eq_refl). simpl in Hmember.
    now inversion Hmember.
  - intros Ht. rewrite Heq.
    destruct (for_each_total (fun k => iterate_apply t k shape) (seq 0 (Z.to_nat n)))
      as [shapes Hshapes].
    { intros k. now apply iterate_apply_directly. }
    rewrite Hshapes. exists (mkShape "g" (Some shapes) [] None), shapes.
    split; [reflexivity |]. split; [reflexivity |].
    apply for_each_length in Hshapes. rewrite length_seq in Hshapes. lia.
  - intros move moved members.
    assert (Hrun : apply (Repeat 3 move) shape = OK (mkShape "g" (Some members) [] None))
      by reflexivity.
    split; [exact Hrun |].
    split; [intros group Hgroup; rewrite Hrun in Hgroup; now inversion Hgroup |].
    split.
    { intros Hnone. subst members moved. cbn beta. unfold apply_transform.
      cbn [transform clone set_transform tag children attrs]. now rewrite Hnone. }
    subst members moved. cbn beta.
    intros x y Hxy. unfold shape_translation, apply_transform in *.
    cbn [map transform set_transform clone Transformation_or].
    destruct (transform shape) as [t0|].
    + rewrite Hxy. rewrite !join_components. cbn [components].
      rewrite <- app_assoc. cbn [app].
      assert (Hfold : forall ts more,
                 net_translation (TransformationList (ts ++ more)) =
                 match net_translation (TransformationList ts),
                       net_translation (TransformationList more) with
                 | Some (a, b), Some (a', b') => Some (a + a', b + b')
                 | _, _ => None
                 end).
      { intros ts more. cbn [net_translation]. induction ts as [|u ts IH]; cbn [app foldr].
        - destruct (foldr _ _ more) as [[a' b']|]; [| reflexivity].
          now rewrite !Z.add_0_l.
        - rewrite IH. destruct (net_translation u) as [[a b]|]; [| reflexivity].
          destruct (foldr _ _ ts) as [[a1 b1]|]; [| reflexivity].
          destruct (foldr _ _ more) as [[a2 b2]|]; [| reflexivity].
          now rewrite !Z.add_assoc. }
      assert (Hcomp : net_translation (TransformationList (components t0)) = Some (x, y)).
      { destruct t0 as [[?|?] [?|?]| | |ts| |]; cbn [components]; try discriminate;
          try exact Hxy.
        cbn in Hxy |- *. inversion Hxy; subst. now rewrite !Z.add_0_r. }
      rewrite !Hfold, Hcomp. cbn.
      repeat f_equal; lia.
    + inversion Hxy; subst. reflexivity.
Qed.

(** ** Cycle *)

(** C3.  [Cycle(n=4)] has the angle [360/4 = 90.0], and [shape | Cycle(n=4)]
    is a group, a shape with the tag [g], whose children are exactly four
    shapes: the [k]-th has the tag, children and attributes of [shape] and
    carries the rotation by [k * 90.0] with the origin as anchor, after the
    transformation of [shape] when it has one, for [k] from 0 to 3.  The
    first is rotated by [0.0], which compares equal to 0.  Each rotation is
    written in the one-argument form, and for a [shape] without a
    transformation the [k]-th child is rendered with that text as its
    [transform] attribute. *)
Theorem Cycle_four_members (shape : Shape) :
  let rotated a :=
    mkShape (tag shape) (children shape) (attrs shape)
      (Some (match transform shape with
             | Some t0 => Transformation_or t0 (Rotate (Float a) origin)
             | None => Rotate (Float a) origin
             end)) in
  let members := [rotated 0%float; rotated 90%float;
                  rotated 180%float; rotated 270%float] in
  Cycle_init 4 origin None None = OK (Cycle 4 (Float 90) origin None)
  /\ apply (Cycle 4 (Float 90) origin None) shape = OK (mkShape "g" (Some members) [] None)
  /\ (forall group,
        apply (Cycle 4 (Float 90) origin None) shape = OK group ->
        tag group = "g" /\ children group = Some members)
  /\ length members = 4%nat
  /\ (forall k, (k < 4)%nat ->
        exists a,
          float_of_int (Z.of_nat k * 90) = OK a
          /\ members !! k = Some (rotated a)
          /\ as_str (Rotate (Float a) origin) = OK ("rotate(" +:+ float_repr a +:+ ")")
          /\ (transform shape = None ->
                transform (rotated a) = Some (Rotate (Float a) origin)
                /\ get_attrs (rotated a) =
                   OK (dict_set "transform" (VStr ("rotate(" +:+ float_repr a +:+ ")"))
                         (attrs shape))))
  /\ num_eq (Float 0) (Int 0) = true.
Proof.
  intros rotated members.
  assert (Hrun : apply (Cycle 4 (Float 90) origin None) shape
                 = OK (mkShape "g" (Some members) [] None)) by reflexivity.
  split; [reflexivity |]. split; [exact Hrun |].
  split; [intros group Hgroup; rewrite Hrun in Hgroup; now inversion Hgroup |].
  split; [reflexivity |]. split; [| reflexivity].
  intros k Hk.
  assert (Hattrs : forall a,
            as_str (Rotate (Float a) origin) = OK ("rotate(" +:+ float_repr a +:+ ")") ->
            transform shape = None ->
            transform (rotated a) = Some (Rotate (Float a) origin)
            /\ get_attrs (rotated a) =
               OK (dict_set "transform" (VStr ("rotate(" +:+ float_repr a +:+ ")"))
                     (attrs shape))).
  { intros a Htext Hnone. subst rotated. cbn beta. unfold get_attrs.
    cbn [transform attrs]. rewrite Hnone. split; [reflexivity |]. now rewrite Htext. }
  destruct k as [|[|[|[|k]]]]; [| | | | lia]; eexists;
    (split; [vm_compute; reflexivity |]);
    (split; [reflexivity |]);
    (split; [reflexivity | apply Hattrs; reflexivity]).
Qed.

(** C6, as the code has it.  [shape | Repeat(0, t)] is a group with the one
    member [shape].  [Cycle(n=0)] with no angle does not build a
    transformation: its constructor raises [ZeroDivisionError] on [360/n].
    [Cycle(n=0, angle=a)] is built, and applying it gives a group with no
    member. *)
Theorem Repeat_Cycle_zero (t : Transformation) (shape : Shape) (anchor : Point)
    (s : option number) :
  apply (Repeat 0 t) shape = OK (Group [shape] [])
  /\ Cycle_init 0 anchor s None = Raise ZeroDivisionError
  /\ (forall angle,
        Cycle_init 0 anchor s (Some angle) = OK (Cycle 0 angle anchor s)
        /\ apply (Cycle 0 angle anchor s) shape = OK (Group [] [])).
Proof.
  repeat split. now destruct s.
Qed.

End Properties.

(** * The object store *)

Section HeapProperties.
Context `{FloatRuntime}.

Lemma for_each_ext_Forall {A B : Type} (P : A -> Prop) (f g : A -> result B) (xs : list A) :
  (forall x, P x -> f x = g x) -> Forall P xs -> for_each f xs = for_each g xs.
Proof.
  intros Hfg Hxs. induction Hxs as [|x xs Hx _ IH]; simpl; [reflexivity |].
  now rewrite Hfg, IH.
Qed.

Lemma closed_refs (h : Heap.heap) (r : Heap.ref) (o : Heap.object) :
  Heap.closed h -> h !! r = Some o ->
  Forall (fun r' => (r' < length h)%nat) (Heap.refs_of o).
Proof. intros Hc. apply Hc. Qed.

(** Rendering reads the objects reachable from the reference it is given:
    in a store with no dangling reference, objects added later do not change
    the text. *)
Lemma _svg_frame (h h' : Heap.heap) (depth : nat) (indent : string) (r : Heap.ref) :
  Heap.closed h -> h `prefix_of` h' -> (r < length h)%nat ->
  Heap._svg depth h' indent r = Heap._svg depth h indent r.
Proof.
  intros Hc Hpre. revert indent r.
  assert (Hlook : forall r, (r < length h)%nat -> h' !! r = h !! r).
  { intros r Hr. destruct (lookup_lt_is_Some_2 h r Hr) as [o Ho].
    rewrite Ho. eapply prefix_lookup_Some; eassumption. }
  induction depth as [|depth IH]; intros indent r Hr; [reflexivity |].
  cbn [Heap._svg]. unfold Heap.get_attrs, Heap.instance_at.
  rewrite (Hlook r Hr).
  destruct (h !! r) as [[i| |]|] eqn:Hi; try reflexivity.
  cbn [bind].
  pose proof (closed_refs _ _ _ Hc Hi) as Hrefs. cbn [Heap.refs_of] in Hrefs.
  apply Forall_cons in Hrefs as [Hattrs Hchildren].
  unfold Heap.dict_at. rewrite (Hlook _ Hattrs).
  destruct (h !! Heap.attrs i) as [[|d|]|]; try reflexivity.
  cbn [bind].
  destruct (match Heap.transform i with
            | Some t => bind (as_str t) (fun text => OK (dict_set "transform" (VStr text) d))
            | None => OK d
            end) as [attrs|]; [| reflexivity].
  cbn [bind].
  destruct (Heap.children i) as [l|]; [| reflexivity].
  apply Forall_cons in Hchildren as [Hl _].
  unfold Heap.list_at. rewrite (Hlook _ Hl).
  destruct (h !! l) as [[| |items]|] eqn:Hitems; try reflexivity.
  cbn [bind].
  pose proof (closed_refs _ _ _ Hc Hitems) as Hin. cbn [Heap.refs_of] in Hin.
  destruct items as [|c cs]; [reflexivity |].
  destruct (call_render_tag (Heap.tag i) attrs false); [| reflexivity].
  cbn [bind].
  rewrite (for_each_ext_Forall (fun r' => (r' < length h)%nat)
             (Heap._svg depth h' (indent +:+ "  "))
             (Heap._svg depth h (indent +:+ "  ")) (c :: cs)); [reflexivity | | exact Hin].
  intros c' Hc'. now apply IH.
Qed.

Lemma closed_snoc (h : Heap.heap) (o : Heap.object) :
  Heap.closed h -> Forall (fun r => (r < S (length h))%nat) (Heap.refs_of o) ->
  Heap.closed (h ++ [o]).
Proof.
  intros Hc Ho r o' Hlook. rewrite length_app. cbn [length].
  apply lookup_app_Some in Hlook as [Hlook | [_ Hlook]].
  - eapply Forall_impl; [exact (Hc _ _ Hlook) |]. cbn. lia.
  - destruct (r - length h)%nat; [| discriminate].
    inversion Hlook; subst o'.
    eapply Forall_impl; [exact Ho |]. cbn. lia.
Qed.

Lemma closed_insert (h : Heap.heap) (l : Heap.ref) (o : Heap.object) :
  Heap.closed h -> Forall (fun r => (r < length h)%nat) (Heap.refs_of o) ->
  Heap.closed (<[l := o]> h).
Proof.
  intros Hc Ho r o' Hlook. rewrite length_insert.
  destruct (decide (l = r)) as [-> | Hne].
  - apply list_lookup_insert_Some in Hlook as [(_ & <- & _) | (Hne & _)]; [exact Ho | congruence].
  - rewrite list_lookup_insert_ne in Hlook by exact Hne. exact (Hc _ _ Hlook).
Qed.

Lemma prefix_insert_above (h0 h : Heap.heap) (l : Heap.ref) (o : Heap.object) :
  h0 `prefix_of` h -> (length h0 <= l)%nat -> h0 `prefix_of` <[l := o]> h.
Proof.
  intros [k ->] Hl. rewrite insert_app_r_alt by exact Hl. now apply prefix_app_r.
Qed.

Lemma is_instance_prefix (h h' : Heap.heap) (r : Heap.ref) :
  Heap.is_instance h r -> h `prefix_of` h' -> Heap.is_instance h' r.
Proof. intros [i Hi] Hpre. exists i. eapply prefix_lookup_Some; eassumption. Qed.

Lemma is_instance_lt (h : Heap.heap) (r : Heap.ref) :
  Heap.is_instance h r -> (r < length h)%nat.
Proof. intros [i Hi]. eapply lookup_lt_Some; eassumption. Qed.

(** Writing a list over a list leaves every instance where it is. *)
Lemma is_instance_insert_list (h : Heap.heap) (l r : Heap.ref) (items items' : list Heap.ref) :
  h !! l = Some (Heap.List items) -> Heap.is_instance h r ->
  Heap.is_instance (<[l := Heap.List items']> h) r.
Proof.
  intros Hl [i Hi]. exists i. rewrite list_lookup_insert_ne; [exact Hi |].
  intros ->. congruence.
Qed.

(** ** What the calls do to the store *)

Lemma apply_transform_run (h : Heap.heap) (self : Heap.ref) (i : Heap.instance)
    (t : Transformation) :
  h !! self = Some (Heap.Instance i) ->
  Heap.apply_transform self t h =
  OK (length h,
      h ++ [Heap.Instance
              (Heap.mkInstance (Heap.cls i) (Heap.tag i) (Heap.children i) (Heap.attrs i)
                 (Some (match Heap.transform i with
                        | Some t0 => Transformation_or t0 t
                        | None => t
                        end)))]).
Proof.
  intros Hself.
  unfold Heap.apply_transform, Heap.clone, Heap.set_transform, Heap.sbind, Heap.read,
    Heap.new, Heap.ret, Heap.instance_at.
  rewrite Hself. cbn. rewrite Hself. cbn.
  rewrite list_lookup_middle by reflexivity. cbn.
  rewrite (insert_app_r_alt h _ (length h)) by lia.
  now rewrite Nat.sub_diag.
Qed.

Lemma apply_transform_fresh (h : Heap.heap) (self : Heap.ref) (t : Transformation) :
  Heap.closed h -> Heap.is_instance h self ->
  exists o, Heap.apply_transform self t h = OK (length h, h ++ [o])
            /\ Heap.fresh_instance h (length h) (h ++ [o]).
Proof.
  intros Hc [i Hi]. rewrite (apply_transform_run _ _ _ t Hi).
  eexists. split; [reflexivity |].
  split; [now apply prefix_app_r |]. split; [| split; [lia |]].
  - apply closed_snoc; [exact Hc |].
    eapply Forall_impl; [exact (Hc _ _ Hi) |]. cbn. lia.
  - eexists. now apply list_lookup_middle.
Qed.

Lemma Group_run (h : Heap.heap) (shapes : Heap.ref) (kwargs : dict) :
  Heap.Group shapes kwargs h =
  OK (S (length h),
      h ++ [Heap.Dict kwargs;
            Heap.Instance (Heap.mkInstance "Group" "g" (Some shapes) (length h) None)]).
Proof.
  unfold Heap.Group, Heap.Shape_init, Heap.sbind, Heap.new. cbn.
  rewrite length_app. cbn. rewrite Nat.add_1_r.
  now rewrite <- app_assoc.
Qed.

Lemma Group_fresh (h0 h : Heap.heap) (shapes : Heap.ref) :
  Heap.building h0 shapes h ->
  Heap.returns (Heap.Group shapes [] h) (Heap.fresh_instance h0).
Proof.
  intros (Hpre & Hc & Hshapes & items & Hitems & _).
  rewrite Group_run. cbn [Heap.returns].
  split; [now apply prefix_app_r |]. split; [| split].
  - change [Heap.Dict []; ?g] with ([Heap.Dict []] ++ [g]). rewrite app_assoc.
    apply closed_snoc; [apply closed_snoc; [exact Hc | constructor] |].
    rewrite length_app. cbn.
    apply lookup_lt_Some in Hitems.
    repeat constructor; lia.
  - apply prefix_length in Hpre. lia.
  - eexists. rewrite (lookup_app_r h) by lia.
    now replace (S (length h) - length h)%nat with 1%nat by lia.
Qed.

Lemma returns_sbind {A B : Type} (m : Heap.M A) (k : A -> Heap.M B) (h : Heap.heap)
    (Q : A -> Heap.heap -> Prop) (R : B -> Heap.heap -> Prop) :
  Heap.returns (m h) Q ->
  (forall a h', Q a h' -> Heap.returns (k a h') R) ->
  Heap.returns (Heap.sbind m k h) R.
Proof.
  unfold Heap.sbind, Heap.returns. destruct (m h) as [[a h']|e]; [| easy].
  intros HQ Hk. now apply Hk.
Qed.

Lemma float_of_int_error (z : Z) (e : exn) :
  float_of_int z = Raise e -> e = OverflowError.
Proof.
  unfold float_of_int. destruct (binary_normalize _ _ _ _ _); congruence.
Qed.

Lemma returns_num_mul (a b : number) (h : Heap.heap) :
  Heap.returns (Heap.lift (num_mul a b) h) (fun _ h' => h' = h).
Proof.
  unfold Heap.lift. destruct (num_mul a b) as [c|e] eqn:Hmul; [reflexivity |].
  left. destruct a as [x|f], b as [y|g]; cbn in Hmul; try discriminate;
    destruct (float_of_int _) eqn:Hconv; cbn in Hmul; try discriminate;
    inversion Hmul; subst; eapply float_of_int_error; eassumption.
Qed.

Lemma returns_num_pow (s : number) (i : Z) (h : Heap.heap) :
  Heap.returns (Heap.lift (num_pow s i) h) (fun _ h' => h' = h).
Proof.
  unfold Heap.lift. destruct (num_pow s i) as [c|e] eqn:Hpow; [reflexivity |].
  destruct s as [x|f]; cbn in Hpow; [discriminate |].
  destruct (float_of_int i) as [y|] eqn:Hconv; cbn in Hpow.
  - destruct (float_pow f y) eqn:Hfp; cbn in Hpow; [discriminate |].
    inversion Hpow; subst. right. now exists f, y.
  - inversion Hpow; subst. left. eapply float_of_int_error; eassumption.
Qed.

(** Appending a new instance to the list under construction. *)
Lemma list_append_step (h0 h h1 : Heap.heap) (shapes r : Heap.ref) :
  Heap.building h0 shapes h -> Heap.fresh_instance h r h1 ->
  exists h2,
    Heap.list_append shapes r h1 = OK (tt, h2)
    /\ Heap.building h0 shapes h2
    /\ Heap.is_instance h2 r
    /\ (forall x, Heap.is_instance h x -> Heap.is_instance h2 x).
Proof.
  intros (Hpre & Hc & Hshapes & items & Hitems & Hinst) (Hpre1 & Hc1 & Hr & Hr1).
  pose proof (prefix_lookup_Some _ _ _ _ Hitems Hpre1) as Hitems1.
  eexists. unfold Heap.list_append. rewrite Hitems1. split; [reflexivity |].
  assert (Hkeep : forall x, Heap.is_instance h1 x ->
            Heap.is_instance (<[shapes := Heap.List (items ++ [r])]> h1) x).
  { intros x Hx. eapply is_instance_insert_list; eassumption. }
  split; [| split].
  - split; [| split; [| split]].
    + apply prefix_insert_above; [now transitivity h | exact Hshapes].
    + apply closed_insert; [exact Hc1 |]. cbn [Heap.refs_of].
      apply Forall_app. split.
      * exact (Hc1 _ _ Hitems1).
      * constructor; [now apply is_instance_lt | constructor].
    + exact Hshapes.
    + exists (items ++ [r]). split.
      * apply list_lookup_insert_eq. eapply lookup_lt_Some; eassumption.
      * apply Forall_app. split.
        -- eapply Forall_impl; [exact Hinst |]. intros x Hx.
           apply Hkeep. now apply (is_instance_prefix h).
        -- constructor; [now apply Hkeep | constructor].
  - now apply Hkeep.
  - intros x Hx. apply Hkeep. now apply (is_instance_prefix h).
Qed.

Lemma for_inv {A : Type} (I : Heap.heap -> Prop) (xs : list A) (body : A -> Heap.M unit) :
  (forall x h, x ∈ xs -> I h -> Heap.returns (body x h) (fun _ h' => I h')) ->
  forall h, I h -> Heap.returns (Heap.for_ xs body h) (fun _ h' => I h').
Proof.
  induction xs as [|x xs IH]; intros Hbody h Hh; [exact Hh |].
  cbn [Heap.for_]. eapply returns_sbind.
  - apply Hbody; [left | exact Hh].
  - intros [] h' Hh'. apply IH; [| exact Hh'].
    intros y h'' Hy. apply Hbody. now right.
Qed.

Lemma repeat_loop_building (f : Heap.ref -> Heap.M Heap.ref) (h0 : Heap.heap)
    (shapes : Heap.ref) :
  (forall h shape, Heap.closed h -> Heap.is_instance h shape ->
     Heap.returns (f shape h) (Heap.fresh_instance h)) ->
  forall k h shape,
    Heap.building h0 shapes h -> Heap.is_instance h shape ->
    Heap.returns (Heap.repeat_loop f shapes k shape h)
      (fun _ h' => Heap.building h0 shapes h').
Proof.
  intros Hf. induction k as [|k IH]; intros h shape Hb Hshape; [exact Hb |].
  cbn [Heap.repeat_loop]. eapply returns_sbind.
  - apply Hf; [apply Hb | exact Hshape].
  - intros r h1 Hfresh.
    destruct (list_append_step _ _ _ _ _ Hb Hfresh) as (h2 & Happ & Hb2 & Hr2 & _).
    unfold Heap.sbind. rewrite Happ. now apply IH.
Qed.

Lemma closed_nil : Heap.closed [].
Proof. intros r o Hr. discriminate. Qed.

(** The constructor adds a dict and an instance, and leaves no reference
    dangling when its [children] is a reference of the store. *)
Lemma Shape_init_fresh (h : Heap.heap) (cls tag : string) (children : option Heap.ref)
    (t : option Transformation) (attrs : dict) :
  Heap.closed h ->
  (forall l, children = Some l -> (l < length h)%nat) ->
  Heap.Shape_init cls tag children t attrs h =
  OK (S (length h),
      h ++ [Heap.Dict attrs;
            Heap.Instance (Heap.mkInstance cls tag children (length h) None)])
  /\ Heap.fresh_instance h (S (length h))
       (h ++ [Heap.Dict attrs;
              Heap.Instance (Heap.mkInstance cls tag children (length h) None)]).
Proof.
  intros Hc Hchildren. split.
  - unfold Heap.Shape_init, Heap.sbind, Heap.new. cbn.
    rewrite length_app. cbn. rewrite Nat.add_1_r. now rewrite <- app_assoc.
  - split; [now apply prefix_app_r |]. split; [| split; [lia |]].
    + change [Heap.Dict attrs; ?g] with ([Heap.Dict attrs] ++ [g]). rewrite app_assoc.
      apply closed_snoc; [apply closed_snoc; [exact Hc | constructor] |].
      rewrite length_app. cbn [length Heap.refs_of Heap.attrs Heap.children].
      constructor; [lia |].
      destruct children as [l|]; [| constructor].
      specialize (Hchildren l eq_refl). repeat constructor. lia.
    + eexists. rewrite (lookup_app_r h) by lia.
      now replace (S (length h) - length h)%nat with 1%nat by lia.
Qed.

(** Every [apply] returns a new instance in a store that extends the one it
    started from, or raises an exception of the arithmetic. *)
Lemma apply_fresh (t : Transformation) :
  forall h shape,
    Heap.closed h -> Heap.is_instance h shape ->
    Heap.returns (Heap.apply t shape h) (Heap.fresh_instance h).
Proof.
  assert (Hdirect : forall t h shape,
            Heap.closed h -> Heap.is_instance h shape ->
            Heap.returns (Heap.apply_transform shape t h) (Heap.fresh_instance h)).
  { intros t' h shape Hc Hshape.
    destruct (apply_transform_fresh h shape t' Hc Hshape) as (o & -> & Hfresh).
    exact Hfresh. }
  assert (Hstart : forall h (items : list Heap.ref),
            Heap.closed h -> Forall (Heap.is_instance h) items ->
            Heap.building h (length h) (h ++ [Heap.List items])).
  { intros h items Hc Hitems. split; [now apply prefix_app_r |].
    split; [| split; [lia |]].
    - apply closed_snoc; [exact Hc |]. cbn [Heap.refs_of].
      eapply Forall_impl; [exact Hitems |]. intros x Hx.
      apply is_instance_lt in Hx. cbn. lia.
    - exists items. split; [now apply list_lookup_middle |].
      eapply Forall_impl; [exact Hitems |]. intros x Hx.
      eapply is_instance_prefix; [exact Hx | now apply prefix_app_r]. }
  induction t as [x y|angle anchor|sx sy|ts|n t IH|n angle anchor s];
    intros h shape Hc Hshape; try (cbn [Heap.apply]; now apply Hdirect).
  - (* Repeat *)
    cbn [Heap.apply]. unfold Heap.sbind at 1, Heap.new.
    pose proof (Hstart h [shape] Hc ltac:(now constructor)) as Hb.
    eapply returns_sbind.
    + apply repeat_loop_building; [exact IH | exact Hb |].
      eapply is_instance_prefix; [exact Hshape | now apply prefix_app_r].
    + intros [] h' Hb'. now apply Group_fresh.
  - (* Cycle *)
    cbn [Heap.apply]. unfold Heap.sbind at 1, Heap.new.
    pose proof (Hstart h [] Hc ltac:(constructor)) as Hb.
    eapply returns_sbind.
    { apply (for_inv (fun h' => Heap.building h (length h) h' /\ Heap.is_instance h' shape)).
      - intros i h1 _ [Hb1 Hshape1].
        eapply returns_sbind; [apply returns_num_mul |].
        intros a ? ->. cbn beta.
        destruct (apply_transform_fresh h1 shape (Rotate_init a (Some anchor))
                    ltac:(apply Hb1) Hshape1) as (o & Hrun & Hfresh).
        unfold Heap.sbind. rewrite Hrun.
        destruct (list_append_step _ _ _ _ _ Hb1 Hfresh) as (h2 & -> & Hb2 & _ & Hkeep).
        split; [exact Hb2 | now apply Hkeep].
      - split; [exact Hb |].
        eapply is_instance_prefix; [exact Hshape | now apply prefix_app_r]. }
    intros [] h1 [Hb1 _]. eapply returns_sbind; [| intros shapes h2; apply Group_fresh].
    destruct s as [s|]; [| exact Hb1].
    destruct Hb1 as (Hpre1 & Hc1 & _ & items & Hitems & Hinst).
    unfold Heap.sbind at 1, Heap.read, Heap.list_at. rewrite Hitems.
    unfold Heap.sbind at 1, Heap.new.
    eapply returns_sbind with
      (Q := fun _ h' => Heap.building h (length h1) h' /\ Forall (Heap.is_instance h') items).
    + apply for_inv.
      * intros [i shape_] h2 Hin [Hb2 Hinst2].
        assert (Hshape_ : Heap.is_instance h2 shape_).
        { eapply Forall_forall in Hinst2; [exact Hinst2 |].
          apply list_elem_of_In. apply list_elem_of_In in Hin.
          now apply in_combine_r in Hin. }
        eapply returns_sbind; [apply returns_num_pow |].
        intros sx ? ->. cbn beta.
        destruct (apply_transform_fresh h2 shape_ (Scale_init sx None)
                    ltac:(apply Hb2) Hshape_) as (o & Hrun & Hfresh).
        unfold Heap.sbind. rewrite Hrun.
        destruct (list_append_step _ _ _ _ _ Hb2 Hfresh) as (h3 & -> & Hb3 & _ & Hkeep).
        split; [exact Hb3 |].
        eapply Forall_impl; [exact Hinst2 | exact Hkeep].
      * destruct (Hstart h1 [] Hc1 ltac:(constructor)) as (Hp & Hcl & _ & Hl).
        split.
        -- split; [now transitivity h1 |]. split; [exact Hcl |].
           split; [now apply prefix_length | exact Hl].
        -- eapply Forall_impl; [exact Hinst |]. intros x Hx.
           eapply is_instance_prefix; [exact Hx | now apply prefix_app_r].
    + intros [] h2 [Hb2 _]. exact Hb2.
Qed.

(** ** The store against shape values *)

Lemma for_each_impl {A B : Type} (f g : A -> result B) (xs : list A) (ys : list B) :
  (forall x y, f x = OK y -> g x = OK y) ->
  for_each f xs = OK ys -> for_each g xs = OK ys.
Proof.
  intros Hfg. revert ys; induction xs as [|x xs IH]; intros ys; simpl; [easy |].
  destruct (f x) as [y|] eqn:Hfx; cbn [bind]; [| discriminate].
  rewrite (Hfg x y Hfx). cbn [bind].
  destruct (for_each f xs) as [ys'|]; cbn [bind]; [| discriminate].
  intros Hys. now rewrite (IH ys' eq_refl).
Qed.

Lemma shape_at_S (depth : nat) (h : Heap.heap) (r : Heap.ref) (shape : Shape) :
  Heap.shape_at depth h r = OK shape -> Heap.shape_at (S depth) h r = OK shape.
Proof.
  revert r shape; induction depth as [|depth IH]; intros r shape; [discriminate |].
  intros Hshape. remember (S depth) as d eqn:Hd.
  cbn [Heap.shape_at]. rewrite Hd in Hshape. cbn [Heap.shape_at] in Hshape.
  destruct (Heap.instance_at h r) as [i|]; [| discriminate]. cbn [bind] in *.
  destruct (Heap.dict_at h (Heap.attrs i)) as [attrs|]; [| discriminate]. cbn [bind] in *.
  destruct (Heap.children i) as [l|]; [| exact Hshape].
  destruct (Heap.list_at h l) as [items|]; [| discriminate]. cbn [bind] in *.
  destruct (for_each (Heap.shape_at depth h) items) as [shapes|] eqn:Hkids;
    [| discriminate].
  rewrite (for_each_impl _ (Heap.shape_at d h) _ _ ltac:(subst d; exact IH) Hkids).
  exact Hshape.
Qed.

Lemma shape_at_le (depth depth' : nat) (h : Heap.heap) (r : Heap.ref) (shape : Shape) :
  (depth <= depth')%nat ->
  Heap.shape_at depth h r = OK shape -> Heap.shape_at depth' h r = OK shape.
Proof.
  induction 1 as [|depth' _ IH]; [easy |].
  intros Hshape. now apply shape_at_S, IH.
Qed.

(** What a successful read went through. *)
Lemma shape_at_inv (depth : nat) (h : Heap.heap) (r : Heap.ref) (shape : Shape) :
  Heap.shape_at (S depth) h r = OK shape ->
  exists i attrs,
    h !! r = Some (Heap.Instance i)
    /\ h !! Heap.attrs i = Some (Heap.Dict attrs)
    /\ match Heap.children i with
       | Some l =>
           exists items shapes,
             h !! l = Some (Heap.List items)
             /\ for_each (Heap.shape_at depth h) items = OK shapes
             /\ shape = mkShape (Heap.tag i) (Some shapes) attrs (Heap.transform i)
       | None => shape = mkShape (Heap.tag i) None attrs (Heap.transform i)
       end.
Proof.
  cbn [Heap.shape_at]. unfold Heap.instance_at, Heap.dict_at, Heap.list_at.
  destruct (h !! r) as [[i| |]|] eqn:Hi; try discriminate. cbn [bind].
  destruct (h !! Heap.attrs i) as [[|attrs|]|] eqn:Hattrs; try discriminate. cbn [bind].
  intros Hshape. exists i, attrs. split; [reflexivity |]. split; [exact Hattrs |].
  destruct (Heap.children i) as [l|]; [| now inversion Hshape].
  destruct (h !! l) as [[| |items]|] eqn:Hl; try discriminate. cbn [bind] in Hshape.
  destruct (for_each (Heap.shape_at depth h) items) as [shapes|] eqn:Hkids;
    [| discriminate].
  exists items, shapes. cbn [bind] in Hshape. inversion Hshape. now repeat split.
Qed.

Lemma shape_at_frame (h h' : Heap.heap) (depth : nat) (r : Heap.ref) :
  Heap.closed h -> h `prefix_of` h' -> (r < length h)%nat ->
  Heap.shape_at depth h' r = Heap.shape_at depth h r.
Proof.
  intros Hc Hpre. revert r.
  assert (Hlook : forall r, (r < length h)%nat -> h' !! r = h !! r).
  { intros r Hr. destruct (lookup_lt_is_Some_2 h r Hr) as [o Ho].
    rewrite Ho. eapply prefix_lookup_Some; eassumption. }
  induction depth as [|depth IH]; intros r Hr; [reflexivity |].
  cbn [Heap.shape_at]. unfold Heap.instance_at.
  rewrite (Hlook r Hr).
  destruct (h !! r) as [[i| |]|] eqn:Hi; try reflexivity.
  cbn [bind].
  pose proof (closed_refs _ _ _ Hc Hi) as Hrefs. cbn [Heap.refs_of] in Hrefs.
  apply Forall_cons in Hrefs as [Hattrs Hchildren].
  unfold Heap.dict_at. rewrite (Hlook _ Hattrs).
  destruct (h !! Heap.attrs i) as [[|d|]|]; try reflexivity.
  cbn [bind].
  destruct (Heap.children i) as [l|]; [| reflexivity].
  apply Forall_cons in Hchildren as [Hl _].
  unfold Heap.list_at. rewrite (Hlook _ Hl).
  destruct (h !! l) as [[| |items]|] eqn:Hitems; try reflexivity.
  cbn [bind].
  pose proof (closed_refs _ _ _ Hc Hitems) as Hin. cbn [Heap.refs_of] in Hin.
  rewrite (for_each_ext_Forall (fun r' => (r' < length h)%nat)
             (Heap.shape_at depth h') (Heap.shape_at depth h) items);
    [reflexivity | exact IH | exact Hin].
Qed.

Lemma represents_lt (h : Heap.heap) (r : Heap.ref) (shape : Shape) :
  Heap.represents h r shape -> (r < length h)%nat.
Proof.
  intros [[|depth] Hshape]; [discriminate |].
  apply shape_at_inv in Hshape as (i & _ & Hi & _).
  eapply lookup_lt_Some; eassumption.
Qed.

Lemma represents_prefix (h h' : Heap.heap) (r : Heap.ref) (shape : Shape) :
  Heap.closed h -> h `prefix_of` h' ->
  Heap.represents h r shape -> Heap.represents h' r shape.
Proof.
  intros Hc Hpre Hrep. pose proof (represents_lt _ _ _ Hrep) as Hr.
  destruct Hrep as [depth Hshape]. exists depth.
  now rewrite (shape_at_frame h h') by assumption.
Qed.

(** Writing to a list that no instance has as its children changes no shape
    value. *)
Lemma shape_at_insert_orphan (h : Heap.heap) (l : Heap.ref) (items items' : list Heap.ref)
    (depth : nat) (r : Heap.ref) :
  h !! l = Some (Heap.List items) -> Heap.orphan h l ->
  Heap.shape_at depth (<[l := Heap.List items']> h) r = Heap.shape_at depth h r.
Proof.
  intros Hl Horphan. revert r.
  assert (Hlook : forall r, r <> l -> <[l := Heap.List items']> h !! r = h !! r).
  { intros r Hr. now apply list_lookup_insert_ne. }
  assert (Hat : <[l := Heap.List items']> h !! l = Some (Heap.List items')).
  { apply list_lookup_insert_eq. eapply lookup_lt_Some; eassumption. }
  induction depth as [|depth IH]; intros r; [reflexivity |].
  cbn [Heap.shape_at]. unfold Heap.instance_at.
  destruct (decide (r = l)) as [-> | Hr]; [now rewrite Hat, Hl |].
  rewrite (Hlook r Hr).
  destruct (h !! r) as [[i| |]|] eqn:Hi; try reflexivity.
  cbn [bind]. unfold Heap.dict_at.
  destruct (decide (Heap.attrs i = l)) as [-> | Hattrs]; [now rewrite Hat, Hl |].
  rewrite (Hlook _ Hattrs).
  destruct (h !! Heap.attrs i) as [[|d|]|]; try reflexivity.
  cbn [bind].
  destruct (Heap.children i) as [l'|] eqn:Hchildren; [| reflexivity].
  assert (Hl' : l' <> l).
  { intros ->. now apply (Horphan r i Hi). }
  unfold Heap.list_at. rewrite (Hlook _ Hl').
  destruct (h !! l') as [[| |kids]|]; try reflexivity.
  cbn [bind]. now rewrite (for_each_ext _ (Heap.shape_at depth h) kids IH).
Qed.

(** Rendering from the store gives the text of the shape value read from
    it. *)
Lemma _svg_shape_at (depth : nat) (h : Heap.heap) (indent : string) (r : Heap.ref)
    (shape : Shape) :
  Heap.shape_at depth h r = OK shape ->
  Heap._svg depth h indent r = _svg indent shape.
Proof.
  revert indent r shape; induction depth as [|depth IH]; intros indent r shape;
    [discriminate |].
  intros Hshape. apply shape_at_inv in Hshape as (i & d & Hi & Hattrs & Hkids).
  cbn [Heap._svg]. unfold Heap.get_attrs, Heap.instance_at, Heap.dict_at, Heap.list_at.
  rewrite Hi. cbn [bind]. rewrite Hattrs. cbn [bind].
  assert (Hmatch : forall items shapes indent',
             for_each (Heap.shape_at depth h) items = OK shapes ->
             for_each (Heap._svg depth h indent') items = for_each (_svg indent') shapes).
  { induction items as [|c items IHitems]; intros shapes indent'; simpl.
    - intros Heq. now inversion Heq.
    - destruct (Heap.shape_at depth h c) as [s|] eqn:Hc; cbn [bind]; [| discriminate].
      destruct (for_each (Heap.shape_at depth h) items) as [ss|]; cbn [bind];
        [| discriminate].
      intros Heq. inversion Heq; subst. simpl.
      now rewrite (IH _ _ _ Hc), (IHitems ss indent' eq_refl). }
  destruct (Heap.children i) as [l|].
  - destruct Hkids as (items & shapes & Hl & Hread & ->).
    rewrite Hl. cbn [_svg]. unfold get_attrs. cbn [transform attrs bind].
    destruct (match Heap.transform i with
              | Some t => bind (as_str t) (fun text => OK (dict_set "transform" (VStr text) d))
              | None => OK d
              end) as [attrs'|]; [| reflexivity].
    cbn [bind].
    pose proof (for_each_length _ _ _ Hread) as Hlen.
    destruct items as [|c items], shapes as [|s shapes]; try discriminate; [reflexivity |].
    destruct (call_render_tag (Heap.tag i) attrs' false); [| reflexivity].
    cbn [bind]. now rewrite (Hmatch _ _ _ Hread).
  - subst shape. cbn [_svg]. unfold get_attrs. cbn [transform attrs bind].
    destruct (match Heap.transform i with
              | Some t => bind (as_str t) (fun text => OK (dict_set "transform" (VStr text) d))
              | None => OK d
              end) as [attrs'|]; reflexivity.
Qed.

Lemma represents_depth (h : Heap.heap) (items : list Heap.ref) (shapes : list Shape) :
  Forall2 (Heap.represents h) items shapes ->
  exists depth, for_each (Heap.shape_at depth h) items = OK shapes.
Proof.
  induction 1 as [|r shape items shapes [d Hd] _ [depth IH]]; [now exists 0%nat |].
  exists (Nat.max d depth). simpl.
  assert (Hd' : (d <= Nat.max d depth)%nat) by lia.
  assert (Hdepth : (depth <= Nat.max d depth)%nat) by lia.
  rewrite (shape_at_le _ _ _ _ _ Hd' Hd). cbn [bind].
  rewrite (for_each_impl _ (Heap.shape_at (Nat.max d depth) h) _ _
             (fun x y => shape_at_le _ _ h x y Hdepth) IH).
  reflexivity.
Qed.

Lemma orphan_snoc_instance (h : Heap.heap) (i : Heap.instance) (l : Heap.ref) :
  Heap.orphan h l -> Heap.children i <> Some l ->
  Heap.orphan (h ++ [Heap.Instance i]) l.
Proof.
  intros Horphan Hi r i' Hr.
  apply lookup_app_Some in Hr as [Hr | [_ Hr]]; [now apply (Horphan r) |].
  destruct (r - length h)%nat; [| discriminate]. now inversion Hr; subst.
Qed.

Lemma orphan_snoc_other (h : Heap.heap) (o : Heap.object) (l : Heap.ref) :
  Heap.orphan h l -> (forall i, o <> Heap.Instance i) -> Heap.orphan (h ++ [o]) l.
Proof.
  intros Horphan Ho r i Hr.
  apply lookup_app_Some in Hr as [Hr | [_ Hr]]; [now apply (Horphan r) |].
  destruct (r - length h)%nat; [| discriminate]. inversion Hr. now destruct (Ho i).
Qed.

Lemma orphan_insert_list (h : Heap.heap) (l l' : Heap.ref) (items : list Heap.ref) :
  Heap.orphan h l -> Heap.orphan (<[l' := Heap.List items]> h) l.
Proof.
  intros Horphan r i Hr.
  apply list_lookup_insert_Some in Hr as [(_ & Habs & _) | (_ & Hr)]; [discriminate |].
  now apply (Horphan r).
Qed.

(** [apply_transform] on the store does what [apply_transform] does on
    values. *)
Lemma apply_transform_simulates (h : Heap.heap) (self : Heap.ref) (shape : Shape)
    (t : Transformation) :
  Heap.closed h -> Heap.represents h self shape ->
  Heap.simulates h (Heap.apply_transform self t h) (OK (apply_transform shape t)).
Proof.
  intros Hc [[|depth] Hshape]; [discriminate |].
  pose proof Hshape as Hinv.
  apply shape_at_inv in Hinv as (i & d & Hi & Hattrs & Hkids).
  destruct (apply_transform_fresh h self t Hc (ex_intro _ i Hi))
    as (o & Hrun & Hpre & Hc' & _ & _).
  pose proof Hrun as Hrun'. rewrite (apply_transform_run h self i t Hi) in Hrun'.
  inversion Hrun' as [Ho]. apply app_inv_head in Ho. inversion Ho as [Ho']. clear Hrun' Ho.
  rewrite Hrun. subst o. cbn [Heap.simulates].
  split; [exact Hpre |]. split; [exact Hc' |]. split.
  - exists (S depth). cbn [Heap.shape_at].
    unfold Heap.instance_at, Heap.dict_at, Heap.list_at.
    rewrite list_lookup_middle by reflexivity. cbn [bind Heap.attrs Heap.children
      Heap.tag Heap.transform].
    rewrite (lookup_app_l h) by (eapply lookup_lt_Some; eassumption).
    rewrite Hattrs. cbn [bind].
    destruct (Heap.children i) as [l|].
    + destruct Hkids as (items & shapes & Hl & Hread & ->).
      rewrite (lookup_app_l h) by (eapply lookup_lt_Some; eassumption).
      rewrite Hl. cbn [bind].
      rewrite (for_each_ext_Forall (fun r' => (r' < length h)%nat)
                 (Heap.shape_at depth (h ++ _)) (Heap.shape_at depth h) items).
      * rewrite Hread. reflexivity.
      * intros r Hr. apply shape_at_frame; [exact Hc | now apply prefix_app_r | exact Hr].
      * exact (Hc _ _ Hl).
    + now subst shape.
  - intros l Hl Horphan. apply orphan_snoc_instance; [exact Horphan |].
    cbn [Heap.children]. now apply (Horphan self).
Qed.

(** [Group] on a filled list gives the group of the values filled in. *)
Lemma Group_simulates (h0 h : Heap.heap) (shapes : Heap.ref) (acc : list Shape) :
  Heap.filling h0 shapes h acc ->
  Heap.simulates h0 (Heap.Group shapes [] h) (OK (Group acc [])).
Proof.
  intros (Hpre & Hc & Hshapes & Horphan & Hkeep & items & Hitems & Hacc).
  assert (Hb : Heap.building h0 shapes h).
  { split; [exact Hpre |]. split; [exact Hc |]. split; [exact Hshapes |].
    exists items. split; [exact Hitems |].
    eapply Forall2_Forall_l; [exact Hacc |].
    apply Forall_true. intros shape r [[|d] Hd]; [discriminate |].
    apply shape_at_inv in Hd as (i & _ & Hi & _). now exists i. }
  pose proof (Group_fresh _ _ _ Hb) as Hfresh.
  rewrite Group_run in Hfresh |- *. cbn [Heap.returns Heap.simulates] in *.
  destruct Hfresh as (Hpre' & Hc' & _ & _).
  split; [exact Hpre' |]. split; [exact Hc' |]. split.
  - destruct (represents_depth _ _ _ Hacc) as [depth Hdepth].
    exists (S depth). cbn [Heap.shape_at].
    unfold Heap.instance_at, Heap.dict_at, Heap.list_at.
    rewrite (lookup_app_r h) by lia.
    replace (S (length h) - length h)%nat with 1%nat by lia.
    cbn [lookup list_lookup bind Heap.attrs Heap.children Heap.tag Heap.transform].
    rewrite list_lookup_middle by reflexivity. cbn [bind].
    rewrite (lookup_app_l h) by (eapply lookup_lt_Some; eassumption).
    rewrite Hitems. cbn [bind].
    rewrite (for_each_ext_Forall (fun r' => (r' < length h)%nat)
               (Heap.shape_at depth (h ++ _)) (Heap.shape_at depth h) items).
    + now rewrite Hdepth.
    + intros r Hr. apply shape_at_frame; [exact Hc | now apply prefix_app_r | exact Hr].
    + exact (Hc _ _ Hitems).
  - intros l Hl Hl0.
    change [Heap.Dict []; ?g] with ([Heap.Dict []] ++ [g]). rewrite app_assoc.
    apply orphan_snoc_instance; [apply orphan_snoc_other; [now apply Hkeep | easy] |].
    cbn [Heap.children]. intros Heq. inversion Heq. lia.
Qed.

Lemma filling_start (h0 h : Heap.heap) (items : list Heap.ref) (acc : list Shape) :
  h0 `prefix_of` h -> Heap.closed h ->
  (forall l, (l < length h0)%nat -> Heap.orphan h0 l -> Heap.orphan h l) ->
  Forall2 (Heap.represents h) items acc ->
  Heap.filling h0 (length h) (h ++ [Heap.List items]) acc.
Proof.
  intros Hpre Hc Hkeep Hacc.
  assert (Hlt : Forall (fun r => (r < length h)%nat) items).
  { eapply Forall2_Forall_l; [exact Hacc |].
    apply Forall_true. intros shape r Hr. now apply represents_lt in Hr. }
  assert (Hc' : Heap.closed (h ++ [Heap.List items])).
  { apply closed_snoc; [exact Hc |]. cbn [Heap.refs_of].
    eapply Forall_impl; [exact Hlt |]. cbn. lia. }
  split; [now apply prefix_app_r |]. split; [exact Hc' |].
  split; [now apply prefix_length |]. split; [| split].
  - apply orphan_snoc_other; [| easy].
    intros r i Hi Heq. pose proof (Hc _ _ Hi) as Hrefs. cbn [Heap.refs_of] in Hrefs.
    rewrite Heq in Hrefs. apply Forall_cons in Hrefs as [_ Hrefs].
    apply Forall_cons in Hrefs as [Hrefs _]. lia.
  - intros l Hl Hl0. apply orphan_snoc_other; [now apply Hkeep | easy].
  - exists items. split; [now apply list_lookup_middle |].
    eapply Forall2_impl; [exact Hacc |]. intros r shape Hr.
    eapply represents_prefix; [exact Hc | now apply prefix_app_r | exact Hr].
Qed.

(** Appending the reference a call returned to the list being filled. *)
Lemma filling_append (h0 h h1 : Heap.heap) (shapes r : Heap.ref) (acc : list Shape)
    (shape : Shape) :
  Heap.filling h0 shapes h acc ->
  h `prefix_of` h1 -> Heap.closed h1 -> Heap.represents h1 r shape ->
  (forall l, (l < length h)%nat -> Heap.orphan h l -> Heap.orphan h1 l) ->
  exists h2,
    Heap.list_append shapes r h1 = OK (tt, h2)
    /\ Heap.filling h0 shapes h2 (acc ++ [shape])
    /\ Heap.represents h2 r shape
    /\ (forall x sx, Heap.represents h x sx -> Heap.represents h2 x sx).
Proof.
  intros (Hpre & Hc & Hshapes & Horphan & Hkeep & items & Hitems & Hacc)
         Hpre1 Hc1 Hr Hkeep1.
  pose proof (prefix_lookup_Some _ _ _ _ Hitems Hpre1) as Hitems1.
  pose proof (lookup_lt_Some _ _ _ Hitems) as Hlt.
  assert (Horphan1 : Heap.orphan h1 shapes) by now apply Hkeep1.
  assert (Hstay : forall x sx, Heap.represents h1 x sx ->
            Heap.represents (<[shapes := Heap.List (items ++ [r])]> h1) x sx).
  { intros x sx [d Hd]. exists d.
    now rewrite (shape_at_insert_orphan h1 shapes items). }
  eexists. unfold Heap.list_append. rewrite Hitems1. split; [reflexivity |].
  split; [| split].
  - split; [| split; [| split; [| split; [| split]]]].
    + apply prefix_insert_above; [now transitivity h | exact Hshapes].
    + apply closed_insert; [exact Hc1 |]. cbn [Heap.refs_of].
      apply Forall_app. split; [exact (Hc1 _ _ Hitems1) |].
      constructor; [now apply represents_lt in Hr | constructor].
    + exact Hshapes.
    + now apply orphan_insert_list.
    + intros l Hl Hl0. apply orphan_insert_list. apply Hkeep1.
      * apply prefix_length in Hpre. lia.
      * now apply Hkeep.
    + exists (items ++ [r]). split.
      * apply list_lookup_insert_eq. eapply lookup_lt_Some; eassumption.
      * apply Forall2_app; [| repeat constructor; now apply Hstay].
        eapply Forall2_impl; [exact Hacc |]. intros x sx Hx.
        apply Hstay. now apply (represents_prefix h).
  - now apply Hstay.
  - intros x sx Hx. apply Hstay. now apply (represents_prefix h).
Qed.

Lemma repeat_loop_simulates (t : Transformation) (h0 : Heap.heap) (shapes : Heap.ref) :
  (forall h shape s, Heap.closed h -> Heap.represents h shape s ->
     Heap.simulates h (Heap.apply t shape h) (apply t s)) ->
  forall k h cur s acc,
    Heap.filling h0 shapes h acc -> Heap.represents h cur s ->
    Heap.loop_simulates h0 shapes
      (Heap.repeat_loop (Heap.apply t) shapes k cur h)
      (repeat_loop (apply t) k s acc) (fun _ => True).
Proof.
  intros Ht. induction k as [|k IH]; intros h cur s acc Hfill Hcur; [now split |].
  cbn [Heap.repeat_loop repeat_loop]. unfold Heap.sbind at 1.
  pose proof (Ht h cur s ltac:(apply Hfill) Hcur) as Hsim.
  unfold Heap.simulates in Hsim.
  destruct (Heap.apply t cur h) as [[r h1]|e], (apply t s) as [s1|e'];
    cbn [bind]; try easy.
  destruct Hsim as (Hpre1 & Hc1 & Hr & Hkeep1).
  destruct (filling_append _ _ _ _ _ _ _ Hfill Hpre1 Hc1 Hr Hkeep1)
    as (h2 & Happ & Hfill2 & Hr2 & _).
  unfold Heap.sbind. rewrite Happ. now apply IH.
Qed.

Lemma rotate_loop_simulates (h0 : Heap.heap) (shapes shape : Heap.ref) (s : Shape)
    (angle : number) (anchor : Point) :
  forall xs h acc,
    Heap.filling h0 shapes h acc -> Heap.represents h shape s ->
    Heap.loop_simulates h0 shapes
      (Heap.for_ xs (fun i =>
         Heap.sbind (Heap.lift (num_mul (Int i) angle)) (fun a =>
         Heap.sbind (Heap.apply_transform shape (Rotate_init a (Some anchor))) (fun shape' =>
         Heap.list_append shapes shape'))) h)
      (more <- for_each (fun i =>
                 a <- num_mul (Int i) angle ;;
                 OK (apply_transform s (Rotate_init a (Some anchor)))) xs ;;
       OK (acc ++ more))
      (fun h' => Heap.represents h' shape s).
Proof.
  induction xs as [|i xs IH]; intros h acc Hfill Hshape.
  - cbn. now rewrite app_nil_r.
  - cbn [Heap.for_ for_each]. unfold Heap.sbind at 1 2, Heap.lift.
    destruct (num_mul (Int i) angle) as [a|e]; cbn [bind]; [| reflexivity].
    pose proof (apply_transform_simulates h shape s (Rotate_init a (Some anchor))
                  ltac:(apply Hfill) Hshape) as Hsim.
    unfold Heap.simulates in Hsim. unfold Heap.sbind at 1.
    destruct (Heap.apply_transform shape _ h) as [[r h1]|e]; [| easy].
    destruct Hsim as (Hpre1 & Hc1 & Hr & Hkeep1).
    destruct (filling_append _ _ _ _ _ _ _ Hfill Hpre1 Hc1 Hr Hkeep1)
      as (h2 & -> & Hfill2 & _ & Hstay).
    specialize (IH h2 _ Hfill2 (Hstay _ _ Hshape)).
    destruct (for_each _ xs) as [more|]; cbn [bind] in IH |- *; [| exact IH].
    now rewrite <- app_assoc in IH.
Qed.

Lemma scale_loop_simulates (h0 : Heap.heap) (shapes : Heap.ref)
    (s : number) :
  forall items values, Forall2 (fun _ _ => True) items values ->
  forall idx h acc,
    Forall2 (Heap.represents h) items values ->
    Heap.filling h0 shapes h acc ->
    Heap.loop_simulates h0 shapes
      (Heap.for_ (List.combine idx items) (fun '(i, shape_) =>
         Heap.sbind (Heap.lift (num_pow s i)) (fun sx =>
         Heap.sbind (Heap.apply_transform shape_ (Scale_init sx None)) (fun shape' =>
         Heap.list_append shapes shape'))) h)
      (more <- for_each (fun '(i, shape_) =>
                 sx <- num_pow s i ;;
                 OK (apply_transform shape_ (Scale_init sx None))) (List.combine idx values) ;;
       OK (acc ++ more))
      (fun _ => True).
Proof.
  induction 1 as [|r v items values _ _ IH]; intros idx h acc Hrep Hfill.
  - destruct idx; cbn; now rewrite app_nil_r.
  - destruct idx as [|i idx]; [cbn; now rewrite app_nil_r |].
    apply Forall2_cons in Hrep as [Hr Hrep].
    cbn [List.combine Heap.for_ for_each]. unfold Heap.sbind at 1 2, Heap.lift.
    destruct (num_pow s i) as [sx|e]; cbn [bind]; [| reflexivity].
    pose proof (apply_transform_simulates h r v (Scale_init sx None)
                  ltac:(apply Hfill) Hr) as Hsim.
    unfold Heap.simulates in Hsim. unfold Heap.sbind at 1.
    destruct (Heap.apply_transform r _ h) as [[r' h1]|e]; [| easy].
    destruct Hsim as (Hpre1 & Hc1 & Hr' & Hkeep1).
    destruct (filling_append _ _ _ _ _ _ _ Hfill Hpre1 Hc1 Hr' Hkeep1)
      as (h2 & -> & Hfill2 & _ & Hstay).
    specialize (IH idx h2 _ (Forall2_impl _ _ _ _ Hrep Hstay) Hfill2).
    destruct (for_each _ (List.combine idx values)) as [more|]; cbn [bind] in IH |- *;
      [| exact IH].
    now rewrite <- app_assoc in IH.
Qed.

(** The library on the store does what the library does on shape values:
    from a reference that stands for [s], [apply] returns a reference that
    stands for the shape [apply] returns from [s], in a store that extends
    the old one; and one raises where, and what, the other raises. *)
Lemma apply_simulates (t : Transformation) :
  forall h shape s,
    Heap.closed h -> Heap.represents h shape s ->
    Heap.simulates h (Heap.apply t shape h) (apply t s).
Proof.
  induction t as [x y|angle anchor|sx sy|ts|n t IH|n angle anchor sc];
    intros h shape s Hc Hshape;
    try (cbn [Heap.apply apply]; now apply apply_transform_simulates).
  - (* Repeat *)
    cbn [Heap.apply apply]. unfold Heap.sbind at 1, Heap.new.
    assert (Hfill : Heap.filling h (length h) (h ++ [Heap.List [shape]]) [s]).
    { apply filling_start; [reflexivity | exact Hc | easy | now repeat constructor]. }
    assert (Hshape1 : Heap.represents (h ++ [Heap.List [shape]]) shape s).
    { eapply represents_prefix; [exact Hc | now apply prefix_app_r | exact Hshape]. }
    pose proof (repeat_loop_simulates t h (length h) IH (Z.to_nat (n - 1)) _ _ _ _
                  Hfill Hshape1) as Hloop.
    unfold Heap.loop_simulates in Hloop. unfold Heap.sbind.
    destruct (Heap.repeat_loop _ _ _ _ _) as [[[] h1]|e],
             (repeat_loop _ _ _ _) as [acc|e']; cbn [bind]; try easy.
    destruct Hloop as [Hfill1 _]. now apply Group_simulates.
  - (* Cycle *)
    cbn [Heap.apply apply]. unfold Heap.sbind at 1, Heap.new.
    assert (Hfill : Heap.filling h (length h) (h ++ [Heap.List []]) []).
    { apply filling_start; [reflexivity | exact Hc | easy | constructor]. }
    assert (Hshape1 : Heap.represents (h ++ [Heap.List []]) shape s).
    { eapply represents_prefix; [exact Hc | now apply prefix_app_r | exact Hshape]. }
    pose proof (rotate_loop_simulates h (length h) shape s angle anchor (range n) _ _
                  Hfill Hshape1) as Hloop.
    unfold Heap.loop_simulates in Hloop. unfold Heap.sbind at 1.
    destruct (Heap.for_ (range n) _ _) as [[[] h1]|e],
             (for_each _ (range n)) as [members|e']; cbn [bind] in Hloop |- *; try easy.
    destruct Hloop as [Hfill1 _]. cbn [app] in Hfill1.
    destruct sc as [sc|].
    + destruct Hfill1 as (Hpre1 & Hc1 & _ & _ & Hkeep1 & items & Hitems & Hmembers).
      unfold Heap.sbind at 1 2, Heap.read, Heap.list_at. rewrite Hitems.
      unfold Heap.sbind at 1, Heap.new.
      assert (Hfill2 : Heap.filling h (length h1) (h1 ++ [Heap.List []]) []).
      { apply filling_start; [exact Hpre1 | exact Hc1 | exact Hkeep1 | constructor]. }
      assert (Hmembers2 : Forall2 (Heap.represents (h1 ++ [Heap.List []])) items members).
      { eapply Forall2_impl; [exact Hmembers |]. intros r v Hr.
        eapply represents_prefix; [exact Hc1 | now apply prefix_app_r | exact Hr]. }
      pose proof (scale_loop_simulates h (length h1) sc items members
                    ltac:(eapply Forall2_impl; [exact Hmembers | easy])
                    (range (Z.of_nat (length items))) _ _ Hmembers2 Hfill2) as Hloop.
      unfold enumerate. rewrite <- (Forall2_length _ _ _ Hmembers).
      unfold Heap.loop_simulates in Hloop. unfold Heap.sbind at 1.
      destruct (Heap.for_ _ _ _) as [[[] h2]|e],
               (for_each _ (List.combine _ members)) as [scaled|e'];
        cbn [bind app] in Hloop |- *; try easy.
      destruct Hloop as [Hfill3 _]. unfold Heap.sbind, Heap.ret.
      now apply Group_simulates.
    + unfold Heap.sbind, Heap.ret. now apply Group_simulates.
Qed.

Lemma size_positive (t : Transformation) : (0 < size t)%nat.
Proof. destruct t; cbn; lia. Qed.

(** Appending to a transformation gives another transformation. *)
Lemma join_neq (t0 t : Transformation) : join t0 t <> t0.
Proof.
  intros Heq. apply (f_equal size) in Heq.
  pose proof (size_positive t) as Ht.
  assert (Hsum : forall ts,
            foldr (fun t' n => (size t' + n)%nat) 0%nat (ts ++ [t]) =
            (foldr (fun t' n => (size t' + n)%nat) 0%nat ts + size t)%nat).
  { induction ts as [|u ts IH]; cbn [app foldr]; [lia | rewrite IH; lia]. }
  destruct t0; cbn [join] in Heq;
    try (change (size (TransformationList [?a; t])) with (S (size a + (size t + 0)))%nat in Heq;
         lia).
  cbn [size] in Heq. rewrite Hsum in Heq. lia.
Qed.

Lemma apply_transform_changes (shape : Shape) (t : Transformation) :
  transform (apply_transform shape t) <> transform shape.
Proof.
  unfold apply_transform, Transformation_or. cbn [transform set_transform].
  destruct (transform shape) as [t0|]; [| discriminate].
  intros Heq. inversion Heq as [Hjoin]. now apply join_neq in Hjoin.
Qed.

(** What the library renders from the store is what it renders from shape
    values, once the depth bound covers the nesting. *)
Lemma rendering_simulates (h : Heap.heap) (shape : Heap.ref) (s : Shape)
    (t : Transformation) (result : Heap.ref) (h' : Heap.heap) :
  Heap.closed h -> Heap.represents h shape s ->
  Heap.apply t shape h = OK (result, h') ->
  exists s' enough,
    apply t s = OK s'
    /\ forall depth indent, (enough <= depth)%nat ->
         Heap._svg depth h' indent result = _svg indent s'.
Proof.
  intros Hc Hshape Hrun.
  pose proof (apply_simulates t h shape s Hc Hshape) as Hsim.
  rewrite Hrun in Hsim. cbn [Heap.simulates] in Hsim.
  destruct (apply t s) as [s'|]; [| easy].
  destruct Hsim as (_ & _ & [enough Hread] & _).
  exists s', enough. split; [reflexivity |].
  intros depth indent Hdepth. apply _svg_shape_at.
  now apply (shape_at_le enough).
Qed.

(** C2.  In a store with no dangling reference, [shape | t] returns a
    reference that the store did not hold before, to an instance, or raises
    an exception of the arithmetic.  No object of the store is written: every
    reference of the old store leads to the object it led to and renders to
    the text it rendered to, [shape] among them.  In value terms: if [shape]
    stood for the shape value [s], it still does, and the new reference
    stands for the value of [s | t]; for a [t] that attaches itself that
    value has the tag, attributes and children of [s] and a [transform] that
    differs from the one of [s]. *)
Theorem apply_leaves_original (h : Heap.heap) (shape : Heap.ref) (t : Transformation) :
  Heap.closed h -> Heap.is_instance h shape ->
  match Heap.apply t shape h with
  | OK (shape2, h') =>
      (length h <= shape2 < length h')%nat
      /\ shape2 <> shape
      /\ Heap.is_instance h' shape2
      /\ (forall r, (r < length h)%nat -> h' !! r = h !! r)
      /\ (forall depth indent r, (r < length h)%nat ->
            Heap._svg depth h' indent r = Heap._svg depth h indent r)
      /\ (forall depth indent, Heap._svg depth h' indent shape = Heap._svg depth h indent shape)
      /\ Heap.closed h'
      /\ (forall s, Heap.represents h shape s ->
            Heap.represents h' shape s
            /\ exists s2,
                 apply t s = OK s2
                 /\ Heap.represents h' shape2 s2
                 /\ (applies_directly t = true ->
                       s2 = apply_transform s t
                       /\ transform s2 <> transform s
                       /\ tag s2 = tag s /\ attrs s2 = attrs s
                       /\ children s2 = children s))
  | Raise e =>
      Heap.numeric_error e
      /\ forall s, Heap.represents h shape s -> apply t s = Raise e
  end
  /\ (applies_directly t = true ->
        exists i,
          h !! shape = Some (Heap.Instance i)
          /\ Heap.apply t shape h =
             OK (length h,
                 h ++ [Heap.Instance
                         (Heap.mkInstance (Heap.cls i) (Heap.tag i) (Heap.children i)
                            (Heap.attrs i)
                            (Some (match Heap.transform i with
                                   | Some t0 => Transformation_or t0 t
                                   | None => t
                                   end)))])).
Proof.
  intros Hc Hshape. split.
  - pose proof (apply_fresh t h shape Hc Hshape) as Hret.
    pose proof (apply_simulates t h shape) as Hsim.
    unfold Heap.returns in Hret.
    destruct (Heap.apply t shape h) as [[shape2 h']|e].
    + destruct Hret as (Hpre & Hc' & Hnew & Hinst).
      pose proof (is_instance_lt _ _ Hshape) as Hlt.
      pose proof (is_instance_lt _ _ Hinst) as Hlt2.
      split; [lia |]. split; [lia |]. split; [exact Hinst |].
      split; [| split; [| split; [| split]]].
      * intros r Hr. destruct (lookup_lt_is_Some_2 h r Hr) as [o Ho].
        rewrite Ho. eapply prefix_lookup_Some; eassumption.
      * intros depth indent r Hr. now apply _svg_frame.
      * intros depth indent. now apply _svg_frame.
      * exact Hc'.
      * intros s Hs. split; [now apply (represents_prefix h) |].
        specialize (Hsim s Hc Hs). cbn [Heap.simulates] in Hsim.
        destruct (apply t s) as [s2|] eqn:Hs2; [| easy].
        exists s2. split; [reflexivity |]. split; [apply Hsim |].
        intros Hdirect. rewrite apply_directly in Hs2 by exact Hdirect.
        inversion Hs2; subst s2. split; [reflexivity |].
        split; [apply apply_transform_changes | now destruct s].
    + split; [exact Hret |]. intros s Hs.
      specialize (Hsim s Hc Hs). cbn [Heap.simulates] in Hsim.
      destruct (apply t s); [easy | now subst].
  - intros Hdirect. destruct Hshape as [i Hi]. exists i. split; [exact Hi |].
    rewrite <- (apply_transform_run h shape i t Hi). now destruct t.
Qed.

End HeapProperties.

(** * More properties of the library *)

Section MoreProperties.
Context `{FloatRuntime}.

(** ** Induction through the lists inside transformations and shapes *)

Lemma Transformation_nested_ind (P : Transformation -> Prop) :
  (forall x y, P (Translate x y)) ->
  (forall angle anchor, P (Rotate angle anchor)) ->
  (forall sx sy, P (Scale sx sy)) ->
  (forall ts, Forall P ts -> P (TransformationList ts)) ->
  (forall n t, P t -> P (Repeat n t)) ->
  (forall n angle anchor s, P (Cycle n angle anchor s)) ->
  forall t, P t.
Proof.
  intros HT HR HS HL HRep HC. fix IH 1.
  intros [x y|angle anchor|sx sy|ts|n t|n angle anchor s].
  - apply HT.
  - apply HR.
  - apply HS.
  - apply HL. induction ts as [|t ts IHts]; constructor; [apply IH | exact IHts].
  - apply HRep, IH.
  - apply HC.
Qed.

Lemma Shape_nested_ind (P : Shape -> Prop) :
  (forall tag children attrs transform,
     (forall cs, children = Some cs -> Forall P cs) ->
     P (mkShape tag children attrs transform)) ->
  forall shape, P shape.
Proof.
  intros HP. fix IH 1. intros [tag [cs|] attrs transform]; apply HP.
  - intros cs' [= <-].
    induction cs as [|c cs IHcs]; constructor; [apply IH | exact IHcs].
  - discriminate.
Qed.

(** ** When serialising raises *)

Lemma for_each_outcome {A B : Type} (f : A -> result B) (ok : A -> bool)
    (bad : exn -> Prop) (xs : list A) :
  Forall (fun x => match f x with
                   | OK _ => ok x = true
                   | Raise e => ok x = false /\ bad e
                   end) xs ->
  match for_each f xs with
  | OK _ => forallb ok xs = true
  | Raise e => forallb ok xs = false /\ bad e
  end.
Proof.
  induction 1 as [|x xs Hx _ IH]; [reflexivity |].
  cbn [for_each forallb].
  destruct (f x) as [y|e]; cbn [bind].
  - rewrite Hx. cbn [andb].
    destruct (for_each f xs) as [ys|e]; cbn [bind]; exact IH.
  - destruct Hx as [-> Hbad]. now split.
Qed.

Lemma as_str_outcome (t : Transformation) :
  match as_str t with
  | OK _ => serialisable t = true
  | Raise e => serialisable t = false /\ e = AttributeError "as_str"
  end.
Proof.
  induction t as [x y|angle anchor|sx sy|ts IH|n t _|n angle anchor s]
    using Transformation_nested_ind; try (cbn; now repeat split).
  - cbn. now destruct (Point_eq anchor origin).
  - rewrite as_str_list. cbn [serialisable].
    pose proof (for_each_outcome as_str serialisable
                  (fun e => e = AttributeError "as_str") ts IH) as Hts.
    destruct (for_each as_str ts); exact Hts.
Qed.

(** X1.  [as_str] returns a text for a transformation with no [Repeat] and no
    [Cycle] in it, at any depth of lists, and raises [AttributeError] for
    every other one. *)
Theorem as_str_raises_on_higher_order (t : Transformation) :
  (serialisable t = true -> exists text, as_str t = OK text)
  /\ (serialisable t = false -> as_str t = Raise (AttributeError "as_str"))
  /\ (forall text, as_str t = OK text -> serialisable t = true)
  /\ (forall e, as_str t = Raise e -> e = AttributeError "as_str").
Proof.
  pose proof (as_str_outcome t) as Hout.
  destruct (as_str t) as [text|e].
  - split; [now exists text |]. split; [congruence |]. split; [easy | discriminate].
  - destruct Hout as [Hser ->]. split; [congruence |]. split; [easy |].
    split; [discriminate | now intros e' [= <-]].
Qed.

Lemma serialisable_join (t u : Transformation) :
  serialisable (join t u) = serialisable t && serialisable u.
Proof.
  rewrite join_components. cbn [serialisable]. rewrite forallb_app. cbn [forallb].
  rewrite andb_true_r. f_equal.
  destruct t; cbn [components serialisable forallb]; now rewrite ?andb_true_r.
Qed.

Lemma as_str_not_serialisable (t : Transformation) :
  serialisable t = false -> as_str t = Raise (AttributeError "as_str").
Proof.
  intros Hser. pose proof (as_str_outcome t) as Hout.
  destruct (as_str t) as [text|e]; [congruence | now destruct Hout as [_ ->]].
Qed.

(** X2.  A composition can always be applied, to any shape, and gives that shape
    with the composition attached: a [Repeat] or [Cycle] inside it does not
    act.  When the composition has one inside, the shape it gives cannot be
    rendered. *)
Theorem composition_never_acts (t1 t2 : Transformation) (shape : Shape) :
  let composed := apply_transform shape (Transformation_or t1 t2) in
  apply (Transformation_or t1 t2) shape = OK composed
  /\ tag composed = tag shape
  /\ attrs composed = attrs shape
  /\ children composed = children shape
  /\ (serialisable t1 && serialisable t2 = false ->
        forall indent, _svg indent composed = Raise (AttributeError "as_str")).
Proof.
  intros composed. split; [| repeat split].
  - apply apply_directly. unfold Transformation_or. now rewrite join_components.
  - intros Hser indent.
    assert (Hraise : get_attrs composed = Raise (AttributeError "as_str")).
    { subst composed. unfold apply_transform, Transformation_or, get_attrs.
      cbn [transform set_transform clone].
      rewrite as_str_not_serialisable; [reflexivity |].
      destruct (transform shape) as [t0|]; rewrite !serialisable_join, ?Hser;
        [apply andb_false_r | reflexivity]. }
    destruct composed as [tg ch at_ tr]. cbn [_svg]. now rewrite Hraise.
Qed.

(** ** When rendering raises *)

Lemma call_render_tag_outcome (tag : string) (attrs : dict) (close : bool) :
  call_render_tag tag attrs close =
  if dict_mem "tag" attrs || dict_mem "close" attrs then Raise TypeError
  else OK (render_tag tag close attrs).
Proof. reflexivity. Qed.

Lemma dict_get_set (k k' : string) (v : value) (d : dict) :
  dict_get k (dict_set k' v d) = if String.eqb k k' then Some v else dict_get k d.
Proof.
  induction d as [|[k1 v1] d IH]; cbn [dict_set dict_get].
  - reflexivity.
  - destruct (String.eqb_spec k' k1) as [-> | Hne]; cbn [dict_get].
    + now destruct (String.eqb k k1).
    + rewrite IH. destruct (String.eqb_spec k k1) as [-> | Hne1]; [| reflexivity].
      destruct (String.eqb_spec k1 k') as [-> | _]; [congruence | reflexivity].
Qed.

Lemma dict_mem_set (k k' : string) (v : value) (d : dict) :
  dict_mem k (dict_set k' v d) = String.eqb k k' || dict_mem k d.
Proof. unfold dict_mem. rewrite dict_get_set. now destruct (String.eqb k k'). Qed.

Lemma _svg_outcome (shape : Shape) :
  forall indent,
    match _svg indent shape with
    | OK _ => renderable shape = true
    | Raise e =>
        renderable shape = false /\ (e = AttributeError "as_str" \/ e = TypeError)
    end.
Proof.
  induction shape as [tg ch at_ tr IH] using Shape_nested_ind. intros indent.
  cbn [_svg renderable]. unfold get_attrs. cbn [transform attrs].
  assert (Hattrs :
    match (match tr with
           | Some t => text <- as_str t ;; OK (dict_set "transform" (VStr text) at_)
           | None => OK at_
           end) with
    | OK d => match tr with Some t => serialisable t | None => true end = true
              /\ dict_mem "tag" d = dict_mem "tag" at_
              /\ dict_mem "close" d = dict_mem "close" at_
    | Raise e => match tr with Some t => serialisable t | None => true end = false
                 /\ e = AttributeError "as_str"
    end).
  { destruct tr as [t|]; [| now repeat split].
    pose proof (as_str_outcome t) as Ht.
    destruct (as_str t) as [text|e]; cbn [bind]; [| exact Ht].
    split; [exact Ht |]. now rewrite !dict_mem_set. }
  destruct (match tr with
            | Some t => text <- as_str t ;; OK (dict_set "transform" (VStr text) at_)
            | None => OK at_
            end) as [d|e]; cbn [bind].
  2:{ destruct Hattrs as [-> ->]. split; [reflexivity | now left]. }
  destruct Hattrs as (-> & Htag & Hclose). cbn [andb].
  rewrite !call_render_tag_outcome, Htag, Hclose.
  destruct (dict_mem "tag" at_ || dict_mem "close" at_).
  { cbn [negb andb bind]. destruct ch as [[|c cs]|]; cbn [bind]; split; auto. }
  cbn [negb andb bind].
  destruct ch as [[|c cs]|]; [reflexivity | | reflexivity].
  pose proof (for_each_outcome (_svg (indent +:+ "  ")) renderable
                (fun e => e = AttributeError "as_str" \/ e = TypeError) (c :: cs)) as Hkids.
  destruct (for_each (_svg (indent +:+ "  ")) (c :: cs)) as [inner|e]; cbn [bind];
    apply Hkids; (eapply Forall_impl; [exact (IH _ eq_refl) |]);
    intros child Hchild; apply Hchild.
Qed.

(** X3.  Rendering returns a text exactly for the shapes that are [renderable];
    for the others it raises [AttributeError], from a transformation with no
    [as_str], or [TypeError], from an attribute named [tag] or [close].  The
    indentation plays no part in it. *)
Theorem _svg_raises_on_obstacle (shape : Shape) (indent : string) :
  (renderable shape = true -> exists text, _svg indent shape = OK text)
  /\ (forall text, _svg indent shape = OK text -> renderable shape = true)
  /\ (forall e, _svg indent shape = Raise e ->
        renderable shape = false /\ (e = AttributeError "as_str" \/ e = TypeError)).
Proof.
  pose proof (_svg_outcome shape indent) as Hout.
  destruct (_svg indent shape) as [text|e].
  - split; [now exists text |]. split; [easy | discriminate].
  - destruct Hout as [Hno He]. split; [congruence |]. split; [discriminate |].
    now intros e' [= <-].
Qed.

(** ** Chains of transformations *)

Lemma apply_transform_fields (shape : Shape) (t : Transformation) :
  tag (apply_transform shape t) = tag shape
  /\ attrs (apply_transform shape t) = attrs shape
  /\ children (apply_transform shape t) = children shape.
Proof. repeat split. Qed.

Lemma chain_from_transform (ts : list Transformation) :
  forall shape t0,
    transform shape = Some t0 -> ts <> [] ->
    foldl apply_transform shape ts =
    mkShape (tag shape) (children shape) (attrs shape)
      (Some (TransformationList (components t0 ++ ts))).
Proof.
  induction ts as [|u [|v rest] IH]; intros shape t0 Ht0 Hne; [congruence | |].
  - cbn [foldl]. unfold apply_transform, Transformation_or.
    rewrite Ht0, join_components. reflexivity.
  - change (foldl apply_transform shape (u :: v :: rest))
      with (foldl apply_transform (apply_transform shape u) (v :: rest)).
    rewrite (IH (apply_transform shape u) (join t0 u)); [| | discriminate].
    + rewrite join_components. cbn [components tag children attrs apply_transform
        set_transform clone]. now rewrite <- app_assoc.
    + unfold apply_transform, Transformation_or. now rewrite Ht0.
Qed.

Lemma str_join_flatten (sep : string) (ps qs : list string) :
  ps <> [] -> str_join sep (str_join sep ps :: qs) = str_join sep (ps ++ qs).
Proof.
  intros Hne. induction ps as [|a [|b ps] IH]; [congruence | reflexivity |].
  specialize (IH ltac:(discriminate)).
  change (str_join sep ((a :: b :: ps) ++ qs))
    with (a +:+ sep +:+ str_join sep ((b :: ps) ++ qs)).
  rewrite <- IH.
  change (str_join sep (a :: b :: ps)) with (a +:+ sep +:+ str_join sep (b :: ps)).
  destruct qs as [|q qs].
  - reflexivity.
  - change (str_join sep ((a +:+ sep +:+ str_join sep (b :: ps)) :: q :: qs))
      with ((a +:+ sep +:+ str_join sep (b :: ps)) +:+ sep +:+ str_join sep (q :: qs)).
    change (str_join sep (str_join sep (b :: ps) :: q :: qs))
      with (str_join sep (b :: ps) +:+ sep +:+ str_join sep (q :: qs)).
    now rewrite !append_assoc.
Qed.

Lemma chain_from_none (shape : Shape) (t : Transformation) (ts : list Transformation) :
  transform shape = None -> ts <> [] ->
  foldl apply_transform shape (t :: ts) =
  mkShape (tag shape) (children shape) (attrs shape)
    (Some (TransformationList (components t ++ ts))).
Proof.
  intros Hnone Hne. cbn [foldl].
  rewrite (chain_from_transform ts (apply_transform shape t) t); [reflexivity | | exact Hne].
  unfold apply_transform. now rewrite Hnone.
Qed.

(** X4.  [shape | t1 | t2 | ... | tn], for two transformations or more that
    attach themselves and a shape that carries none yet, is [shape] with one
    list attached: the components of [t1] followed by [t2], ..., [tn].  Tag,
    attributes and children are those of [shape], and the text of the list
    is the texts of [t1], ..., [tn] joined by spaces, unless [t1] is a list
    with no component. *)
Theorem chain_accumulates (shape : Shape) (t : Transformation) (ts : list Transformation) :
  transform shape = None -> ts <> [] ->
  foldl apply_transform shape (t :: ts) =
  mkShape (tag shape) (children shape) (attrs shape)
    (Some (TransformationList (components t ++ ts)))
  /\ (is_empty_list t = false ->
        forall parts,
          for_each as_str (t :: ts) = OK parts ->
          as_str (TransformationList (components t ++ ts)) = OK (str_join " " parts)).
Proof.
  intros Hnone Hne. split; [now apply chain_from_none |].
  intros Hempty parts Hparts. rewrite as_str_list, for_each_app.
  cbn [for_each] in Hparts.
  destruct (as_str t) as [a|] eqn:Ha; cbn [bind] in Hparts; [| discriminate].
  destruct (for_each as_str ts) as [qs|]; cbn [bind] in Hparts; [| discriminate].
  inversion Hparts; subst parts.
  destruct t as [x y|angle anchor|sx sy|[|t' l]|n t'|n angle anchor s];
    cbn [components]; try discriminate;
    try (rewrite for_each_one, Ha; reflexivity).
  rewrite as_str_list in Ha.
  destruct (for_each as_str (t' :: l)) as [ps|] eqn:Hps; cbn [bind] in Ha |- *;
    [| discriminate].
  inversion Ha; subst a. f_equal. symmetry. apply str_join_flatten.
  intros ->. apply for_each_length in Hps. discriminate.
Qed.

Lemma for_each_pure {A B : Type} (g : A -> B) (xs : list A) :
  for_each (fun x => OK (g x)) xs = OK (map g xs).
Proof.
  induction xs as [|x xs IH]; [reflexivity |].
  cbn [for_each map bind]. now rewrite IH.
Qed.

Lemma Repeat_apply_iterates (n : Z) (t : Transformation) (shape : Shape) :
  1 <= n ->
  apply (Repeat n t) shape =
  (shapes <- for_each (fun k => iterate_apply t k shape) (seq 0 (Z.to_nat n)) ;;
   OK (Group shapes [])).
Proof.
  intros Hn. cbn [apply]. rewrite repeat_loop_iterates.
  replace (Z.to_nat n) with (S (Z.to_nat (n - 1))) by lia.
  cbn [seq for_each iterate_apply bind].
  rewrite <- seq_shift, for_each_map.
  now destruct (for_each _ (seq 0 (Z.to_nat (n - 1)))).
Qed.

Lemma iterate_apply_foldl (t : Transformation) (k : nat) (shape : Shape) :
  applies_directly t = true ->
  iterate_apply t k shape = OK (foldl apply_transform shape (replicate k t)).
Proof.
  intros Ht. revert shape; induction k as [|k IH]; intros shape; [reflexivity |].
  cbn [iterate_apply replicate foldl]. rewrite apply_directly by exact Ht.
  cbn [bind]. apply IH.
Qed.

(** X5.  [shape | Repeat(n, t)], for [n >= 1], a [t] that attaches itself and
    a [shape] that carries no transformation, is the shape with the tag [g],
    no attribute, no transformation and these [n] children, each with the
    tag, children and attributes of [shape]: [shape] itself, then [shape]
    with the transformation [t], then, for [k >= 2], [shape] with the list
    of the components of [t] followed by [k - 1] times [t]. *)
Theorem Repeat_member_transforms (n : Z) (t : Transformation) (shape : Shape) :
  1 <= n -> applies_directly t = true -> transform shape = None ->
  let member k :=
    match k with
    | O => shape
    | S O => mkShape (tag shape) (children shape) (attrs shape) (Some t)
    | S (S k') =>
        mkShape (tag shape) (children shape) (attrs shape)
          (Some (TransformationList (components t ++ replicate (S k') t)))
    end in
  apply (Repeat n t) shape =
  OK (mkShape "g" (Some (map member (seq 0 (Z.to_nat n)))) [] None)
  /\ length (map member (seq 0 (Z.to_nat n))) = Z.to_nat n
  /\ forall group, apply (Repeat n t) shape = OK group ->
       children group = Some (map member (seq 0 (Z.to_nat n))).
Proof.
  intros Hn Ht Hnone member.
  assert (Hrun : apply (Repeat n t) shape =
                 OK (mkShape "g" (Some (map member (seq 0 (Z.to_nat n)))) [] None)).
  { rewrite Repeat_apply_iterates by exact Hn.
    assert (Hiter : forall k, iterate_apply t k shape = OK (member k)).
    { intros k. rewrite iterate_apply_foldl by exact Ht.
      destruct k as [|[|k]]; [reflexivity | |].
      - cbn [replicate foldl member]. unfold apply_transform.
        cbn [clone set_transform tag children attrs transform]. now rewrite Hnone.
      - f_equal. change (replicate (S (S k)) t) with (t :: replicate (S k) t).
        apply chain_from_none; [exact Hnone | discriminate]. }
    rewrite (for_each_ext _ _ _ Hiter).
    now rewrite for_each_pure. }
  split; [exact Hrun |].
  split; [now rewrite length_map, length_seq |].
  intros group Hgroup. rewrite Hrun in Hgroup. now inversion Hgroup.
Qed.

(** ** Cycle with int parameters *)

Lemma combine_map_self {A B : Type} (g : A -> B) (xs : list A) :
  List.combine xs (map g xs) = map (fun x => (x, g x)) xs.
Proof. induction xs as [|x xs IH]; [reflexivity | cbn; now rewrite IH]. Qed.

Lemma range_length (n : Z) : length (range n) = Z.to_nat n.
Proof. unfold range. now rewrite length_map, length_seq. Qed.

Lemma enumerate_map_range {B : Type} (g : Z -> B) (n : Z) :
  enumerate (map g (range n)) = map (fun k => (k, g k)) (range n).
Proof.
  unfold enumerate. rewrite length_map, range_length.
  replace (range (Z.of_nat (Z.to_nat n))) with (range n).
  - apply combine_map_self.
  - unfold range. now rewrite Nat2Z.id.
Qed.

(** X6.  [shape | Cycle(n, anchor, s, angle)] with an int [angle] returns, for
    every [n], the shape with the tag [g], no attribute, no transformation
    and [Z.to_nat n] children, one for each [k] of [range(n)] in order.
    Child [k] has the tag, children and attributes of [shape], and its
    transformation is [Rotate(k * angle, anchor)], joined after the
    transformation of [shape] when it has one; when an int scale [s] is
    given, [Scale(s ** k, s ** k)] is joined after that.  No child for
    [n <= 0]. *)
Theorem Cycle_int_members (n angle : Z) (anchor : Point) (shape : Shape) :
  let with_transform t :=
    mkShape (tag shape) (children shape) (attrs shape) (Some t) in
  let after t :=
    match transform shape with
    | Some t0 => Transformation_or t0 t
    | None => t
    end in
  let rotated := map (fun k => with_transform (after (Rotate (Int (k * angle)) anchor)))
                   (range n) in
  let scaled s := map (fun k =>
                         with_transform
                           (Transformation_or (after (Rotate (Int (k * angle)) anchor))
                              (Scale (Int (s ^ k)) (Int (s ^ k)))))
                    (range n) in
  apply (Cycle n (Int angle) anchor None) shape = OK (mkShape "g" (Some rotated) [] None)
  /\ (forall s,
        apply (Cycle n (Int angle) anchor (Some (Int s))) shape =
        OK (mkShape "g" (Some (scaled s)) [] None))
  /\ (forall s group,
        (apply (Cycle n (Int angle) anchor None) shape = OK group ->
           children group = Some rotated)
        /\ (apply (Cycle n (Int angle) anchor (Some (Int s))) shape = OK group ->
              children group = Some (scaled s)))
  /\ (forall s, length rotated = Z.to_nat n /\ length (scaled s) = Z.to_nat n)
  /\ (transform shape = None ->
        forall k s,
          after (Rotate (Int (k * angle)) anchor) = Rotate (Int (k * angle)) anchor
          /\ Transformation_or (after (Rotate (Int (k * angle)) anchor))
               (Scale (Int (s ^ k)) (Int (s ^ k)))
             = TransformationList [Rotate (Int (k * angle)) anchor;
                                   Scale (Int (s ^ k)) (Int (s ^ k))])
  /\ length (range n) = Z.to_nat n
  /\ (n <= 0 -> range n = []).
Proof.
  intros with_transform after rotated scaled.
  assert (Hmember : forall r, apply_transform shape r = with_transform (after r)).
  { intros r. reflexivity. }
  assert (Hrot : for_each (fun i =>
                   a <- num_mul (Int i) (Int angle) ;;
                   OK (apply_transform shape (Rotate_init a (Some anchor)))) (range n) =
                 OK rotated).
  { apply (for_each_pure
             (fun k => with_transform (after (Rotate (Int (k * angle)) anchor)))). }
  assert (Hplain : apply (Cycle n (Int angle) anchor None) shape
                   = OK (mkShape "g" (Some rotated) [] None)).
  { cbn [apply]. now rewrite Hrot. }
  assert (Hscaled : forall s,
            apply (Cycle n (Int angle) anchor (Some (Int s))) shape
            = OK (mkShape "g" (Some (scaled s)) [] None)).
  { intros s. cbn [apply]. rewrite Hrot. cbn [bind]. subst rotated.
    rewrite enumerate_map_range, for_each_map.
    rewrite (for_each_pure
               (fun k => with_transform
                           (Transformation_or (after (Rotate (Int (k * angle)) anchor))
                              (Scale (Int (s ^ k)) (Int (s ^ k)))))).
    reflexivity. }
  split; [exact Hplain |]. split; [exact Hscaled |].
  split.
  { intros s group. split; intros Hgroup.
    - rewrite Hplain in Hgroup. now inversion Hgroup.
    - rewrite Hscaled in Hgroup. now inversion Hgroup. }
  split.
  { intros s. subst rotated scaled. cbn beta. now rewrite !length_map, range_length. }
  split.
  { intros Hnone k s. subst after. cbn beta. now rewrite Hnone. }
  split; [apply range_length |].
  intros Hn. unfold range. now replace (Z.to_nat n) with 0%nat by lia.
Qed.

(** ** Counts at the edge *)

(** X7.  [Repeat(n, t)] with [n <= 1], negative counts included, never
    applies [t], whatever [t] would do: it returns the shape with the tag
    [g] whose only child is [shape], which renders as the markup of [shape]
    between [<g>] and [</g>].  [Cycle] with [n <= 0] returns the shape with
    the tag [g] and an empty list of children, whatever its angle, anchor
    and scale, which renders as the one tag [<g />]. *)
Theorem small_counts (n : Z) (shape : Shape) :
  (n <= 1 -> forall t,
     apply (Repeat n t) shape = OK (mkShape "g" (Some [shape]) [] None)
     /\ forall indent,
          (group <- apply (Repeat n t) shape ;; _svg indent group) =
          (inner <- _svg (indent +:+ "  ") shape ;;
           OK (indent +:+ "<g>" +:+ newline +:+ inner
                 +:+ indent +:+ "</g>" +:+ newline)))
  /\ (n <= 0 -> forall angle anchor s,
        apply (Cycle n angle anchor s) shape = OK (mkShape "g" (Some []) [] None)
        /\ forall indent,
             (group <- apply (Cycle n angle anchor s) shape ;; _svg indent group) =
             OK (indent +:+ "<g />" +:+ newline)).
Proof.
  split.
  - intros Hn t.
    assert (Hrun : apply (Repeat n t) shape = OK (mkShape "g" (Some [shape]) [] None)).
    { cbn [apply]. now replace (Z.to_nat (n - 1)) with 0%nat by lia. }
    split; [exact Hrun |].
    intros indent. rewrite Hrun. cbn [bind _svg for_each].
    unfold get_attrs, call_render_tag. cbn [transform attrs bind dict_mem dict_get orb].
    destruct (_svg (indent +:+ "  ") shape) as [inner|e]; cbn [bind]; [| reflexivity].
    unfold render_tag. cbn [str_concat foldr]. now normalize_append.
  - intros Hn angle anchor s.
    assert (Hrun : apply (Cycle n angle anchor s) shape
                   = OK (mkShape "g" (Some []) [] None)).
    { cbn [apply]. unfold range.
      replace (Z.to_nat n) with 0%nat by lia. now destruct s. }
    split; [exact Hrun |].
    intros indent. rewrite Hrun. reflexivity.
Qed.

(** ** The anchor that is left out *)

Lemma int_eq_float_zero (f : float) : int_eq_float 0 f = is_zero (Float f).
Proof.
  unfold int_eq_float, is_zero.
  destruct (Prim2SF f) as [s| | |s m e]; try reflexivity.
  destruct (0 <=? e) eqn:He.
  - apply Z.leb_le in He. apply Z.eqb_neq.
    pose proof (Z.pow_pos_nonneg 2 e ltac:(lia) He).
    destruct s; nia.
  - rewrite Z.mul_0_l. now destruct s.
Qed.

Lemma Point_eq_origin (anchor : Point) :
  Point_eq anchor origin = is_zero (Point_x anchor) && is_zero (Point_y anchor).
Proof.
  unfold Point_eq. cbn [origin Point_x Point_y].
  assert (Hnum : forall c, num_eq (Int 0) c = is_zero c).
  { intros [z|f]; cbn [num_eq is_zero]; [apply Z.eqb_sym | apply int_eq_float_zero]. }
  now rewrite !Hnum.
Qed.

(** X8.  [Rotate] writes the one-argument form exactly when both coordinates of
    the anchor are zero: the int [0], the float [0.0] or the float [-0.0],
    in any mix.  A float coordinate is zero only if it is one of the two
    float zeros. *)
Theorem Rotate_zero_anchor (angle : number) (anchor : Point) :
  as_str (Rotate angle anchor) =
  OK (if is_zero (Point_x anchor) && is_zero (Point_y anchor)
      then "rotate(" +:+ str_number angle +:+ ")"
      else "rotate(" +:+ str_number angle +:+ " " +:+ str_number (Point_x anchor)
             +:+ " " +:+ str_number (Point_y anchor) +:+ ")")
  /\ (forall f, is_zero (Float f) = true -> f = 0%float \/ f = (-0)%float)
  /\ is_zero (Float 0) = true /\ is_zero (Float (-0)) = true
  /\ (forall z, is_zero (Int z) = true -> z = 0).
Proof.
  split; [| split; [| split; [| split]]].
  - cbn [as_str]. rewrite Point_eq_origin.
    now destruct (is_zero (Point_x anchor) && is_zero (Point_y anchor)).
  - intros f Hf. cbn [is_zero] in Hf.
    rewrite <- (SF2Prim_Prim2SF f).
    destruct (Prim2SF f) as [[|]| | |]; try discriminate; [now right | now left].
  - reflexivity.
  - reflexivity.
  - intros z Hz. now apply Z.eqb_eq in Hz.
Qed.

(** ** What reaches the markup *)

Lemma str_forall_app (p : ascii -> bool) (a b : string) :
  str_forall p (a +:+ b) = str_forall p a && str_forall p b.
Proof.
  induction a as [|c a IH]; [reflexivity |].
  cbn [String.append str_forall]. now rewrite IH, andb_assoc.
Qed.

Lemma str_forall_str_map (p : ascii -> bool) (f : ascii -> string) (s : string) :
  (forall c, str_forall p (f c) = true) -> str_forall p (str_map f s) = true.
Proof.
  intros Hf. induction s as [|c s IH]; [reflexivity |].
  cbn [str_map]. now rewrite str_forall_app, Hf, IH.
Qed.

Lemma html_escape_no_reserved (s : string) :
  str_forall (fun c => negb (reserved c)) (html_escape s) = true.
Proof.
  apply str_forall_str_map. intros c. unfold escape_char.
  destruct (Ascii.eqb c "&") eqn:Hamp; [reflexivity |].
  destruct (Ascii.eqb c "<") eqn:Hlt; [reflexivity |].
  destruct (Ascii.eqb c ">") eqn:Hgt; [reflexivity |].
  destruct (Ascii.eqb c (ascii_of_nat 34)) eqn:Hdq; [reflexivity |].
  destruct (Ascii.eqb c "'") eqn:Hsq; [reflexivity |].
  cbn [str_forall]. unfold reserved. now rewrite Hlt, Hgt, Hdq, Hsq.
Qed.

Lemma replace_underscore_none (k : string) :
  str_forall (fun c => negb (Ascii.eqb c "_")) (replace_underscore k) = true.
Proof.
  apply str_forall_str_map. intros c.
  destruct (Ascii.eqb c "_") eqn:Hc; [reflexivity |].
  cbn [str_forall]. now rewrite Hc.
Qed.

(** X9.  Every attribute [render_tag] writes has a name with no underscore left
    in it and a value with no less-than, greater-than or quote character in
    it, so that the value cannot end the attribute or the tag it is written
    in. *)
Theorem rendered_items_clean (attrs : dict) :
  Forall (fun item =>
            str_forall (fun c => negb (Ascii.eqb c "_")) (fst item) = true
            /\ str_forall (fun c => negb (reserved c)) (snd item) = true)
         (render_items attrs).
Proof.
  induction attrs as [|[k v] attrs IH]; [constructor |].
  unfold render_items. cbn [omap list_omap].
  destruct v as [|n|s]; [exact IH | |]; constructor; try exact IH;
    (split; [apply replace_underscore_none | apply html_escape_no_reserved]).
Qed.

(** The case analysis of [escape_char]: the character is one of the five
    replaced ones, or it is kept. *)
Ltac escape_cases c :=
  unfold escape_char;
  destruct (Ascii.eqb_spec c "&") as [->|?]; [|
  destruct (Ascii.eqb_spec c "<") as [->|?]; [|
  destruct (Ascii.eqb_spec c ">") as [->|?]; [|
  destruct (Ascii.eqb_spec c (ascii_of_nat 34)) as [->|?]; [|
  destruct (Ascii.eqb_spec c "'") as [->|?]]]]].

Lemma escape_char_inj (a b : ascii) (s t : string) :
  escape_char a +:+ s = escape_char b +:+ t -> a = b /\ s = t.
Proof.
  escape_cases a; escape_cases b; cbn; intros Heq;
    try (injection Heq; intros; subst; now split);
    try (injection Heq; intros; subst; congruence);
    try discriminate.
Qed.

(** [html.escape] loses nothing: two values with the same escaped text are
    the same value. *)
Theorem html_escape_injective (s t : string) :
  html_escape s = html_escape t -> s = t.
Proof.
  unfold html_escape. revert t; induction s as [|a s IH]; intros [|b t]; cbn [str_map].
  - reflexivity.
  - intros Heq. exfalso. revert Heq. escape_cases b; discriminate.
  - intros Heq. exfalso. revert Heq. escape_cases a; discriminate.
  - intros Heq. apply escape_char_inj in Heq as [-> Heq]. now rewrite (IH t Heq).
Qed.

(** A tag whose attributes are all [None] is written with a space after its
    name and nothing else before its end, where a tag with no attribute at
    all is written without the space. *)
Theorem render_tag_without_items (tag : string) (close : bool) (attrs : dict) :
  Forall (fun item => snd item = VNone) attrs ->
  render_tag tag close attrs =
  "<" +:+ tag +:+ match attrs with [] => "" | _ :: _ => " " end
      +:+ (if close then " />" else ">").
Proof.
  intros Hnone.
  assert (Hitems : render_items attrs = []).
  { induction Hnone as [|[k v] attrs Hv _ IH]; [reflexivity |].
    cbn in Hv. subst v. exact IH. }
  unfold render_tag, render_attrs_text. rewrite Hitems.
  destruct attrs; reflexivity.
Qed.

(** ** The attributes a shape is rendered with *)

Lemma dict_set_new (k : string) (v : value) (d : dict) :
  dict_mem k d = false -> dict_set k v d = d ++ [(k, v)].
Proof.
  unfold dict_mem. induction d as [|[k1 v1] d IH]; cbn [dict_get dict_set app]; [easy |].
  destruct (String.eqb k k1); [discriminate |].
  intros Hd. now rewrite IH.
Qed.

(** X10.  For a shape with a transformation that has a text, [get_attrs] returns
    the shape's attributes with the key [transform] bound to that text:
    looking up [transform] gives the text, looking up any other key gives
    what the shape's own attributes give, and when the shape has no
    attribute of that name the new one comes last. *)
Theorem get_attrs_adds_transform (shape : Shape) (t : Transformation) (text : string) :
  transform shape = Some t -> as_str t = OK text ->
  exists d,
    get_attrs shape = OK d
    /\ dict_get "transform" d = Some (VStr text)
    /\ (forall k, k <> "transform" -> dict_get k d = dict_get k (attrs shape))
    /\ (dict_mem "transform" (attrs shape) = false ->
          d = attrs shape ++ [("transform", VStr text)]).
Proof.
  intros Ht Htext. exists (dict_set "transform" (VStr text) (attrs shape)).
  split; [unfold get_attrs; now rewrite Ht, Htext |].
  split; [now rewrite dict_get_set |]. split.
  - intros k Hk. rewrite dict_get_set.
    now destruct (String.eqb_spec k "transform").
  - apply dict_set_new.
Qed.

(** ** Lines and indentation *)

Lemma append_empty_r (s : string) : s +:+ "" = s.
Proof. induction s as [|c s IH]; cbn [String.append]; [reflexivity | now rewrite IH]. Qed.

Lemma str_concat_cons (a : string) (parts : list string) :
  str_concat (a :: parts) = a +:+ str_concat parts.
Proof.
  unfold str_concat. destruct parts as [|b parts]; [now rewrite append_empty_r |].
  reflexivity.
Qed.

Lemma str_concat_app (ps qs : list string) :
  str_concat (ps ++ qs) = str_concat ps +:+ str_concat qs.
Proof.
  induction ps as [|a ps IH]; [reflexivity |].
  cbn [app]. now rewrite !str_concat_cons, IH, append_assoc.
Qed.

Lemma write_lines_app (indent : string) (ls ms : list string) :
  write_lines indent (ls ++ ms) = write_lines indent ls +:+ write_lines indent ms.
Proof. unfold write_lines. now rewrite map_app, str_concat_app. Qed.

Lemma write_lines_one (indent line : string) :
  write_lines indent [line] = indent +:+ line +:+ newline.
Proof. reflexivity. Qed.

Lemma write_lines_deeper (indent : string) (ls : list string) :
  write_lines indent (map (fun line => "  " +:+ line) ls) =
  write_lines (indent +:+ "  ") ls.
Proof.
  unfold write_lines. rewrite map_map. f_equal.
  apply map_ext. intros line. now rewrite !append_assoc.
Qed.

Lemma write_lines_concat (indent : string) (inner : list (list string)) :
  str_concat (map (write_lines indent) inner) = write_lines indent (concat inner).
Proof.
  induction inner as [|ls inner IH]; [reflexivity |].
  cbn [map concat]. now rewrite str_concat_cons, write_lines_app, IH.
Qed.

Lemma for_each_then_map {A B C : Type} (f : A -> result C) (g : A -> result B)
    (h : B -> C) (xs : list A) :
  Forall (fun x => f x = (y <- g x ;; OK (h y))) xs ->
  for_each f xs = (ys <- for_each g xs ;; OK (map h ys)).
Proof.
  induction 1 as [|x xs Hx _ IH]; [reflexivity |].
  cbn [for_each]. rewrite Hx, IH.
  destruct (g x) as [y|]; cbn [bind]; [| reflexivity].
  now destruct (for_each g xs).
Qed.

(** X11.  The indentation is cosmetic: [_svg] writes the same lines whatever
    [indent] is, each after [indent] and before a line feed, a child's lines
    two spaces further in than its parent's tags; and whether it raises, and
    what, does not depend on [indent]. *)
Theorem _svg_indents_lines (shape : Shape) (indent : string) :
  _svg indent shape = (lines <- svg_lines shape ;; OK (write_lines indent lines)).
Proof.
  revert indent.
  induction shape as [tg ch at_ tr IH] using Shape_nested_ind. intros indent.
  cbn [_svg svg_lines].
  destruct (get_attrs (mkShape tg ch at_ tr)) as [d|]; cbn [bind]; [| reflexivity].
  destruct ch as [[|c cs]|].
  - now destruct (call_render_tag tg d true).
  - destruct (call_render_tag tg d false) as [tag_text|]; cbn [bind]; [| reflexivity].
    rewrite (for_each_then_map (_svg (indent +:+ "  ")) svg_lines
               (write_lines (indent +:+ "  ")) (c :: cs)).
    2:{ eapply Forall_impl; [exact (IH _ eq_refl) |]. intros child Hchild. apply Hchild. }
    destruct (for_each svg_lines (c :: cs)) as [inner|]; cbn [bind]; [| reflexivity].
    f_equal. rewrite write_lines_concat, !write_lines_app, write_lines_deeper.
    rewrite !write_lines_one. now normalize_append.
  - now destruct (call_render_tag tg d true).
Qed.

(** ** Groups *)

(** X12.  [combine] keeps the order and the nesting: the markup of a group is the
    opening tag, the markup of each member in the order given, two spaces
    further in, and the closing tag, so that what comes from the first
    shapes stands wholly before what comes from the later ones; a group of
    nothing is one self-closing tag; and [a + b] is [combine(a, b)]. *)
Theorem combine_keeps_order (first later : list Shape) (indent : string) :
  (first ++ later <> [] ->
     _svg indent (combine (first ++ later)) =
     (a <- for_each (_svg (indent +:+ "  ")) first ;;
      b <- for_each (_svg (indent +:+ "  ")) later ;;
      OK (indent +:+ "<g>" +:+ newline
            +:+ str_concat a +:+ str_concat b
            +:+ indent +:+ "</g>" +:+ newline)))
  /\ _svg indent (combine []) = OK (indent +:+ "<g />" +:+ newline)
  /\ (forall a b, Shape_add a b = combine [a; b]).
Proof.
  split; [| split; reflexivity].
  intros Hne. unfold combine, Group, Shape_init. cbn [_svg get_attrs transform attrs bind].
  destruct (first ++ later) as [|c cs] eqn:Hall; [congruence |].
  rewrite call_render_tag_outcome. cbn [dict_mem dict_get orb bind render_tag].
  rewrite <- Hall, for_each_app.
  destruct (for_each _ first) as [a|]; cbn [bind]; [| reflexivity].
  destruct (for_each _ later) as [b|]; cbn [bind]; [| reflexivity].
  f_equal. rewrite str_concat_app. now normalize_append.
Qed.

(** ** The shape constructors *)

Lemma dict_get_app (k : string) (a b : dict) :
  dict_get k (a ++ b) =
  match dict_get k a with
  | Some v => Some v
  | None => dict_get k b
  end.
Proof.
  induction a as [|[k1 v1] a IH]; cbn [app dict_get]; [reflexivity |].
  now destruct (String.eqb k k1).
Qed.

Lemma merge_kwargs_ok (own kwargs attrs : dict) :
  merge_kwargs own kwargs = OK attrs ->
  attrs = own ++ kwargs
  /\ forall k v, dict_get k kwargs = Some v -> dict_mem k own = false.
Proof.
  unfold merge_kwargs.
  destruct (existsb _ kwargs) eqn:Hdup; [discriminate |].
  intros [= <-]. split; [reflexivity |].
  induction kwargs as [|[k1 v1] kwargs IH]; intros k v; cbn [dict_get]; [discriminate |].
  cbn [existsb] in Hdup. apply orb_false_elim in Hdup as [Hk1 Hrest].
  destruct (String.eqb_spec k k1) as [-> | _]; [now intros _ | now apply IH].
Qed.

Lemma merge_kwargs_getattr (tag : string) (own kwargs merged : dict) :
  merge_kwargs own kwargs = OK merged ->
  (forall k v, startswith k "_" = false -> dict_get k own = Some v ->
     __getattr__ (Shape_init tag None None merged) k = OK v)
  /\ (forall k v, startswith k "_" = false -> dict_get k kwargs = Some v ->
        __getattr__ (Shape_init tag None None merged) k = OK v).
Proof.
  intros Hmerge. apply merge_kwargs_ok in Hmerge as [-> Hfree].
  unfold __getattr__. cbn [Shape_init attrs].
  split; intros k v -> Hk; cbn [negb]; rewrite dict_get_app.
  - now rewrite Hk.
  - specialize (Hfree k v Hk). unfold dict_mem in Hfree.
    destruct (dict_get k own); [discriminate | now rewrite Hk].
Qed.

(** X13.  A shape built by [Circle], [Line], [Ellipse] or [Rectangle] from keyword
    arguments that are attributes has no children and no transformation; its
    attributes are the constructor's own followed by the keyword arguments
    as given, none of them repeating one of the constructor's own; and
    [__getattr__] returns the value of every keyword argument, unless its
    name starts with an underscore. *)
Theorem keyword_arguments_pass_through (shape : Shape) (kwargs : dict) :
  attribute_keywords kwargs = true ->
  (exists center radius, Circle center radius kwargs = OK shape)
  \/ (exists start end_, Line start end_ kwargs = OK shape)
  \/ (exists center width height, Ellipse center width height kwargs = OK shape)
  \/ (exists center width height, Rectangle center width height kwargs = OK shape) ->
  children shape = None
  /\ transform shape = None
  /\ (exists own,
        attrs shape = own ++ kwargs
        /\ forall k v, dict_get k kwargs = Some v -> dict_mem k own = false)
  /\ (forall k v, startswith k "_" = false -> dict_get k kwargs = Some v ->
        __getattr__ shape k = OK v).
Proof.
  assert (Hbuilt : forall tag own,
            (attrs' <- merge_kwargs own kwargs ;; OK (Shape_init tag None None attrs'))
            = OK shape ->
            children shape = None /\ transform shape = None
            /\ (exists own, attrs shape = own ++ kwargs
                  /\ forall k v, dict_get k kwargs = Some v -> dict_mem k own = false)
            /\ (forall k v, startswith k "_" = false -> dict_get k kwargs = Some v ->
                  __getattr__ shape k = OK v)).
  { intros tag own Hshape.
    destruct (merge_kwargs own kwargs) as [attrs'|] eqn:Hmerge; cbn [bind] in Hshape;
      [| discriminate].
    inversion Hshape; subst shape. split; [reflexivity |]. split; [reflexivity |].
    split.
    - exists own. now apply merge_kwargs_ok.
    - now apply (merge_kwargs_getattr tag own). }
  intros _ [(center & radius & Hc) | [(start & end_ & Hl)
         | [(center & width & height & He) | (center & width & height & Hr)]]].
  - exact (Hbuilt _ _ Hc).
  - exact (Hbuilt _ _ Hl).
  - unfold Ellipse in He.
    destruct (num_truediv width (Int 2)); cbn [bind] in He; [| discriminate].
    destruct (num_truediv height (Int 2)); cbn [bind] in He; [| discriminate].
    exact (Hbuilt _ _ He).
  - unfold Rectangle in Hr.
    destruct (num_truediv width (Int 2)); cbn [bind] in Hr; [| discriminate].
    destruct (num_sub (Point_x center) _); cbn [bind] in Hr; [| discriminate].
    destruct (num_truediv height (Int 2)); cbn [bind] in Hr; [| discriminate].
    destruct (num_sub (Point_y center) _); cbn [bind] in Hr; [| discriminate].
    exact (Hbuilt _ _ Hr).
Qed.

(** X14.  What a constructor was given is what [__getattr__] returns from the
    shape, for keyword arguments that are attributes: centre and radius of a
    circle as [cx], [cy] and [r]; the end points of a line as [x1], [y1],
    [x2] and [y2]; the centre of an ellipse as [cx] and [cy], with [rx] and
    [ry] the halves of width and height; width and height of a rectangle as
    given, with [x] and [y] the centre less the halves. *)
Theorem geometry_read_back (kwargs : dict) (shape : Shape) :
  attribute_keywords kwargs = true ->
  (forall center radius,
     Circle center radius kwargs = OK shape ->
     __getattr__ shape "cx" = OK (VNum (Point_x center))
     /\ __getattr__ shape "cy" = OK (VNum (Point_y center))
     /\ __getattr__ shape "r" = OK (VNum radius))
  /\ (forall start end_,
        Line start end_ kwargs = OK shape ->
        __getattr__ shape "x1" = OK (VNum (Point_x start))
        /\ __getattr__ shape "y1" = OK (VNum (Point_y start))
        /\ __getattr__ shape "x2" = OK (VNum (Point_x end_))
        /\ __getattr__ shape "y2" = OK (VNum (Point_y end_)))
  /\ (forall center width height,
        Ellipse center width height kwargs = OK shape ->
        __getattr__ shape "cx" = OK (VNum (Point_x center))
        /\ __getattr__ shape "cy" = OK (VNum (Point_y center))
        /\ exists rx ry,
             num_truediv width (Int 2) = OK rx
             /\ num_truediv height (Int 2) = OK ry
             /\ __getattr__ shape "rx" = OK (VNum rx)
             /\ __getattr__ shape "ry" = OK (VNum ry))
  /\ (forall center width height,
        Rectangle center width height kwargs = OK shape ->
        __getattr__ shape "width" = OK (VNum width)
        /\ __getattr__ shape "height" = OK (VNum height)
        /\ exists half_width half_height x y,
             num_truediv width (Int 2) = OK half_width
             /\ num_truediv height (Int 2) = OK half_height
             /\ num_sub (Point_x center) half_width = OK x
             /\ num_sub (Point_y center) half_height = OK y
             /\ __getattr__ shape "x" = OK (VNum x)
             /\ __getattr__ shape "y" = OK (VNum y)).
Proof.
  intros _. split; [| split; [| split]].
  - intros center radius Hshape. unfold Circle in Hshape.
    destruct (merge_kwargs _ kwargs) as [attrs'|] eqn:Hmerge; cbn [bind] in Hshape;
      [| discriminate].
    inversion Hshape; subst shape.
    destruct (merge_kwargs_getattr "circle" _ _ _ Hmerge) as [Hown _].
    repeat split; now apply Hown.
  - intros start end_ Hshape. unfold Line in Hshape.
    destruct (merge_kwargs _ kwargs) as [attrs'|] eqn:Hmerge; cbn [bind] in Hshape;
      [| discriminate].
    inversion Hshape; subst shape.
    destruct (merge_kwargs_getattr "line" _ _ _ Hmerge) as [Hown _].
    repeat split; now apply Hown.
  - intros center width height Hshape. unfold Ellipse in Hshape.
    destruct (num_truediv width (Int 2)) as [rx|] eqn:Hrx; cbn [bind] in Hshape;
      [| discriminate].
    destruct (num_truediv height (Int 2)) as [ry|] eqn:Hry; cbn [bind] in Hshape;
      [| discriminate].
    destruct (merge_kwargs _ kwargs) as [attrs'|] eqn:Hmerge; cbn [bind] in Hshape;
      [| discriminate].
    inversion Hshape; subst shape.
    destruct (merge_kwargs_getattr "ellipse" _ _ _ Hmerge) as [Hown _].
    split; [now apply Hown |]. split; [now apply Hown |].
    exists rx, ry. repeat split; try reflexivity; try assumption; now apply Hown.
  - intros center width height Hshape. unfold Rectangle in Hshape.
    destruct (num_truediv width (Int 2)) as [hw|] eqn:Hhw; cbn [bind] in Hshape;
      [| discriminate].
    destruct (num_sub (Point_x center) hw) as [x|] eqn:Hx; cbn [bind] in Hshape;
      [| discriminate].
    destruct (num_truediv height (Int 2)) as [hh|] eqn:Hhh; cbn [bind] in Hshape;
      [| discriminate].
    destruct (num_sub (Point_y center) hh) as [y|] eqn:Hy; cbn [bind] in Hshape;
      [| discriminate].
    destruct (merge_kwargs _ kwargs) as [attrs'|] eqn:Hmerge; cbn [bind] in Hshape;
      [| discriminate].
    inversion Hshape; subst shape.
    destruct (merge_kwargs_getattr "rect" _ _ _ Hmerge) as [Hown _].
    split; [now apply Hown |]. split; [now apply Hown |].
    exists hw, hh, x, y. repeat split; try reflexivity; try assumption; now apply Hown.
Qed.

Lemma existsb_common_key (own kwargs : dict) :
  existsb (fun '(k, _) => dict_mem k own) kwargs =
  existsb (fun '(k, _) => dict_mem k kwargs) own.
Proof.
  assert (Hmem : forall k d, dict_mem k d = existsb (fun '(k', _) => String.eqb k k') d).
  { intros k d. unfold dict_mem. induction d as [|[k1 v1] d IH]; cbn; [reflexivity |].
    destruct (String.eqb k k1); [reflexivity | exact IH]. }
  assert (Hcommon : forall a b : dict,
            existsb (fun '(k, _) => dict_mem k a) b = true ->
            existsb (fun '(k, _) => dict_mem k b) a = true).
  { intros a b Hab. apply existsb_exists in Hab as ([k v] & Hin & Hk).
    rewrite Hmem in Hk. apply existsb_exists in Hk as ([k' v'] & Hin' & Heq).
    apply String.eqb_eq in Heq as <-.
    apply existsb_exists. exists (k, v'). split; [exact Hin' |].
    rewrite Hmem. apply existsb_exists. exists (k, v). split; [exact Hin |].
    apply String.eqb_refl. }
  destruct (existsb _ kwargs) eqn:Hk.
  - symmetry. now apply Hcommon.
  - destruct (existsb _ own) eqn:Ho; [| reflexivity].
    apply Hcommon in Ho. congruence.
Qed.

(** X15.  Given keyword arguments that are attributes, so that none is given
    twice or named as a parameter of a constructor, [Circle] raises
    [TypeError] exactly when one of them is named [cx], [cy] or [r], and
    [Line] exactly when one is named [x1], [y1], [x2] or [y2]; otherwise
    they return the shape with the keyword arguments after their own
    attributes. *)
Theorem repeated_keyword_raises (kwargs : dict) :
  attribute_keywords kwargs = true ->
  (forall center radius,
     Circle center radius kwargs =
     if dict_mem "cx" kwargs || dict_mem "cy" kwargs || dict_mem "r" kwargs
     then Raise TypeError
     else OK (mkShape "circle" None
                ([("cx", VNum (Point_x center)); ("cy", VNum (Point_y center));
                  ("r", VNum radius)] ++ kwargs) None))
  /\ (forall start end_,
        Line start end_ kwargs =
        if dict_mem "x1" kwargs || dict_mem "y1" kwargs
           || dict_mem "x2" kwargs || dict_mem "y2" kwargs
        then Raise TypeError
        else OK (mkShape "line" None
                   ([("x1", VNum (Point_x start)); ("y1", VNum (Point_y start));
                     ("x2", VNum (Point_x end_)); ("y2", VNum (Point_y end_))] ++ kwargs)
                   None)).
Proof.
  intros _. split.
  - intros center radius. unfold Circle, merge_kwargs.
    rewrite existsb_common_key. cbn [existsb]. rewrite orb_false_r, !orb_assoc.
    now destruct (dict_mem "cx" kwargs || dict_mem "cy" kwargs || dict_mem "r" kwargs).
  - intros start end_. unfold Line, merge_kwargs.
    rewrite existsb_common_key. cbn [existsb]. rewrite orb_false_r, !orb_assoc.
    now destruct (dict_mem "x1" kwargs || dict_mem "y1" kwargs
                  || dict_mem "x2" kwargs || dict_mem "y2" kwargs).
Qed.

(** ** Images *)

Lemma for_each_renderable (indent : string) (shapes : list Shape) :
  match for_each (_svg indent) shapes with
  | OK _ => forallb renderable shapes = true
  | Raise e =>
      forallb renderable shapes = false
      /\ (e = AttributeError "as_str" \/ e = TypeError)
  end.
Proof.
  apply (for_each_outcome (_svg indent) renderable
           (fun e => e = AttributeError "as_str" \/ e = TypeError)).
  apply Forall_forall. intros shape _. apply _svg_outcome.
Qed.

(** X16.  [SVG.render] returns an image exactly when every node is renderable,
    and so do [as_svg] and the notebook representation of a single shape;
    the only errors are the [AttributeError] of a transformation without
    [as_str] and the [TypeError] of an attribute named [tag] or [close]. *)
Theorem image_raises_on_obstacle (svg : SVG) (shape : Shape) (width height : Z) :
  ((exists text, SVG_render svg = OK text) <-> forallb renderable (nodes svg) = true)
  /\ (forall e, SVG_render svg = Raise e ->
        e = AttributeError "as_str" \/ e = TypeError)
  /\ ((exists text, as_svg shape width height = OK text) <-> renderable shape = true)
  /\ ((exists text, Shape_repr_svg shape = OK text) <-> renderable shape = true)
  /\ (forall e, as_svg shape width height = Raise e ->
        renderable shape = false /\ (e = AttributeError "as_str" \/ e = TypeError)).
Proof.
  assert (Hrender : forall svg',
            ((exists text, SVG_render svg' = OK text)
             <-> forallb renderable (nodes svg') = true)
            /\ (forall e, SVG_render svg' = Raise e ->
                  forallb renderable (nodes svg') = false
                  /\ (e = AttributeError "as_str" \/ e = TypeError))).
  { intros svg'. unfold SVG_render.
    pose proof (for_each_renderable "  " (nodes svg')) as Hnodes.
    destruct (for_each (_svg "  ") (nodes svg')) as [texts|e0]; cbn [bind].
    - split; [| discriminate]. split; [now intros _ | intros _; eauto].
    - destruct Hnodes as [Hbad He0]. split.
      + split; [intros [text [=]] | congruence].
      + now intros e [= <-]. }
  assert (Hone : forall s, forallb renderable [s] = renderable s).
  { intros s. cbn [forallb]. apply andb_true_r. }
  split; [apply Hrender |]. split; [intros e He; now apply (Hrender svg) in He |].
  unfold Shape_repr_svg, as_svg.
  split; [| split].
  - rewrite <- Hone. apply (Hrender (mkSVG [shape] width height)).
  - rewrite <- Hone. apply (Hrender (mkSVG [shape] 300 300)).
  - intros e He. rewrite <- Hone. now apply (Hrender (mkSVG [shape] width height)).
Qed.

Lemma _svg_leaf (indent tag : string) (d : dict) :
  dict_mem "tag" d || dict_mem "close" d = false ->
  _svg indent (mkShape tag None d None)
  = OK (indent +:+ render_tag tag true d +:+ newline).
Proof.
  intros Hfree. cbn [_svg]. unfold get_attrs. cbn [transform attrs bind].
  unfold call_render_tag. now rewrite Hfree.
Qed.

Lemma show_border :
  Rectangle origin (Int 300) (Int 300) [("stroke", VStr "#ddd")] =
  OK (mkShape "rect" None
        [("x", VNum (Float (-150)%float)); ("y", VNum (Float (-150)%float));
         ("width", VNum (Int 300)); ("height", VNum (Int 300));
         ("stroke", VStr "#ddd")] None).
Proof. vm_compute. reflexivity. Qed.

(** X17.  [show] draws the border and the two axes before the shapes it is given:
    the image is the root element of a 300 by 300 picture, a light grey
    rectangle from (-150.0, -150.0), the two axes as lines, then the markup
    of every shape in order, two spaces in.  It returns an image exactly
    when every shape is renderable, and otherwise raises what rendering
    raises. *)
Theorem show_draws_markers_first (shapes : list Shape) :
  show shapes =
  (texts <- for_each (_svg "  ") shapes ;;
   OK (render_tag "svg" false
         [("width", VNum (Int 300)); ("height", VNum (Int 300));
          ("viewBox", VStr "-150 -150 300 300"); ("fill", VStr "none");
          ("stroke", VStr "black"); ("xmlns", VStr "http://www.w3.org/2000/svg")]
       +:+ newline
       +:+ "  " +:+ render_tag "rect" true
             [("x", VNum (Float (-150)%float)); ("y", VNum (Float (-150)%float));
              ("width", VNum (Int 300)); ("height", VNum (Int 300));
              ("stroke", VStr "#ddd")] +:+ newline
       +:+ "  " +:+ render_tag "line" true
             [("x1", VNum (Int (-150))); ("y1", VNum (Int 0));
              ("x2", VNum (Int 150)); ("y2", VNum (Int 0));
              ("stroke", VStr "#ddd")] +:+ newline
       +:+ "  " +:+ render_tag "line" true
             [("x1", VNum (Int 0)); ("y1", VNum (Int (-150)));
              ("x2", VNum (Int 0)); ("y2", VNum (Int 150));
              ("stroke", VStr "#ddd")] +:+ newline
       +:+ str_concat texts +:+ "</svg>" +:+ newline))%result
  /\ ((exists text, show shapes = OK text) <-> forallb renderable shapes = true)
  /\ (forall e, show shapes = Raise e ->
        e = AttributeError "as_str" \/ e = TypeError).
Proof.
  match goal with |- ?lhs = ?rhs /\ _ => assert (Hshow : lhs = rhs) end.
  { unfold show. rewrite show_border. cbn [bind].
    change (Line (mkPoint (Int (-150)) (Int 0)) (mkPoint (Int 150) (Int 0))
              [("stroke", VStr "#ddd")])
      with (OK (mkShape "line" None
                  [("x1", VNum (Int (-150))); ("y1", VNum (Int 0));
                   ("x2", VNum (Int 150)); ("y2", VNum (Int 0));
                   ("stroke", VStr "#ddd")] None)).
    change (Line (mkPoint (Int 0) (Int (-150))) (mkPoint (Int 0) (Int 150))
              [("stroke", VStr "#ddd")])
      with (OK (mkShape "line" None
                  [("x1", VNum (Int 0)); ("y1", VNum (Int (-150)));
                   ("x2", VNum (Int 0)); ("y2", VNum (Int 150));
                   ("stroke", VStr "#ddd")] None)).
    cbn [bind]. unfold SVG_render. cbn [nodes width height app for_each].
    rewrite !_svg_leaf by reflexivity. cbn [bind].
    destruct (for_each (_svg "  ") shapes) as [texts|e]; cbn [bind]; [| reflexivity].
    f_equal. rewrite !str_concat_cons.
    change (viewBox 300 300) with "-150 -150 300 300".
    now rewrite !append_assoc. }
  split; [exact Hshow |].
  rewrite Hshow.
  pose proof (for_each_renderable "  " shapes) as Hshapes.
  destruct (for_each (_svg "  ") shapes) as [texts|e0]; cbn [bind].
  - split; [| discriminate]. split; [now intros _ | intros _; eauto].
  - destruct Hshapes as [Hbad He0]. split.
    + split; [intros [text [=]] | congruence].
    + now intros e [= <-].
Qed.

(** ** The store *)

(** X18.  Applying a transformation in the store and rendering the instance it
    returns gives the text that the same application and rendering give on
    shape values, at every nesting depth from some depth on; and when one
    of the two applications raises, the other raises the same exception. *)
Theorem store_rendering_matches_values (h : Heap.heap) (shape : Heap.ref) (s : Shape)
    (t : Transformation) :
  Heap.closed h -> Heap.represents h shape s ->
  match Heap.apply t shape h with
  | OK (r, h') =>
      exists s' enough,
        apply t s = OK s'
        /\ forall depth indent, (enough <= depth)%nat ->
             Heap._svg depth h' indent r = _svg indent s'
  | Raise e => apply t s = Raise e
  end.
Proof.
  intros Hc Hshape.
  pose proof (apply_simulates t h shape s Hc Hshape) as Hsim.
  destruct (Heap.apply t shape h) as [[r h']|e]; cbn [Heap.simulates] in Hsim.
  - destruct (apply t s) as [s'|]; [| easy].
    destruct Hsim as (_ & _ & [enough Hread] & _).
    exists s', enough. split; [reflexivity |].
    intros depth indent Hdepth. apply _svg_shape_at.
    now apply (shape_at_le enough).
  - destruct (apply t s) as [|e']; [easy | now subst].
Qed.

Lemma building_start (h : Heap.heap) (items : list Heap.ref) :
  Heap.closed h -> Forall (Heap.is_instance h) items ->
  Heap.building h (length h) (h ++ [Heap.List items]).
Proof.
  intros Hc Hitems. split; [now apply prefix_app_r |].
  split; [| split; [lia |]].
  - apply closed_snoc; [exact Hc |]. cbn [Heap.refs_of].
    eapply Forall_impl; [exact Hitems |]. intros x Hx.
    apply is_instance_lt in Hx. cbn. lia.
  - exists items. split; [now apply list_lookup_middle |].
    eapply Forall_impl; [exact Hitems |]. intros x Hx.
    eapply is_instance_prefix; [exact Hx | now apply prefix_app_r].
Qed.

Lemma repeat_loop_appends (f : Heap.ref -> Heap.M Heap.ref) (h0 : Heap.heap)
    (shapes : Heap.ref) :
  (forall h shape, Heap.closed h -> Heap.is_instance h shape ->
     Heap.returns (f shape h) (Heap.fresh_instance h)) ->
  forall k h cur pre u h',
    Heap.building h0 shapes h -> Heap.is_instance h cur ->
    h !! shapes = Some (Heap.List pre) ->
    Heap.repeat_loop f shapes k cur h = OK (u, h') ->
    Heap.building h0 shapes h'
    /\ exists items,
         h' !! shapes = Some (Heap.List (pre ++ items))
         /\ length items = k
         /\ Forall (fun r => (length h <= r)%nat) items.
Proof.
  intros Hf. induction k as [|k IH]; intros h cur pre u h' Hb Hcur Hpre Hrun.
  - cbn in Hrun. injection Hrun as _ <-. split; [exact Hb |].
    exists []. rewrite app_nil_r. now repeat split.
  - cbn [Heap.repeat_loop] in Hrun. unfold Heap.sbind at 1 in Hrun.
    pose proof (Hf h cur ltac:(apply Hb) Hcur) as Hfresh.
    destruct (f cur h) as [[r h1]|e]; [| discriminate].
    cbn [Heap.returns] in Hfresh.
    destruct (list_append_step _ _ _ _ _ Hb Hfresh) as (h2 & Happ & Hb2 & Hr2 & _).
    unfold Heap.sbind at 1 in Hrun. rewrite Happ in Hrun.
    destruct Hfresh as (Hpre1 & _ & Hr & _).
    pose proof (prefix_lookup_Some _ _ _ _ Hpre Hpre1) as Hpre'.
    unfold Heap.list_append in Happ. rewrite Hpre' in Happ.
    injection Happ as <-.
    assert (Hlist : <[shapes := Heap.List (pre ++ [r])]> h1 !! shapes
                    = Some (Heap.List (pre ++ [r]))).
    { apply list_lookup_insert_eq. eapply lookup_lt_Some; eassumption. }
    destruct (IH _ r (pre ++ [r]) u h' Hb2 Hr2 Hlist Hrun)
      as (Hb' & items & Hl & Hlen & Hall).
    split; [exact Hb' |]. exists (r :: items).
    rewrite <- app_assoc in Hl. split; [exact Hl |].
    split; [cbn; now rewrite Hlen |].
    constructor; [exact Hr |].
    eapply Forall_impl; [exact Hall |]. intros x Hx. cbn beta in Hx.
    rewrite length_insert in Hx. apply prefix_length in Hpre1. lia.
Qed.

(** X19.  The group that [Repeat(n, t)] returns in the store holds the instance it
    was applied to, itself and not a copy, as its first child, followed by
    as many new instances as the loop ran; the group is a new [Group]
    instance with tag [g], an empty dict of attributes and no
    transformation. *)
Theorem Repeat_group_holds_original (h : Heap.heap) (shape : Heap.ref) (n : Z)
    (t : Transformation) (g : Heap.ref) (h' : Heap.heap) :
  Heap.closed h -> Heap.is_instance h shape ->
  Heap.apply (Repeat n t) shape h = OK (g, h') ->
  exists d items,
    h' !! g = Some (Heap.Instance (Heap.mkInstance "Group" "g" (Some (length h)) d None))
    /\ h' !! d = Some (Heap.Dict [])
    /\ h' !! length h = Some (Heap.List (shape :: items))
    /\ length items = Z.to_nat (n - 1)
    /\ Forall (fun r => (length h < r)%nat /\ Heap.is_instance h' r) items
    /\ (forall r, (r < length h)%nat -> h' !! r = h !! r).
Proof.
  intros Hc Hshape Hrun.
  cbn [Heap.apply] in Hrun. unfold Heap.sbind at 1, Heap.new in Hrun.
  pose proof (building_start h [shape] Hc ltac:(now constructor)) as Hb.
  unfold Heap.sbind at 1 in Hrun.
  destruct (Heap.repeat_loop _ _ _ _ _) as [[u h2]|e] eqn:Hloop; [| discriminate].
  rewrite Group_run in Hrun. injection Hrun as <- <-.
  destruct (repeat_loop_appends (Heap.apply t) h (length h) (apply_fresh t)
              _ _ shape [shape] u h2 Hb
              ltac:(eapply is_instance_prefix; [exact Hshape | now apply prefix_app_r])
              ltac:(now apply list_lookup_middle) Hloop)
    as (Hb2 & items & Hl & Hlen & Hall).
  destruct Hb2 as (Hpre2 & _ & _ & items2 & Hitems2 & Hinst2).
  rewrite Hl in Hitems2. injection Hitems2 as <-.
  assert (Hext : h2 `prefix_of`
            h2 ++ [Heap.Dict [];
                   Heap.Instance (Heap.mkInstance "Group" "g" (Some (length h))
                                    (length h2) None)])
    by now apply prefix_app_r.
  exists (length h2), items.
  split; [| split; [| split; [| split; [| split]]]].
  - rewrite lookup_app_r by lia.
    now replace (S (length h2) - length h2)%nat with 1%nat by lia.
  - rewrite lookup_app_r by lia. now rewrite Nat.sub_diag.
  - exact (prefix_lookup_Some _ _ _ _ Hl Hext).
  - exact Hlen.
  - apply Forall_forall. intros r Hr. split.
    + eapply Forall_forall in Hall; [| exact Hr]. cbn beta in Hall.
      rewrite length_app in Hall. cbn in Hall. lia.
    + eapply is_instance_prefix; [| exact Hext].
      eapply Forall_forall in Hinst2; [exact Hinst2 |]. now right.
  - intros r Hr. destruct (lookup_lt_is_Some_2 h r Hr) as [o Ho].
    rewrite Ho. eapply prefix_lookup_Some; [exact Ho |].
    now transitivity h2.
Qed.

End MoreProperties.

(** * Closed instances *)

#[local] Existing Instance example_runtime.
#[local] Existing Instance example_object_runtime.

(** C1 fails for a higher-order first transformation:
    [doc_circle | (Repeat(2, Translate(10, 0)) | Rotate(90))] attaches a list
    whose first component has no [as_str], so rendering raises
    [AttributeError], while [(doc_circle | Repeat(2, Translate(10, 0))) |
    Rotate(90)] renders a rotated group of two circles.  It also fails for an
    empty list on a shape that already carries a transformation: the chained
    form writes two spaces where the composed form writes one. *)
Lemma compose_then_apply_counterexample :
  let repeat := Repeat 2 (Translate (Int 10) (Int 0)) in
  let rotate := Rotate_init (Int 90) None in
  let moved := apply_transform doc_circle (Translate (Int 1) (Int 2)) in
  (composed <- apply (Transformation_or repeat rotate) doc_circle ;; _svg "" composed)
  = Raise (AttributeError "as_str")
  /\ (shape1 <- apply repeat doc_circle ;; chained <- apply rotate shape1 ;; _svg "" chained)
     = OK ("<g " +:+ render_attr "transform" "rotate(90)" +:+ ">" +:+ newline
           +:+ "  <circle " +:+ render_attr "cx" "100" +:+ " " +:+ render_attr "cy" "100"
           +:+ " " +:+ render_attr "r" "50" +:+ " />" +:+ newline
           +:+ "  <circle " +:+ render_attr "cx" "100" +:+ " " +:+ render_attr "cy" "100"
           +:+ " " +:+ render_attr "r" "50"
           +:+ " " +:+ render_attr "transform" "translate(10 0)" +:+ " />" +:+ newline
           +:+ "</g>" +:+ newline)
  /\ (composed <- apply (Transformation_or (TransformationList []) rotate) moved ;;
      get_attrs composed)
     = OK [("cx", VNum (Int 100)); ("cy", VNum (Int 100)); ("r", VNum (Int 50));
           ("transform", VStr "translate(1 2) rotate(90)")]
  /\ (shape1 <- apply (TransformationList []) moved ;; chained <- apply rotate shape1 ;;
      get_attrs chained)
     = OK [("cx", VNum (Int 100)); ("cy", VNum (Int 100)); ("r", VNum (Int 50));
           ("transform", VStr "translate(1 2)  rotate(90)")].
Proof. repeat split. Qed.

(** [Translate(10, 0)] and [Rotate(90)] on the circle of the doctests. *)
Lemma compose_then_apply_witness :
  let move := Translate (Int 10) (Int 0) in
  let rotate := Rotate_init (Int 90) None in
  (applies_directly move = true /\ applies_directly rotate = true
   /\ is_empty_list move = false)
  /\ (forall indent,
        _svg indent (apply_transform doc_circle (Transformation_or move rotate)) =
        _svg indent (apply_transform (apply_transform doc_circle move) rotate)).
Proof.
  split; [repeat split |].
  exact (proj1 (proj2 (proj2 (proj2
    (compose_then_apply doc_circle (Translate (Int 10) (Int 0)) (Rotate_init (Int 90) None)
       eq_refl eq_refl eq_refl))))).
Defined.

(** [doc_circle | Repeat(3, Translate(10, 0))] *)
Lemma Repeat_apply_members_witness :
  let move := Translate (Int 10) (Int 0) in
  1 <= 3
  /\ apply (Repeat 3 move) doc_circle =
     (shapes <- for_each (fun k => iterate_apply move k doc_circle) (seq 0 (Z.to_nat 3)) ;;
      OK (mkShape "g" (Some shapes) [] None))
  /\ apply (Repeat 3 move) doc_circle =
     OK (mkShape "g"
           (Some [doc_circle;
                  mkShape "circle" None (attrs doc_circle) (Some move);
                  mkShape "circle" None (attrs doc_circle)
                    (Some (TransformationList [move; move]))])
           [] None).
Proof.
  intros move.
  split; [lia |].
  pose proof (Repeat_apply_members 3 move doc_circle ltac:(lia)) as (Heq & _ & _ & Hthree).
  split; [exact Heq |].
  exact (proj1 Hthree).
Defined.

(** C5 fails for an odd size: on a 301 by 301 canvas the view box starts at
    [-150], not at [-150.5], so the rectangle is not centred; and on a 1 by 1
    canvas it starts at [-0]. *)
Lemma viewBox_counterexample :
  viewBox 301 301 = "-150 -150 301 301"
  /\ viewBox_centered 301 301 = "-150.5 -150.5 301 301"
  /\ String.eqb (viewBox 301 301) (viewBox_centered 301 301) = false
  /\ viewBox 1 1 = "-0 -0 1 1"
  /\ viewBox_centered 1 1 = "-0.5 -0.5 1 1".
Proof. repeat split. Qed.

(** The default canvas, 300 by 300. *)
Lemma SVG_render_root_witness :
  (0 < 300 /\ Z.even 300 = true)
  /\ viewBox 300 300 = viewBox_centered 300 300
  /\ viewBox 300 300 = "-150 -150 300 300".
Proof.
  split; [split; [lia | reflexivity] |].
  split; [| reflexivity].
  exact (proj2 (proj2 (SVG_render_root [] 300 300))
           ltac:(lia) ltac:(lia) eq_refl eq_refl).
Defined.

(** C7 fails when the name occurs elsewhere in the text:
    [Circle(stroke=None).as_svg()] contains [stroke] in its root element, and
    [Shape("circle", r=None)] renders as a tag whose name contains [r]. *)
Lemma None_attribute_counterexample :
  (shape <- Circle origin (Int 100) [("stroke", VNone)] ;;
   text <- as_svg shape 300 300 ;;
   OK (contains "stroke" text)) = OK true
  /\ _svg "" (Shape_init "circle" None None [("r", VNone)])
     = OK ("<circle  />" +:+ newline)
  /\ contains "r" ("<circle  />" +:+ newline) = true.
Proof. repeat split. Qed.

(** [Shape("circle", stroke=None, r=50)] renders as [Shape("circle", r=50)]. *)
Lemma None_attribute_not_rendered_witness :
  ([] ++ [("r", VNum (Int 50))] <> [] /\ "stroke" <> "tag" /\ "stroke" <> "close")
  /\ _svg "" (Shape_init "circle" None None ([] ++ ("stroke", VNone) :: [("r", VNum (Int 50))]))
     = _svg "" (Shape_init "circle" None None ([] ++ [("r", VNum (Int 50))])).
Proof.
  assert (Hhyp : [] ++ [("r", VNum (Int 50))] <> []
                 /\ "stroke" <> "tag" /\ "stroke" <> "close").
  { repeat split; discriminate. }
  split; [exact Hhyp |].
  destruct Hhyp as (H1 & H2 & H3).
  exact (proj2 (proj2 (None_attribute_not_rendered "stroke" [] [("r", VNum (Int 50))]))
           H1 H2 H3 "circle" None None "").
Defined.

(** C9 fails for a name that starts with an underscore: [Shape("g",
    _id=None)] has the key [_id], bound to [None]; the normal lookup does not
    find [_id], and the access raises. *)
Lemma getattr_counterexample :
  let shape := Shape_init "g" None None [("_id", VNone)] in
  dict_get "_id" (attrs shape) = Some VNone
  /\ __getattr__ shape "_id" = Raise (AttributeError "_id")
  /\ found_by_lookup "Shape" "_id" = false
  /\ getattr "Shape" shape "_id" = Raise (AttributeError "_id").
Proof. repeat split. Qed.

(** [Shape("g", fill=None)]: [fill] answers [None], [stroke] raises, and
    [tag] is found without [__getattr__]. *)
Lemma getattr_outcomes_witness :
  let shape := Shape_init "g" None None [("fill", VNone)] in
  (startswith "fill" "_" = false /\ dict_get "fill" (attrs shape) = Some VNone
   /\ dict_get "stroke" (attrs shape) = None
   /\ found_by_lookup "Shape" "fill" = false
   /\ found_by_lookup "Shape" "stroke" = false)
  /\ __getattr__ shape "fill" = OK VNone
  /\ __getattr__ shape "stroke" = Raise (AttributeError "stroke")
  /\ getattr "Shape" shape "fill" = OK (Attribute VNone)
  /\ getattr "Shape" shape "stroke" = Raise (AttributeError "stroke")
  /\ getattr "Shape" shape "tag" = OK (Tag_field "g").
Proof.
  intros shape.
  split; [repeat split |].
  pose proof (getattr_outcomes shape "fill") as (_ & _ & _ & Hfill & Haccess & Hfields & _).
  pose proof (getattr_outcomes shape "stroke") as (Hstroke & _ & _ & _ & Haccess' & _).
  split; [exact (proj1 (Hfill eq_refl eq_refl)) |].
  split; [exact (Hstroke eq_refl) |].
  split; [exact (proj1 (proj2 (proj2 (proj2 (Haccess "Shape")))) VNone eq_refl eq_refl eq_refl) |].
  split; [exact (proj1 (proj2 (proj2 (Haccess' "Shape"))) eq_refl (or_intror eq_refl)) |].
  exact (proj1 (Hfields "Shape")).
Defined.

(** [Rotate(45)] and [Rotate(45, anchor=Point(10, 10))] *)
Lemma Rotate_as_str_witness :
  (Point_eq origin origin = true
   /\ Point_eq (mkPoint (Int 10) (Int 10)) origin = false)
  /\ as_str (Rotate_init (Int 45) (Some origin)) = OK "rotate(45)"
  /\ as_str (Rotate_init (Int 45) (Some (mkPoint (Int 10) (Int 10)))) = OK "rotate(45 10 10)".
Proof.
  split; [repeat split |]. split.
  - exact (proj1 (Rotate_as_str (Int 45) origin) eq_refl).
  - exact (proj1 (proj2 (Rotate_as_str (Int 45) (mkPoint (Int 10) (Int 10)))) eq_refl).
Defined.

(** C6 fails for [Cycle]: [Cycle(n=0)] raises in its constructor, so there
    is no container; and where both are built the two policies differ, one
    member for [Repeat(0, t)] and none for [Cycle(n=0, angle=10)]. *)
Lemma Repeat_Cycle_zero_counterexample :
  Cycle_init 0 origin None None = Raise ZeroDivisionError
  /\ (group <- apply (Repeat 0 (Translate (Int 10) (Int 0))) doc_circle ;;
      OK (length (default [] (children group)))) = OK 1%nat
  /\ (cycle <- Cycle_init 0 origin None (Some (Int 10)) ;;
      group <- apply cycle doc_circle ;;
      OK (length (default [] (children group)))) = OK 0%nat.
Proof. repeat split. Qed.

Lemma doc_store_built :
  Heap.Shape_init "Shape" "circle" None None
    [("cx", VNum (Int 100)); ("cy", VNum (Int 100)); ("r", VNum (Int 50))] []
  = OK (1%nat, doc_store)
  /\ Heap.closed doc_store
  /\ Heap.is_instance doc_store 1.
Proof.
  destruct (Shape_init_fresh [] "Shape" "circle" None None
              [("cx", VNum (Int 100)); ("cy", VNum (Int 100)); ("r", VNum (Int 50))]
              closed_nil ltac:(discriminate)) as [Hrun (_ & Hc & _ & Hi)].
  split; [exact Hrun |]. split; [exact Hc | exact Hi].
Qed.

(** [Translate(10, 0)] applied to the circle in [doc_store]: the new instance
    is at reference 2, and the circle at reference 1 renders as before. *)
Lemma apply_leaves_original_witness :
  let move := Translate (Int 10) (Int 0) in
  let moved := Heap.Instance (Heap.mkInstance "Shape" "circle" None 0 (Some move)) in
  (Heap.closed doc_store /\ Heap.is_instance doc_store 1)
  /\ Heap.apply move 1%nat doc_store = OK (2%nat, doc_store ++ [moved])
  /\ (forall depth indent,
        Heap._svg depth (doc_store ++ [moved]) indent 1%nat =
        Heap._svg depth doc_store indent 1%nat)
  /\ Heap.shape_at 1 doc_store 1%nat = OK doc_circle
  /\ Heap.shape_at 1 (doc_store ++ [moved]) 1%nat = OK doc_circle
  /\ Heap.shape_at 1 (doc_store ++ [moved]) 2%nat = OK (apply_transform doc_circle move)
  /\ Heap._svg 1 (doc_store ++ [moved]) "" 1%nat
     = OK ("<circle " +:+ render_attr "cx" "100" +:+ " " +:+ render_attr "cy" "100"
             +:+ " " +:+ render_attr "r" "50" +:+ " />" +:+ newline)
  /\ Heap._svg 1 (doc_store ++ [moved]) "" 2%nat
     = OK ("<circle " +:+ render_attr "cx" "100" +:+ " " +:+ render_attr "cy" "100"
             +:+ " " +:+ render_attr "r" "50"
             +:+ " " +:+ render_attr "transform" "translate(10 0)" +:+ " />" +:+ newline).
Proof.
  intros move moved.
  destruct doc_store_built as (_ & Hc & Hi).
  split; [split; [exact Hc | exact Hi] |].
  split; [reflexivity |]. split; [| repeat split].
  pose proof (proj1 (apply_leaves_original doc_store 1%nat move Hc Hi)) as Hkept.
  change (Heap.apply move 1%nat doc_store) with (OK (2%nat, doc_store ++ [moved])) in Hkept.
  exact (proj1 (proj2 (proj2 (proj2 (proj2 (proj2 Hkept)))))).
Defined.

(** ** Instances of the further properties *)

(** A translation and then a rotation attached to the circle of the
    documentation. *)
Lemma chain_accumulates_witness :
  (transform doc_circle = None /\ [Rotate (Int 45) origin] <> [])
  /\ foldl apply_transform doc_circle [Translate (Int 10) (Int 0); Rotate (Int 45) origin]
     = mkShape "circle" None (attrs doc_circle)
         (Some (TransformationList [Translate (Int 10) (Int 0); Rotate (Int 45) origin])).
Proof.
  split; [split; [reflexivity | discriminate] |].
  exact (proj1 (chain_accumulates doc_circle (Translate (Int 10) (Int 0))
                  [Rotate (Int 45) origin] eq_refl ltac:(discriminate))).
Defined.

(** [Repeat(3, Translate(10, 0))] on the circle of the documentation. *)
Lemma Repeat_member_transforms_witness :
  let move := Translate (Int 10) (Int 0) in
  (1 <= 3 /\ applies_directly move = true /\ transform doc_circle = None)
  /\ apply (Repeat 3 move) doc_circle =
     OK (mkShape "g"
           (Some [doc_circle;
                  mkShape "circle" None (attrs doc_circle) (Some move);
                  mkShape "circle" None (attrs doc_circle)
                    (Some (TransformationList [move; move]))])
           [] None).
Proof.
  intros move.
  split; [split; [lia | split; reflexivity] |].
  exact (proj1 (Repeat_member_transforms 3 move doc_circle ltac:(lia) eq_refl eq_refl)).
Defined.

(** The circle of the documentation, moved: its attributes for rendering
    hold the text of the translation. *)
Lemma get_attrs_adds_transform_witness :
  let move := Translate (Int 10) (Int 0) in
  let moved := apply_transform doc_circle move in
  (transform moved = Some move /\ as_str move = OK "translate(10 0)")
  /\ get_attrs moved = OK (attrs doc_circle ++ [("transform", VStr "translate(10 0)")]).
Proof.
  intros move moved.
  split; [split; reflexivity |].
  destruct (get_attrs_adds_transform moved move "translate(10 0)" eq_refl eq_refl)
    as (d & Hd & _ & _ & Hnew).
  rewrite Hd. f_equal. exact (Hnew eq_refl).
Defined.

(** [Circle(radius=5, fill="red")]: the keyword can be read back. *)
Lemma keyword_arguments_pass_through_witness :
  let red := mkShape "circle" None
               [("cx", VNum (Int 0)); ("cy", VNum (Int 0)); ("r", VNum (Int 5));
                ("fill", VStr "red")] None in
  (attribute_keywords [("fill", VStr "red")] = true
   /\ Circle origin (Int 5) [("fill", VStr "red")] = OK red)
  /\ __getattr__ red "fill" = OK (VStr "red").
Proof.
  intros red.
  split; [split; reflexivity |].
  exact (proj2 (proj2 (proj2
           (keyword_arguments_pass_through red [("fill", VStr "red")] eq_refl
              (or_introl (ex_intro _ origin (ex_intro _ (Int 5) eq_refl))))))
           "fill" (VStr "red") eq_refl eq_refl).
Defined.

(** [Repeat(2, Translate(10, 0))] applied to the circle in [doc_store] and
    the same on [doc_circle]. *)
Lemma store_rendering_matches_values_witness :
  let t := Repeat 2 (Translate (Int 10) (Int 0)) in
  (Heap.closed doc_store /\ Heap.represents doc_store 1%nat doc_circle)
  /\ match Heap.apply t 1%nat doc_store with
     | OK (r, h') =>
         exists s' enough,
           apply t doc_circle = OK s'
           /\ forall depth indent, (enough <= depth)%nat ->
                Heap._svg depth h' indent r = _svg indent s'
     | Raise e => apply t doc_circle = Raise e
     end.
Proof.
  intros t.
  destruct doc_store_built as (_ & Hc & _).
  assert (Hr : Heap.represents doc_store 1%nat doc_circle) by (exists 1%nat; reflexivity).
  split; [split; [exact Hc | exact Hr] |].
  exact (store_rendering_matches_values doc_store 1%nat doc_circle t Hc Hr).
Defined.

(** [Repeat(2, Translate(10, 0))] applied to the circle in [doc_store]: the
    list at reference 2 holds reference 1, the circle itself, and the moved
    copy at reference 3. *)
Lemma Repeat_group_holds_original_witness :
  let move := Translate (Int 10) (Int 0) in
  let h' := doc_store
              ++ [Heap.List [1%nat; 3%nat];
                  Heap.Instance (Heap.mkInstance "Shape" "circle" None 0 (Some move));
                  Heap.Dict [];
                  Heap.Instance (Heap.mkInstance "Group" "g" (Some 2%nat) 4 None)] in
  (Heap.closed doc_store /\ Heap.is_instance doc_store 1
   /\ Heap.apply (Repeat 2 move) 1%nat doc_store = OK (5%nat, h'))
  /\ exists d items,
       h' !! 5%nat
       = Some (Heap.Instance (Heap.mkInstance "Group" "g" (Some (length doc_store)) d None))
       /\ h' !! d = Some (Heap.Dict [])
       /\ h' !! length doc_store = Some (Heap.List (1%nat :: items))
       /\ length items = Z.to_nat (2 - 1)
       /\ Forall (fun r => (length doc_store < r)%nat /\ Heap.is_instance h' r) items
       /\ (forall r, (r < length doc_store)%nat -> h' !! r = doc_store !! r).
Proof.
  intros move h'.
  destruct doc_store_built as (_ & Hc & Hi).
  split; [split; [exact Hc | split; [exact Hi | reflexivity]] |].
  exact (Repeat_group_holds_original doc_store 1%nat 2 move 5%nat h' Hc Hi eq_refl).
Defined.

(** [Rectangle(width=300, height=300, stroke="#ddd")], the border that [show]
    draws: its corner is at (-150.0, -150.0). *)
Lemma geometry_read_back_witness :
  let border := mkShape "rect" None
                  [("x", VNum (Float (-150)%float)); ("y", VNum (Float (-150)%float));
                   ("width", VNum (Int 300)); ("height", VNum (Int 300));
                   ("stroke", VStr "#ddd")] None in
  (attribute_keywords [("stroke", VStr "#ddd")] = true
   /\ Rectangle origin (Int 300) (Int 300) [("stroke", VStr "#ddd")] = OK border)
  /\ __getattr__ border "width" = OK (VNum (Int 300))
  /\ __getattr__ border "height" = OK (VNum (Int 300)).
Proof.
  intros border.
  assert (Hborder : Rectangle origin (Int 300) (Int 300) [("stroke", VStr "#ddd")]
                    = OK border) by (vm_compute; reflexivity).
  split; [split; [reflexivity | exact Hborder] |].
  destruct (proj2 (proj2 (proj2
              (geometry_read_back [("stroke", VStr "#ddd")] border eq_refl)))
              origin (Int 300) (Int 300) Hborder) as (Hwidth & Hheight & _).
  split; [exact Hwidth | exact Hheight].
Defined.

(** [Circle(radius=5, r=7)] repeats the keyword [r]; [Circle(radius=5,
    fill="red")] does not.  A keyword named [radius] is not an attribute. *)
Lemma repeated_keyword_raises_witness :
  (attribute_keywords [("r", VNum (Int 7))] = true
   /\ attribute_keywords [("fill", VStr "red")] = true
   /\ attribute_keywords [("radius", VNum (Int 7))] = false)
  /\ Circle origin (Int 5) [("r", VNum (Int 7))] = Raise TypeError
  /\ Circle origin (Int 5) [("fill", VStr "red")] =
     OK (mkShape "circle" None
           [("cx", VNum (Int 0)); ("cy", VNum (Int 0)); ("r", VNum (Int 5));
            ("fill", VStr "red")] None).
Proof.
  split; [repeat split |].
  split.
  - exact (proj1 (repeated_keyword_raises [("r", VNum (Int 7))] eq_refl) origin (Int 5)).
  - exact (proj1 (repeated_keyword_raises [("fill", VStr "red")] eq_refl) origin (Int 5)).
Defined.
